(** * The IPvGO move selector (get_move.ts): a shallow embedding

    The TypeScript source is one file made of the pieces of the original
    project (Enums, Types, goAI, boardAnalysis, patternMatching, boardState,
    controlledTerritory).  The definitions below follow it function by
    function and keep its names.

    Conventions of the embedding

    - JS numbers that hold coordinates, counts and indices are [Z]; the
      numbers drawn from the random generator are rationals ([Q]).
    - A [PointState] object is a record.  Its [liberties] array holds
      references to other points of the same board; such a reference is
      represented by the coordinates of the point it designates ([Ref]).
      Boards are only built by [boardFromSimpleBoard] and changed by the
      functions of this file, so the fields [x], [y] of a point are its
      position in the board and a reference never leaves its board.
    - [null] and [undefined] are merged into [None] wherever the source only
      tests them with [!p], [?.], [??] or [isNotNullish]; the pattern matcher
      compares with [=== null], so board reads come in a three-valued form
      ([JsCell]) as well.
    - Functions that update a board in place are functions from boards to
      boards; [Heap] gives boards an address so that copying and aliasing
      can be stated.
    - [await], [sleep] and [waitCycle] only yield to the host and are
      dropped.
    - The source reads [chain[0].color], [chain[0].chain] and the like
      without a guard; on an empty chain that raises a TypeError.
      [getAllChains] builds no empty chain, and after [updateChains] every
      point has a chain id, so the chains that are looked up are found.
      The embedding is total: where the source would raise, the chain
      counts as not matching and nothing is recorded for it. *)

From Stdlib Require Import ZArith List String Ascii Bool Lia.
From Stdlib Require Import QArith Qround.
From Stdlib Require Import DecimalString DecimalPos DecimalZ.
From Stdlib Require Import Relations FinFun.
Import ListNotations.

Local Open Scope Z_scope.

(** ** src/Go/Enums.ts *)

Inductive GoColor := white | black | empty.

Inductive GoOpponent :=
| none | Netburners | SlumSnakes | TheBlackHand | Tetrads | Daedalus
| Illuminati | w0r1d_d43m0n.

Inductive GoValidity :=
| pointBroken | pointNotEmpty | boardRepeated | noSuicide | notYourTurn
| gameOver | invalid | valid.

Definition GoColor_eqb (a b : GoColor) : bool :=
  match a, b with
  | white, white | black, black | empty, empty => true
  | _, _ => false
  end.

Definition GoOpponent_eqb (a b : GoOpponent) : bool :=
  match a, b with
  | none, none | Netburners, Netburners | SlumSnakes, SlumSnakes
  | TheBlackHand, TheBlackHand | Tetrads, Tetrads | Daedalus, Daedalus
  | Illuminati, Illuminati | w0r1d_d43m0n, w0r1d_d43m0n => true
  | _, _ => false
  end.

Definition GoValidity_eqb (a b : GoValidity) : bool :=
  match a, b with
  | pointBroken, pointBroken | pointNotEmpty, pointNotEmpty
  | boardRepeated, boardRepeated | noSuicide, noSuicide
  | notYourTurn, notYourTurn | gameOver, gameOver | invalid, invalid
  | valid, valid => true
  | _, _ => false
  end.

(** ** src/Go/Types.ts *)

Definition SimpleBoard := list string.

(** A reference to a point of a board: the coordinates of the point. *)
Definition Ref := (Z * Z)%type.

Record PointState := mkPoint {
  p_color : GoColor;
  p_chain : string;
  p_liberties : option (list Ref);
  p_x : Z;
  p_y : Z
}.

Record Neighbor := mkNeighbor {
  north : option PointState;
  east : option PointState;
  south : option PointState;
  west : option PointState
}.

Definition Board := list (list (option PointState)).

Record BoardState := mkBoardState {
  bs_board : Board;
  bs_previousPlayer : option GoColor;
  bs_previousBoards : list string;
  bs_ai : GoOpponent;
  bs_passCount : Z;
  bs_cheatCount : Z;
  bs_cheatCountForWhite : Z
}.

Record EyeMove := mkEyeMove {
  em_point : PointState;
  em_createsLife : bool
}.

Record Move := mkMove {
  m_point : PointState;
  m_oldLibertyCount : option Z;
  m_newLibertyCount : option Z;
  m_createsLife : option bool
}.

Inductive Play :=
| PlayMove (x y : Z)
| PlayPass
| PlayGameOver.

(** ** JS arrays, strings and numbers *)

(** [arr[i]]: [undefined] outside of the array. *)
Definition nthZ {A} (l : list A) (i : Z) : option A :=
  if i <? 0 then None else nth_error l (Z.to_nat i).

(** [arr.length] *)
Definition lengthZ {A} (l : list A) : Z := Z.of_nat (List.length l).

(** [arr.filter(isNotNullish)] *)
Fixpoint somes {A} (l : list (option A)) : list A :=
  match l with
  | [] => []
  | Some a :: l' => a :: somes l'
  | None :: l' => somes l'
  end.

(** [arr.map((a, i) => f(i, a))], the index counted from [i]. *)
Fixpoint mapi_from {A B} (f : Z -> A -> B) (i : Z) (l : list A) : list B :=
  match l with
  | [] => []
  | a :: l' => f i a :: mapi_from f (i + 1) l'
  end.

Definition mapi {A B} (f : Z -> A -> B) (l : list A) : list B :=
  mapi_from f 0 l.

(** [arr.pop()]: the last element and the array without it. *)
Fixpoint pop {A} (l : list A) : option (A * list A) :=
  match l with
  | [] => None
  | a :: l' =>
      match pop l' with
      | None => Some (a, [])
      | Some (b, r) => Some (b, a :: r)
      end
  end.

(** Replace the element at index [n] by its image under [f]. *)
Fixpoint upd_nth {A} (f : A -> A) (l : list A) (n : nat) : list A :=
  match l, n with
  | [], _ => []
  | a :: l', O => f a :: l'
  | a :: l', S n' => a :: upd_nth f l' n'
  end.

Definition updZ {A} (f : A -> A) (l : list A) (i : Z) : list A :=
  if i <? 0 then l else upd_nth f l (Z.to_nat i).

(** [String(n)] for an integer [n]. *)
Definition numberToString (n : Z) : string :=
  NilZero.string_of_int (Z.to_int n).

(** [Math.round(Math.sqrt(n))] for a natural number [n]: the square root is
    rounded up exactly when [n] exceeds [s * s + s], [s] the integer root. *)
Definition roundSqrt (n : Z) : Z :=
  let s := Z.sqrt n in
  if s * s + s <? n then s + 1 else s.

(** [str[i]] *)
Definition charAt (s : string) (i : Z) : option ascii :=
  if i <? 0 then None else String.get (Z.to_nat i) s.

(** ** src/Go/boardAnalysis/boardAnalysis.ts: board construction *)

Definition blankPointState (color : GoColor) (x y : Z) : PointState :=
  {| p_color := color; p_y := y; p_x := x; p_chain := ""; p_liberties := None |}.

Definition boardFromSimpleBoard (simpleBoard : SimpleBoard) : Board :=
  mapi (fun x column =>
    mapi (fun y char =>
      if Ascii.eqb char "#" then None
      else if Ascii.eqb char "X" then Some (blankPointState black x y)
      else if Ascii.eqb char "O" then Some (blankPointState white x y)
      else Some (blankPointState empty x y))
      (list_ascii_of_string column))
    simpleBoard.

Definition simpleBoardFromBoard (board : Board) : SimpleBoard :=
  map (fun column =>
    fold_left (fun str point =>
      match point with
      | None => str ++ "#"
      | Some point =>
          if GoColor_eqb (p_color point) black then str ++ "X"
          else if GoColor_eqb (p_color point) white then str ++ "O"
          else str ++ "."
      end)%string column ""%string)
    board.

Definition boardStringFromBoard (board : Board) : string :=
  String.concat "" (simpleBoardFromBoard board).

Definition getColorOnBoardString (boardString : string) (x y : Z)
  : option GoColor :=
  let boardSize := roundSqrt (Z.of_nat (String.length boardString)) in
  match charAt boardString (x * boardSize + y) with
  | Some char =>
      if Ascii.eqb char "X" then Some black
      else if Ascii.eqb char "O" then Some white
      else if Ascii.eqb char "." then Some empty
      else None
  | None => None
  end.

(** ** src/Go/boardState/boardState.ts: reading and updating a board *)

(** The value of [board[x]?.[y]]. *)
Inductive JsCell :=
| Undefined
| Null
| Pt (p : PointState).

Definition cellAt (board : Board) (x y : Z) : JsCell :=
  match nthZ board x with
  | None => Undefined
  | Some column =>
      match nthZ column y with
      | None => Undefined
      | Some None => Null
      | Some (Some p) => Pt p
      end
  end.

(** [board[x]?.[y]] where the caller only asks whether it is a point. *)
Definition pointAt (board : Board) (x y : Z) : option PointState :=
  match cellAt board x y with
  | Pt p => Some p
  | _ => None
  end.

(** Assignments to the fields of the point object stored at [board[x][y]]. *)
Definition setPoint (f : PointState -> PointState) (board : Board) (x y : Z)
  : Board :=
  updZ (fun column => updZ (option_map f) column y) board x.

Definition withColor (c : GoColor) (p : PointState) : PointState :=
  {| p_color := c; p_chain := p_chain p; p_liberties := p_liberties p;
     p_x := p_x p; p_y := p_y p |}.

Definition withChain (id : string) (libs : option (list Ref)) (p : PointState)
  : PointState :=
  {| p_color := p_color p; p_chain := id; p_liberties := libs;
     p_x := p_x p; p_y := p_y p |}.

(** The reference held for a point object. *)
Definition refOf (p : PointState) : Ref := (p_x p, p_y p).

Definition getEmptySpaces (board : Board) : list PointState :=
  filter (fun point => GoColor_eqb (p_color point) empty)
         (somes (List.concat board)).

Definition findNeighbors (board : Board) (x y : Z) : Neighbor :=
  {| north := pointAt board x (y + 1);
     east := pointAt board (x + 1) y;
     south := pointAt board x (y - 1);
     west := pointAt board (x - 1) y |}.

Definition getArrayFromNeighbor (neighborObject : Neighbor)
  : list PointState :=
  somes [north neighborObject; east neighborObject;
         south neighborObject; west neighborObject].

Definition clearChains (board : Board) : Board :=
  map (map (option_map (withChain "" None))) board.

Definition samePoint (p q : PointState) : bool :=
  (p_x p =? p_x q) && (p_y p =? p_y q).

Definition contains (arr : list PointState) (point : PointState) : bool :=
  existsb (fun p => samePoint p point) arr.

(** One turn of the [forEach] over the neighbours in
    [findAdjacentPointsInChain]; the state is
    (checkedPoints, adjacentPoints, pointsToCheckNeighbors). *)
Definition visitNeighbor (currentPoint : PointState)
  (st : list PointState * list PointState * list PointState)
  (neighbor : PointState)
  : list PointState * list PointState * list PointState :=
  let '(checkedPoints, adjacentPoints, pointsToCheckNeighbors) := st in
  if GoColor_eqb (p_color neighbor) (p_color currentPoint)
     && negb (contains checkedPoints neighbor)
  then (checkedPoints ++ [neighbor], adjacentPoints ++ [neighbor],
        pointsToCheckNeighbors ++ [neighbor])
  else (checkedPoints ++ [neighbor], adjacentPoints, pointsToCheckNeighbors).

(** The [while] loop of [findAdjacentPointsInChain], run for at most [fuel]
    turns. *)
Fixpoint chainLoop (fuel : nat) (board : Board)
  (checkedPoints adjacentPoints pointsToCheckNeighbors : list PointState)
  : list PointState :=
  match fuel with
  | O => adjacentPoints
  | S fuel' =>
      match pop pointsToCheckNeighbors with
      | None => adjacentPoints
      | Some (currentPoint, rest) =>
          let checkedPoints := checkedPoints ++ [currentPoint] in
          let neighbors :=
            findNeighbors board (p_x currentPoint) (p_y currentPoint) in
          let '(checkedPoints, adjacentPoints, rest) :=
            fold_left (visitNeighbor currentPoint)
              (getArrayFromNeighbor neighbors)
              (checkedPoints, adjacentPoints, rest) in
          chainLoop fuel' board checkedPoints adjacentPoints rest
      end
  end.

(** Every turn of the loop pops a point that was pushed once, and a point is
    pushed at most once: one turn per cell and one more is enough. *)
Definition chainFuel (board : Board) : nat :=
  S (List.length (List.concat board)).

Definition findAdjacentPointsInChain (board : Board) (x y : Z)
  : list PointState :=
  match pointAt board x y with
  | None => []
  | Some point => chainLoop (chainFuel board) board [] [point] [point]
  end.

(** ** src/Go/boardAnalysis/boardAnalysis.ts: chains and liberties *)

(** [set.add(p)] for a [Set<PointState>]: the objects of one board are told
    apart by their coordinates; a set keeps the order of insertion. *)
Definition setAddPoint (s : list PointState) (p : PointState)
  : list PointState :=
  if contains s p then s else s ++ [p].

Definition isPointInChain (point : PointState) (chain : list PointState)
  : bool :=
  existsb (fun chainPoint =>
             (p_x chainPoint =? p_x point) && (p_y chainPoint =? p_y point))
          chain.

Definition getAllNeighbors (board : Board) (chain : list PointState)
  : list PointState :=
  fold_left (fun chainNeighbors point =>
    fold_left setAddPoint
      (filter (fun neighborPoint => negb (isPointInChain neighborPoint chain))
         (getArrayFromNeighbor (findNeighbors board (p_x point) (p_y point))))
      chainNeighbors)
    chain [].

Definition findLibertiesForChain (board : Board) (chain : list PointState)
  : list PointState :=
  filter (fun neighbor => GoColor_eqb (p_color neighbor) empty)
         (getAllNeighbors board chain).

(** The positions visited by [for x ... for y ...] over a board. *)
Definition scanOrder (board : Board) : list (Z * Z) :=
  List.concat
    (mapi (fun x column => mapi (fun y _ => (x, y)) column) board).

(** The body of the two loops of [updateChains]. *)
Definition updateChainAt (board : Board) (xy : Z * Z) : Board :=
  let '(x, y) := xy in
  match pointAt board x y with
  | None => board
  | Some point =>
      if negb (p_chain point =? "")%string then board
      else
        let chainMembers := findAdjacentPointsInChain board x y in
        let libertiesForChain := findLibertiesForChain board chainMembers in
        let id := (numberToString (p_x point) ++ ","
                   ++ numberToString (p_y point))%string in
        fold_left (fun b member =>
                     setPoint (withChain id (Some (map refOf libertiesForChain)))
                              b (p_x member) (p_y member))
                  chainMembers board
  end.

Definition updateChains (board : Board) (resetChains : bool) : Board :=
  let board := if resetChains then clearChains board else board in
  fold_left updateChainAt (scanOrder board) board.

(** [chains[point.chain] = chains[point.chain] || []; chains[...].push(point)]
    on an object used as a dictionary.  Chain ids are [""] or of the form
    ["x,y"], never an array index, so [Object.keys] lists them in the order of
    their insertion. *)
Fixpoint pushChain (chains : list (string * list PointState))
  (p : PointState) : list (string * list PointState) :=
  match chains with
  | [] => [(p_chain p, [p])]
  | (key, chain) :: rest =>
      if (key =? p_chain p)%string then (key, chain ++ [p]) :: rest
      else (key, chain) :: pushChain rest p
  end.

Definition getAllChains (board : Board) : list (list PointState) :=
  map snd
    (fold_left (fun chains point =>
       match point with
       | None => chains
       | Some point =>
           if (p_chain point =? "")%string then chains
           else pushChain chains point
       end)
       (List.concat board) []).

(** [chain[0]] *)
Definition chainHead (chain : list PointState) : option PointState :=
  hd_error chain.

(** [p?.liberties?.length] *)
Definition libertyCount (p : PointState) : option Z :=
  option_map lengthZ (p_liberties p).

Definition resetChainsById (board : Board) (chainIds : list string) : Board :=
  map (map (option_map (fun point =>
    if existsb (fun id => (id =? p_chain point)%string) chainIds
    then withChain "" (Some []) point
    else point))) board.

Definition findCapturedChainOfColor (chainList : list (list PointState))
  (playerColor : GoColor) : list (list PointState) :=
  filter (fun chain =>
            match chainHead chain with
            | Some p =>
                GoColor_eqb (p_color p) playerColor
                && match libertyCount p with
                   | Some n => n =? 0
                   | None => false
                   end
            | None => false
            end)
         chainList.

Definition opposite (player : GoColor) : GoColor :=
  if GoColor_eqb player white then black else white.

Definition findAllCapturedChains (chainList : list (list PointState))
  (playerWhoMoved : GoColor) : option (list (list PointState)) :=
  let opposingPlayer := opposite playerWhoMoved in
  let enemyChainsToCapture := findCapturedChainOfColor chainList opposingPlayer in
  if negb (lengthZ enemyChainsToCapture =? 0) then Some enemyChainsToCapture
  else
    let friendlyChainsToCapture :=
      findCapturedChainOfColor chainList playerWhoMoved in
    if negb (lengthZ friendlyChainsToCapture =? 0)
    then Some friendlyChainsToCapture
    else None.

Definition capturePoint (p : PointState) : PointState :=
  {| p_color := empty; p_chain := ""; p_liberties := Some [];
     p_x := p_x p; p_y := p_y p |}.

(** [captureChain] changes the point objects of the chain, which are the
    objects stored in the board the chain was read from. *)
Definition captureChain (board : Board) (chain : list PointState) : Board :=
  fold_left (fun b point => setPoint capturePoint b (p_x point) (p_y point))
            chain board.

Definition updateCaptures (board : Board) (playerWhoMoved : GoColor)
  (resetChains : bool) : Board :=
  let board := updateChains board resetChains in
  let chains := getAllChains board in
  match findAllCapturedChains chains playerWhoMoved with
  | None => board
  | Some chainsToCapture =>
      if lengthZ chainsToCapture =? 0 then board
      else updateChains (fold_left captureChain chainsToCapture board) true
  end.

(** ** Boards as objects

    A store holds the board objects that exist; a board is designated by its
    address.  [structuredClone] copies the whole object graph of a board,
    points and liberties included, into a new object. *)
Module Heap.

Definition Store := list Board.
Definition BoardRef := nat.

Definition deref (s : Store) (r : BoardRef) : Board := nth r s [].

Definition modify (f : Board -> Board) (s : Store) (r : BoardRef) : Store :=
  upd_nth f s r.

Definition getBoardCopy (s : Store) (board : BoardRef) : Store * BoardRef :=
  (s ++ [deref s board], List.length s).

Definition evaluateMoveResult (s : Store) (board : BoardRef) (x y : Z)
  (player : GoColor) (resetChains : bool) : Store * BoardRef :=
  let '(s, evaluationBoard) := getBoardCopy s board in
  match pointAt (deref s evaluationBoard) x y with
  | None => (s, board)
  | Some point =>
      let s := modify (fun b => setPoint (withColor player) b x y)
                      s evaluationBoard in
      let neighbors :=
        getArrayFromNeighbor (findNeighbors (deref s board) x y) in
      let chainIdsToUpdate := p_chain point :: map p_chain neighbors in
      let s := modify (fun b => resetChainsById b chainIdsToUpdate)
                      s evaluationBoard in
      let s := modify (fun b => updateCaptures b player resetChains)
                      s evaluationBoard in
      (s, evaluationBoard)
  end.

End Heap.

(** The board that [evaluateMoveResult] returns, for a caller that only reads
    it: the call is run in a store that holds the argument alone. *)
Definition evaluateMoveResult (board : Board) (x y : Z) (player : GoColor)
  (resetChains : bool) : Board :=
  let '(s, r) := Heap.evaluateMoveResult [board] 0%nat x y player resetChains in
  Heap.deref s r.

(** [getBoardCopy] for a caller that keeps the copy to itself. *)
Definition getBoardCopy (board : Board) : Board := board.

(** ** src/Go/boardAnalysis/boardAnalysis.ts: neighbours and validity *)

Definition isEmptyPoint (p : option PointState) : bool :=
  match p with
  | Some p => GoColor_eqb (p_color p) empty
  | None => false
  end.

Definition findAdjacentLibertiesForPoint (board : Board) (x y : Z)
  : Neighbor :=
  let neighbors := findNeighbors board x y in
  let hasNorthLiberty := isEmptyPoint (north neighbors) in
  let hasEastLiberty := isEmptyPoint (east neighbors) in
  let hasSouthLiberty := isEmptyPoint (south neighbors) in
  let hasWestLiberty := isEmptyPoint (west neighbors) in
  {| north := if hasNorthLiberty then north neighbors else None;
     east := if hasEastLiberty then east neighbors else None;
     south := if hasSouthLiberty then south neighbors else None;
     west := if hasWestLiberty then west neighbors else None |}.

(** [p?.color === player], where [player] may be [undefined]. *)
Definition colorIs (p : option PointState) (player : option GoColor) : bool :=
  match p, player with
  | Some p, Some c => GoColor_eqb (p_color p) c
  | None, None => true
  | _, _ => false
  end.

Definition isSome {A} (o : option A) : bool :=
  match o with Some _ => true | None => false end.

Definition findAdjacentLibertiesAndAlliesForPoint (board : Board) (x y : Z)
  (_player : option GoColor) : Neighbor :=
  let currentPoint := pointAt board x y in
  let player :=
    match _player with
    | Some c => Some c
    | None =>
        match currentPoint with
        | None => None
        | Some p =>
            if GoColor_eqb (p_color p) empty then None else Some (p_color p)
        end
    end in
  let adjacentLiberties := findAdjacentLibertiesForPoint board x y in
  let neighbors := findNeighbors board x y in
  {| north := if isSome (north adjacentLiberties)
                 || colorIs (north neighbors) player
              then north neighbors else None;
     east := if isSome (east adjacentLiberties)
                || colorIs (east neighbors) player
             then east neighbors else None;
     south := if isSome (south adjacentLiberties)
                 || colorIs (south neighbors) player
              then south neighbors else None;
     west := if isSome (west adjacentLiberties)
                || colorIs (west neighbors) player
             then west neighbors else None |}.

Definition orElse {A} (o : option A) (d : A) : A :=
  match o with Some a => a | None => d end.

Definition findMaxLibertyCountOfAdjacentChains (boardState : BoardState)
  (x y : Z) (player : GoColor) : Z :=
  let neighbors :=
    findAdjacentLibertiesAndAlliesForPoint (bs_board boardState) x y
      (Some player) in
  let friendlyNeighbors :=
    filter (fun neighbor => GoColor_eqb (p_color neighbor) player)
      (somes [north neighbors; east neighbors; south neighbors;
              west neighbors]) in
  fold_left (fun max neighbor => Z.max max (orElse (libertyCount neighbor) 0))
            friendlyNeighbors 0.

Definition findEnemyNeighborChainWithFewestLiberties (board : Board)
  (x y : Z) (player : GoColor) : option (list PointState) :=
  let chains := getAllChains board in
  let neighbors :=
    findAdjacentLibertiesAndAlliesForPoint board x y (Some player) in
  let friendlyNeighbors :=
    filter (fun neighbor => GoColor_eqb (p_color neighbor) player)
      (somes [north neighbors; east neighbors; south neighbors;
              west neighbors]) in
  let minimumLiberties :=
    fold_left (fun min neighbor =>
                 Z.min min (orElse (libertyCount neighbor) 0))
      friendlyNeighbors
      (orElse (match hd_error friendlyNeighbors with
               | Some n => libertyCount n
               | None => None
               end) 99) in
  let chainId :=
    option_map p_chain
      (find (fun neighbor =>
               match libertyCount neighbor with
               | Some n => n =? minimumLiberties
               | None => false
               end)
            friendlyNeighbors) in
  match chainId with
  | None => None
  | Some chainId =>
      find (fun chain =>
              match chainHead chain with
              | Some p => (p_chain p =? chainId)%string
              | None => false
              end)
           chains
  end.

Definition findMinLibertyCountOfAdjacentChains (board : Board) (x y : Z)
  (player : GoColor) : Z :=
  let chain := findEnemyNeighborChainWithFewestLiberties board x y player in
  orElse (match chain with
          | Some c =>
              match chainHead c with
              | Some p => libertyCount p
              | None => None
              end
          | None => None
          end) 99.

(** Truth value of a string or [undefined]. *)
Definition truthyString (o : option string) : bool :=
  match o with
  | Some s => negb (s =? "")%string
  | None => false
  end.

Definition optColor_eqb (a : option GoColor) (b : option GoColor) : bool :=
  match a, b with
  | Some a, Some b => GoColor_eqb a b
  | None, None => true
  | _, _ => false
  end.

Definition evaluateIfMoveIsValid (boardState : BoardState) (x y : Z)
  (player : GoColor) (shortcut : bool) : GoValidity :=
  let point := pointAt (bs_board boardState) x y in
  match bs_previousPlayer boardState with
  | None => gameOver
  | Some previous =>
  if GoColor_eqb previous player then notYourTurn else
  match point with
  | None => pointBroken
  | Some point =>
  if negb (GoColor_eqb (p_color point) empty) then pointNotEmpty else
  let possibleRepeat :=
    truthyString
      (find (fun board =>
               optColor_eqb (getColorOnBoardString board x y) (Some player))
            (bs_previousBoards boardState)) in
  let slowPath :=
    let evaluationBoard :=
      evaluateMoveResult (bs_board boardState) x y player true in
    if negb (colorIs (pointAt evaluationBoard x y) (Some player))
    then noSuicide
    else if possibleRepeat
            && negb (lengthZ (bs_previousBoards boardState) =? 0)
            && existsb (fun b => (b =? boardStringFromBoard evaluationBoard)%string)
                       (bs_previousBoards boardState)
    then boardRepeated
    else valid in
  if shortcut then
    let liberties := findAdjacentLibertiesForPoint (bs_board boardState) x y in
    let hasLiberty :=
      isSome (north liberties) || isSome (east liberties)
      || isSome (south liberties) || isSome (west liberties) in
    if negb possibleRepeat && hasLiberty then valid else
    let neighborChainLibertyCount :=
      findMaxLibertyCountOfAdjacentChains boardState x y player in
    if negb possibleRepeat && (1 <? neighborChainLibertyCount) then valid else
    let potentialCaptureChainLibertyCount :=
      findMinLibertyCountOfAdjacentChains (bs_board boardState) x y
        (if GoColor_eqb player black then white else black) in
    if negb possibleRepeat && (potentialCaptureChainLibertyCount <? 2)
    then valid else
    if negb hasLiberty && (2 <=? potentialCaptureChainLibertyCount)
       && (neighborChainLibertyCount <=? 1)
    then noSuicide
    else slowPath
  else slowPath
  end
  end.

Definition getAllValidMoves (boardState : BoardState) (player : GoColor)
  : list PointState :=
  filter (fun point =>
            GoValidity_eqb
              (evaluateIfMoveIsValid boardState (p_x point) (p_y point)
                 player true)
              valid)
         (getEmptySpaces (bs_board boardState)).

(** ** src/Go/boardAnalysis/boardAnalysis.ts: eyes *)

Definition getPlayerNeighbors (board : Board) (chain : list PointState)
  : list PointState :=
  filter (fun neighbor => negb (GoColor_eqb (p_color neighbor) empty))
         (getAllNeighbors board chain).

Definition headChainIs (id : string) (chain : list PointState) : bool :=
  match chainHead chain with
  | Some p => (p_chain p =? id)%string
  | None => false
  end.

(** [set.add(c)] for a [Set<PointState[]>].  The arrays are those of
    [allChains], told apart by the chain id of their first point, or a fresh
    [[]], which is equal to no other array. *)
Definition setAddChain (s : list (list PointState)) (c : list PointState)
  : list (list PointState) :=
  match chainHead c with
  | None => s ++ [c]
  | Some p => if existsb (headChainIs (p_chain p)) s then s else s ++ [c]
  end.

Definition getAllNeighboringChains (board : Board) (chain : list PointState)
  (allChains : list (list PointState)) : list (list PointState) :=
  let playerNeighbors := getPlayerNeighbors board chain in
  fold_left (fun neighborChains neighbor =>
               setAddChain neighborChains
                 (orElse (find (headChainIs (p_chain neighbor)) allChains) []))
            playerNeighbors [].

Record EyeCandidate := mkEyeCandidate {
  ec_neighbors : list (list PointState);
  ec_chain : list PointState;
  ec_id : string
}.

Definition headColorIs (c : GoColor) (chain : list PointState) : bool :=
  colorIs (chainHead chain) (Some c).

Definition Qmin' (a b : Q) : Q := if Qle_bool a b then a else b.

Definition getAllPotentialEyes (board : Board)
  (allChains : list (list PointState)) (player : GoColor)
  (_maxSize : option Q) : list EyeCandidate :=
  let nodeCount := lengthZ (List.concat (map somes board)) in
  let maxSize :=
    orElse _maxSize (Qmin' (inject_Z nodeCount * (4 # 10)) (inject_Z 11)) in
  let emptyPointChains := filter (headColorIs empty) allChains in
  flat_map (fun chain =>
    let neighboringChains := getAllNeighboringChains board chain allChains in
    let hasWhitePieceNeighbor :=
      existsb (headColorIs white) neighboringChains in
    let hasBlackPieceNeighbor :=
      existsb (headColorIs black) neighboringChains in
    if (hasWhitePieceNeighbor && negb hasBlackPieceNeighbor
        && GoColor_eqb player white)
       || (negb hasWhitePieceNeighbor && hasBlackPieceNeighbor
           && GoColor_eqb player black)
    then [ {| ec_neighbors := neighboringChains;
              ec_chain := chain;
              ec_id := orElse (option_map p_chain (chainHead chain)) ""%string |} ]
    else [])
    (filter (fun chain => Qle_bool (inject_Z (lengthZ chain)) maxSize)
            emptyPointChains).

Record Directions := mkDirections {
  d_north : Z;
  d_east : Z;
  d_south : Z;
  d_west : Z
}.

(** The source reads [chain[0]] for the initial value; chains are never
    empty. *)
Definition findFurthestPointsOfChain (chain : list PointState) : Directions :=
  let first := orElse (chainHead chain) (blankPointState empty 0 0) in
  fold_left (fun directions point =>
    let n := if d_north directions <? p_y point then p_y point
             else d_north directions in
    let s := if p_y point <? d_south directions then p_y point
             else d_south directions in
    let e := if d_east directions <? p_x point then p_x point
             else d_east directions in
    let w := if p_x point <? d_west directions then p_x point
             else d_west directions in
    {| d_north := n; d_east := e; d_south := s; d_west := w |})
    chain
    {| d_north := p_y first; d_east := p_x first;
       d_south := p_y first; d_west := p_x first |}.

Fixpoint remove_nth {A} (l : list A) (n : nat) : list A :=
  match l, n with
  | [], _ => []
  | _ :: l', O => l'
  | a :: l', S n' => a :: remove_nth l' n'
  end.

Definition removePointAtIndex (arr : list (list PointState)) (index : Z)
  : list (list PointState) :=
  if index <? 0 then arr else remove_nth arr (Z.to_nat index).

(** [board[0].length] *)
Definition firstColumnLength (board : Board) : Z :=
  match board with
  | [] => 0
  | column :: _ => lengthZ column
  end.

Definition findNeighboringChainsThatFullyEncircleEmptySpace (board : Board)
  (candidateChain : list PointState)
  (neighborChainList : list (list PointState))
  (allChains : list (list PointState)) : list (list PointState) :=
  let boardMax := firstColumnLength board - 1 in
  let candidateSpread := findFurthestPointsOfChain candidateChain in
  map snd
    (filter (fun '(index, neighborChain) =>
      let neighborSpread := findFurthestPointsOfChain neighborChain in
      let couldWrapNorth :=
        (d_north candidateSpread <? d_north neighborSpread)
        || ((d_north candidateSpread =? boardMax)
            && (d_north neighborSpread =? boardMax)) in
      let couldWrapEast :=
        (d_east candidateSpread <? d_east neighborSpread)
        || ((d_east candidateSpread =? boardMax)
            && (d_east neighborSpread =? boardMax)) in
      let couldWrapSouth :=
        (d_south neighborSpread <? d_south candidateSpread)
        || ((d_south candidateSpread =? 0) && (d_south neighborSpread =? 0)) in
      let couldWrapWest :=
        (d_west neighborSpread <? d_west candidateSpread)
        || ((d_west candidateSpread =? 0) && (d_west neighborSpread =? 0)) in
      if negb couldWrapNorth || negb couldWrapEast || negb couldWrapSouth
         || negb couldWrapWest
      then false
      else
        let evaluationBoard := getBoardCopy board in
        let examplePoint :=
          orElse (chainHead candidateChain) (blankPointState empty 0 0) in
        let otherChainNeighborPoints :=
          List.concat (removePointAtIndex neighborChainList index) in
        let evaluationBoard :=
          fold_left (fun b point =>
                       setPoint (withColor empty) b (p_x point) (p_y point))
                    otherChainNeighborPoints evaluationBoard in
        let evaluationBoard := updateChains evaluationBoard true in
        let newChains := getAllChains evaluationBoard in
        let newChainID :=
          option_map p_chain
            (pointAt evaluationBoard (p_x examplePoint) (p_y examplePoint)) in
        let chain :=
          match newChainID with
          | Some id => orElse (find (headChainIs id) newChains) []
          | None => []
          end in
        let newNeighborChains :=
          getAllNeighboringChains board chain allChains in
        lengthZ newNeighborChains =? 1)
      (mapi (fun index neighborChain => (index, neighborChain))
            neighborChainList)).

(** [eyes[id] = eyes[id] || []; eyes[id].push(eye)] on an object used as a
    dictionary (see [pushChain]). *)
Fixpoint pushEye (eyes : list (string * list (list PointState)))
  (id : string) (eye : list PointState)
  : list (string * list (list PointState)) :=
  match eyes with
  | [] => [(id, [eye])]
  | (key, l) :: rest =>
      if (key =? id)%string then (key, l ++ [eye]) :: rest
      else (key, l) :: pushEye rest id eye
  end.

Definition getAllEyesByChainId (board : Board) (player : GoColor)
  : list (string * list (list PointState)) :=
  let allChains := getAllChains board in
  let eyeCandidates := getAllPotentialEyes board allChains player None in
  fold_left (fun eyes candidate =>
    match ec_neighbors candidate with
    | [] => eyes
    | [neighbor] =>
        match chainHead neighbor with
        | Some p => pushEye eyes (p_chain p) (ec_chain candidate)
        | None => eyes
        end
    | _ =>
        let neighborsEncirclingEye :=
          findNeighboringChainsThatFullyEncircleEmptySpace board
            (ec_chain candidate) (ec_neighbors candidate) allChains in
        fold_left (fun eyes neighborChain =>
                     match chainHead neighborChain with
                     | Some p => pushEye eyes (p_chain p) (ec_chain candidate)
                     | None => eyes
                     end)
                  neighborsEncirclingEye eyes
    end)
    eyeCandidates [].

Definition getAllEyes (board : Board) (player : GoColor)
  (eyesObject : option (list (string * list (list PointState))))
  : list (list (list PointState)) :=
  let eyes := orElse eyesObject (getAllEyesByChainId board player) in
  map snd eyes.

Definition sameRef (a b : Ref) : bool :=
  (fst a =? fst b) && (snd a =? snd b).

(** [arr.findIndex(p) === index] for each element: keep the first occurrence
    of every point. *)
Fixpoint firstOccurrences (seen : list Ref) (l : list Ref) : list Ref :=
  match l with
  | [] => []
  | a :: l' =>
      if existsb (sameRef a) seen then firstOccurrences seen l'
      else a :: firstOccurrences (seen ++ [a]) l'
  end.

(** The points are only counted by the callers and compared by their
    coordinates here: the result is a list of references. *)
Definition findEffectiveLibertiesOfNewMove (board : Board) (x y : Z)
  (player : GoColor) : list Ref :=
  let friendlyChains := filter (headColorIs player) (getAllChains board) in
  let neighbors :=
    findAdjacentLibertiesAndAlliesForPoint board x y (Some player) in
  let neighborPoints :=
    somes [north neighbors; east neighbors; south neighbors; west neighbors] in
  let allyNeighbors :=
    filter (fun neighbor => GoColor_eqb (p_color neighbor) player)
           neighborPoints in
  let allyNeighborChainLiberties :=
    List.concat
      (somes (map (fun neighbor =>
                     match find (headChainIs (p_chain neighbor)) friendlyChains
                     with
                     | Some chain =>
                         match chainHead chain with
                         | Some p => p_liberties p
                         | None => None
                         end
                     | None => None
                     end)
                  allyNeighbors)) in
  let directLiberties :=
    filter (fun neighbor => GoColor_eqb (p_color neighbor) empty)
           neighborPoints in
  let allLiberties := map refOf directLiberties ++ allyNeighborChainLiberties in
  filter (fun liberty => negb (fst liberty =? x) || negb (snd liberty =? y))
         (firstOccurrences [] allLiberties).

(** ** src/Go/boardAnalysis/controlledTerritory.ts *)

(** [contains(arr, point)] for an array of liberties. *)
Definition containsRef (arr : list Ref) (point : PointState) : bool :=
  existsb (fun p => sameRef p (refOf point)) arr.

(** [contains(chain, liberty)] for a liberty. *)
Definition refInChain (chain : list PointState) (liberty : Ref) : bool :=
  existsb (fun p => sameRef (refOf p) liberty) chain.

Definition findDisputedTerritory (boardState : BoardState) (player : GoColor)
  (excludeFriendlyEyes : bool) : list PointState :=
  let validMoves := getAllValidMoves boardState player in
  let validMoves :=
    if excludeFriendlyEyes then
      let friendlyEyes :=
        List.concat
          (List.concat
             (filter (fun eye => 2 <=? lengthZ eye)
                     (getAllEyes (bs_board boardState) player None))) in
      filter (fun point => negb (contains friendlyEyes point)) validMoves
    else validMoves in
  let opponent := opposite player in
  let chains := getAllChains (bs_board boardState) in
  let emptySpacesToAnalyze :=
    getAllPotentialEyes (bs_board boardState) chains opponent None in
  let nodesInsideEyeSpacesToAnalyze :=
    List.concat (map ec_chain emptySpacesToAnalyze) in
  let playableNodesInsideOfEnemySpace :=
    fold_left (fun playableNodes space =>
      let attackableLiberties :=
        List.concat
          (map (fun neighborChain =>
             let liberties :=
               orElse (match chainHead neighborChain with
                       | Some p => p_liberties p
                       | None => None
                       end) [] in
             if 4 <? lengthZ liberties then []
             else
               let neighborChains :=
                 getAllNeighboringChains (bs_board boardState) neighborChain
                   chains in
               if negb (existsb (headColorIs player) neighborChains) then []
               else
                 let libertiesInsideOfSpaceToAnalyze :=
                   filter (refInChain (ec_chain space)) liberties in
                 if negb (lengthZ libertiesInsideOfSpaceToAnalyze
                          =? lengthZ liberties)
                 then []
                 else libertiesInsideOfSpaceToAnalyze)
             (ec_neighbors space)) in
      playableNodes ++ attackableLiberties)
      emptySpacesToAnalyze [] in
  filter (fun move =>
            negb (contains nodesInsideEyeSpacesToAnalyze move)
            || containsRef playableNodesInsideOfEnemySpace move)
         validMoves.

(** ** src/Go/boardAnalysis/patternMatching.ts *)

Definition threeByThreePatterns : list (list string) :=
  [ ["XOX"; "..."; "???"];
    ["XO."; "..."; "?.?"];
    ["XO?"; "X.."; "o.?"];
    [".O."; "X.."; "..."];
    ["XO?"; "O.x"; "?x?"];
    ["XO?"; "O.X"; "???"];
    ["?X?"; "O.O"; "xxx"];
    ["OX?"; "x.O"; "???"];
    ["X.?"; "O.?"; "   "];
    ["OX?"; "X.O"; "   "];
    ["?X?"; "o.O"; "   "];
    ["?XO"; "o.o"; "   "];
    ["?OX"; "X.O"; "   "] ]%string.

(** [`${pattern[i][j]}`] *)
Definition patternChar (pattern : list string) (i j : Z) : string :=
  match charAt (orElse (nthZ pattern i) ""%string) j with
  | Some c => String c ""
  | None => "undefined"
  end.

Definition rotate90Degrees (pattern : list string) : list string :=
  [ (patternChar pattern 2 0 ++ patternChar pattern 1 0
     ++ patternChar pattern 0 0)%string;
    (patternChar pattern 2 1 ++ patternChar pattern 1 1
     ++ patternChar pattern 0 1)%string;
    (patternChar pattern 2 2 ++ patternChar pattern 1 2
     ++ patternChar pattern 0 2)%string ].

Definition patternRow (pattern : list string) (i : Z) : string :=
  orElse (nthZ pattern i) ""%string.

Definition verticalMirror (pattern : list string) : list string :=
  [patternRow pattern 2; patternRow pattern 1; patternRow pattern 0].

(** [str.split("")] *)
Definition splitChars (s : string) : list string :=
  map (fun c => String c ""%string) (list_ascii_of_string s).

(** [str.split("").reverse().join()]: [join] without an argument puts a
    comma between the elements. *)
Definition reverseJoin (s : string) : string :=
  String.concat "," (rev (splitChars s)).

Definition horizontalMirror (pattern : list string) : list string :=
  [ reverseJoin (patternRow pattern 0);
    reverseJoin (patternRow pattern 1);
    reverseJoin (patternRow pattern 2) ].

Definition expandAllThreeByThreePatterns : list (list string) :=
  let rotatedPatterns :=
    threeByThreePatterns
    ++ map rotate90Degrees threeByThreePatterns
    ++ map rotate90Degrees (map rotate90Degrees threeByThreePatterns)
    ++ map rotate90Degrees
         (map rotate90Degrees (map rotate90Degrees threeByThreePatterns)) in
  let mirroredPatterns :=
    rotatedPatterns ++ map verticalMirror rotatedPatterns in
  mirroredPatterns ++ map horizontalMirror mirroredPatterns.

Definition getNeighborhood (board : Board) (x y : Z) : list (list JsCell) :=
  [ [cellAt board (x - 1) (y - 1); cellAt board (x - 1) y;
     cellAt board (x - 1) (y + 1)];
    [cellAt board x (y - 1); cellAt board x y; cellAt board x (y + 1)];
    [cellAt board (x + 1) (y - 1); cellAt board (x + 1) y;
     cellAt board (x + 1) (y + 1)] ].

(** [point?.color] *)
Definition cellColor (point : JsCell) : option GoColor :=
  match point with
  | Pt p => Some (p_color p)
  | _ => None
  end.

(** The result is used as a truth value; the [null] returned for a character
    outside of the seven cases counts as [false]. *)
Definition matches (stringPoint : ascii) (point : JsCell) (player : GoColor)
  : bool :=
  let opponent := opposite player in
  if Ascii.eqb stringPoint "X" then optColor_eqb (cellColor point) (Some player)
  else if Ascii.eqb stringPoint "O"
  then optColor_eqb (cellColor point) (Some opponent)
  else if Ascii.eqb stringPoint "x"
  then negb (optColor_eqb (cellColor point) (Some opponent))
  else if Ascii.eqb stringPoint "o"
  then negb (optColor_eqb (cellColor point) (Some player))
  else if Ascii.eqb stringPoint "."
  then optColor_eqb (cellColor point) (Some empty)
  else if Ascii.eqb stringPoint " "
  then match point with Null => true | _ => false end
  else if Ascii.eqb stringPoint "?" then true
  else false.

(** [patternArr.every((str, index) => matches(str, arr[index], player))],
    the index counted from [index]. *)
Fixpoint everyMatches (patternArr : list ascii) (neighborhoodArray : list JsCell)
  (index : Z) (player : GoColor) : bool :=
  match patternArr with
  | [] => true
  | str :: rest =>
      matches str (orElse (nthZ neighborhoodArray index) Undefined) player
      && everyMatches rest neighborhoodArray (index + 1) player
  end.

Definition checkMatch (neighborhood : list (list JsCell))
  (pattern : list string) (player : GoColor) : bool :=
  let patternArr := list_ascii_of_string (String.concat "" pattern) in
  let neighborhoodArray := List.concat neighborhood in
  everyMatches patternArr neighborhoodArray 0 player.

(** [Math.floor(rng * n)] *)
Definition randomIndex (rng : Q) (n : Z) : Z :=
  Qfloor (rng * inject_Z n).

(** [arr[Math.floor(rng * arr.length)]] *)
Definition pick {A} (arr : list A) (rng : Q) : option A :=
  nthZ arr (randomIndex rng (lengthZ arr)).

Definition isAvailable (availableSpaces : list PointState) (x y : Z) : bool :=
  existsb (fun availablePoint =>
             (p_x availablePoint =? x) && (p_y availablePoint =? y))
          availableSpaces.

(** [for (let i = 0; i < n; i++)] *)
Definition range (n : Z) : list Z :=
  map Z.of_nat (seq 0 (Z.to_nat n)).

Definition findAnyMatchedPatterns (board : Board) (player : GoColor)
  (availableSpaces : list PointState) (smart : bool) (rng : Q)
  : option PointState :=
  let boardSize := firstColumnLength board in
  let patterns := expandAllThreeByThreePatterns in
  let moves :=
    flat_map (fun x =>
      flat_map (fun y =>
        let neighborhood := getNeighborhood board x y in
        let matchedPattern :=
          find (fun pattern => checkMatch neighborhood pattern player)
               patterns in
        if isSome matchedPattern
           && isAvailable availableSpaces x y
           && (negb smart
               || (1 <? lengthZ
                          (findEffectiveLibertiesOfNewMove board x y player)))
        then [pointAt board x y]
        else [])
        (range boardSize))
      (range boardSize) in
  match pick moves rng with
  | Some (Some p) => Some p
  | _ => None
  end.

(** ** src/Go/boardAnalysis/goAI.ts: move generators *)

Definition Qltb (a b : Q) : bool := negb (Qle_bool b a).

Definition isSmart (faction : GoOpponent) (rng : Q) : bool :=
  if GoOpponent_eqb faction Netburners then false
  else if GoOpponent_eqb faction SlumSnakes then Qltb rng (3 # 10)
  else if GoOpponent_eqb faction TheBlackHand then Qltb rng (8 # 10)
  else true.

Definition getDisputedTerritoryMoves (board : Board)
  (availableSpaces : list PointState) (maxChainSize : Z)
  : list PointState :=
  let chains :=
    filter (fun chain => lengthZ chain <=? maxChainSize)
           (getAllChains board) in
  filter (fun space =>
    let chain := orElse (find (headChainIs (p_chain space)) chains) [] in
    let playerNeighbors := getAllNeighboringChains board chain chains in
    let hasWhitePieceNeighbor := existsb (headColorIs white) playerNeighbors in
    let hasBlackPieceNeighbor := existsb (headColorIs black) playerNeighbors in
    hasWhitePieceNeighbor && hasBlackPieceNeighbor)
    availableSpaces.

Definition getExpansionMoveArray (board : Board)
  (availableSpaces : list PointState) : list Move :=
  let emptySpaces :=
    filter (fun space =>
      let neighbors := findNeighbors board (p_x space) (p_y space) in
      lengthZ (filter isEmptyPoint
                 [north neighbors; east neighbors; south neighbors;
                  west neighbors]) =? 4)
      availableSpaces in
  let disputedSpaces :=
    if negb (lengthZ emptySpaces =? 0) then []
    else getDisputedTerritoryMoves board availableSpaces 1 in
  let moveOptions := emptySpaces ++ disputedSpaces in
  map (fun point =>
         {| m_point := point;
            m_newLibertyCount := Some (-1);
            m_oldLibertyCount := Some (-1);
            m_createsLife := None |})
      moveOptions.

(** The point objects that the liberties of [p] refer to, in [board]. *)
Definition libertyPoints (board : Board) (p : PointState)
  : option (list PointState) :=
  option_map (fun l => somes (map (fun r => pointAt board (fst r) (snd r)) l))
             (p_liberties p).

(** [chains.map((chain) => chain[0].liberties).flat().filter(isNotNullish)] *)
Definition allLibertyPoints (board : Board) (chains : list (list PointState))
  : list PointState :=
  List.concat
    (somes (map (fun chain =>
                   match chainHead chain with
                   | Some p => libertyPoints board p
                   | None => None
                   end)
                chains)).

Definition getEyeCreationMoves (board : Board) (player : GoColor)
  (availableSpaces : list PointState) (maxLiberties : Z) : list EyeMove :=
  let allEyes := getAllEyesByChainId board player in
  let currentEyes := getAllEyes board player (Some allEyes) in
  let currentLivingGroupIDs :=
    map fst (filter (fun kv => 2 <=? lengthZ (snd kv)) allEyes) in
  let currentLivingGroupsCount := lengthZ currentLivingGroupIDs in
  let currentEyeCount :=
    lengthZ (filter (fun eye => negb (lengthZ eye =? 0)) currentEyes) in
  let chains := getAllChains board in
  let friendlyLiberties :=
    filter (fun point =>
      let neighbors := findNeighbors board (p_x point) (p_y point) in
      let neighborhood :=
        [north neighbors; east neighbors; south neighbors; west neighbors] in
      (2 <=? lengthZ (filter (fun point =>
                                negb (isSome point)
                                || colorIs point (Some player))
                             neighborhood))
      && existsb isEmptyPoint neighborhood)
      (filter (fun point => isAvailable availableSpaces (p_x point) (p_y point))
         (allLibertyPoints board
            (filter (fun chain =>
                       negb (existsb (fun id => headChainIs id chain)
                                     currentLivingGroupIDs))
               (filter (fun chain =>
                          match chainHead chain with
                          | Some p =>
                              match libertyCount p with
                              | Some n => n <=? maxLiberties
                              | None => false
                              end
                          | None => false
                          end)
                  (filter (fun chain => 1 <? lengthZ chain)
                     (filter (headColorIs player) chains)))))) in
  let eyeCreationMoves :=
    fold_left (fun moveOptions point =>
      let evaluationBoard :=
        evaluateMoveResult board (p_x point) (p_y point) player false in
      let newEyes := getAllEyes evaluationBoard player None in
      let newLivingGroupsCount :=
        lengthZ (filter (fun eye => 2 <=? lengthZ eye) newEyes) in
      let newEyeCount :=
        lengthZ (filter (fun eye => negb (lengthZ eye =? 0)) newEyes) in
      if (currentLivingGroupsCount <? newLivingGroupsCount)
         || ((currentEyeCount <? newEyeCount)
             && (newLivingGroupsCount =? currentLivingGroupsCount))
      then moveOptions
           ++ [ {| em_point := point;
                   em_createsLife :=
                     currentLivingGroupsCount <? newLivingGroupsCount |} ]
      else moveOptions)
      friendlyLiberties [] in
  (* a stable sort that puts the moves with [createsLife] first *)
  filter em_createsLife eyeCreationMoves
  ++ filter (fun move => negb (em_createsLife move)) eyeCreationMoves.

Definition getEyeCreationMove (board : Board) (player : GoColor)
  (availableSpaces : list PointState) : option EyeMove :=
  hd_error (getEyeCreationMoves board player availableSpaces 99).

Definition getEyeBlockingMove (board : Board) (player : GoColor)
  (availablePoints : list PointState) : option EyeMove :=
  let opposingPlayer := opposite player in
  let opponentEyeMoves :=
    getEyeCreationMoves board opposingPlayer availablePoints 5 in
  let twoEyeMoves := filter em_createsLife opponentEyeMoves in
  let oneEyeMoves :=
    filter (fun move => negb (em_createsLife move)) opponentEyeMoves in
  if lengthZ twoEyeMoves =? 1 then hd_error twoEyeMoves
  else if (lengthZ twoEyeMoves =? 0) && (lengthZ oneEyeMoves =? 1)
  then hd_error oneEyeMoves
  else None.

(** A move of [getLibertyGrowthMoves]: both counts are numbers. *)
Record GrowthMove := mkGrowthMove {
  g_point : PointState;
  g_oldLibertyCount : Z;
  g_newLibertyCount : Z
}.

Definition getLibertyGrowthMoves (board : Board) (player : GoColor)
  (availableSpaces : list PointState) : list GrowthMove :=
  let friendlyChains := filter (headColorIs player) (getAllChains board) in
  if lengthZ friendlyChains =? 0 then []
  else
    let liberties :=
      filter (fun liberty => isAvailable availableSpaces (p_x liberty)
                                         (p_y liberty))
             (allLibertyPoints board friendlyChains) in
    filter (fun move =>
              (1 <? g_newLibertyCount move)
              && (g_oldLibertyCount move <=? g_newLibertyCount move))
      (map (fun move =>
              let newLibertyCount :=
                lengthZ (findEffectiveLibertiesOfNewMove board (p_x move)
                           (p_y move) player) in
              let oldLibertyCount :=
                findMinLibertyCountOfAdjacentChains board (p_x move) (p_y move)
                  player in
              {| g_point := move;
                 g_oldLibertyCount := oldLibertyCount;
                 g_newLibertyCount := newLibertyCount |})
           liberties).

(** [Math.max(...arr)]; [None] stands for [-Infinity]. *)
Definition maxOf (arr : list Z) : option Z :=
  match arr with
  | [] => None
  | a :: l => Some (fold_left Z.max l a)
  end.

Definition gain (l : GrowthMove) : Z :=
  g_newLibertyCount l - g_oldLibertyCount l.

Definition moveOfGrowthMove (l : GrowthMove) : Move :=
  {| m_point := g_point l;
     m_oldLibertyCount := Some (g_oldLibertyCount l);
     m_newLibertyCount := Some (g_newLibertyCount l);
     m_createsLife := None |}.

Definition getGrowthMove (board : Board) (player : GoColor)
  (availableSpaces : list PointState) (rng : Q) : option Move :=
  let growthMoves := getLibertyGrowthMoves board player availableSpaces in
  let maxLibertyCount := maxOf (map gain growthMoves) in
  let moveCandidates :=
    filter (fun l => match maxLibertyCount with
                     | Some m => gain l =? m
                     | None => false
                     end)
           growthMoves in
  option_map moveOfGrowthMove (pick moveCandidates rng).

Definition getExpansionMove (board : Board) (availableSpaces : list PointState)
  (rng : Q) (moveArray : option (list Move)) : option Move :=
  let moveOptions :=
    orElse moveArray (getExpansionMoveArray board availableSpaces) in
  pick moveOptions rng.

Definition getJumpMove (board : Board) (player : GoColor)
  (availableSpaces : list PointState) (rng : Q)
  (moveArray : option (list Move)) : option Move :=
  let moveOptions :=
    filter (fun move =>
      let point := m_point move in
      existsb (fun point => colorIs point (Some player))
        [ pointAt board (p_x point) (p_y point + 2);
          pointAt board (p_x point + 2) (p_y point);
          pointAt board (p_x point) (p_y point - 2);
          pointAt board (p_x point - 2) (p_y point) ])
      (orElse moveArray (getExpansionMoveArray board availableSpaces)) in
  pick moveOptions rng.

Definition getDefendMove (board : Board) (player : GoColor)
  (availableSpaces : list PointState) (rng : Q) : option Move :=
  let growthMoves := getLibertyGrowthMoves board player availableSpaces in
  let libertyIncreases :=
    filter (fun move =>
              (g_oldLibertyCount move <=? 1)
              && (g_oldLibertyCount move <? g_newLibertyCount move))
           growthMoves in
  let maxLibertyCount := maxOf (map gain libertyIncreases) in
  match maxLibertyCount with
  | None => None
  | Some m =>
      if m <? 1 then None
      else
        let moveCandidates :=
          filter (fun l => gain l =? m) libertyIncreases in
        option_map moveOfGrowthMove (pick moveCandidates rng)
  end.

(** [new Set<string>()] with [add] *)
Definition setAddString (s : list string) (a : string) : list string :=
  if existsb (fun b => (b =? a)%string) s then s else s ++ [a].

Definition getSurroundMove (board : Board) (player : GoColor)
  (availableSpaces : list PointState) (smart : bool) : option Move :=
  let opposingPlayer := if GoColor_eqb player black then white else black in
  let enemyChains := filter (headColorIs opposingPlayer) (getAllChains board) in
  if (lengthZ enemyChains =? 0) || (lengthZ availableSpaces =? 0) then None
  else
    let enemyLiberties :=
      filter (fun liberty => isAvailable availableSpaces (p_x liberty)
                                         (p_y liberty))
             (allLibertyPoints board enemyChains) in
    let '(captureMoves, atariMoves, surroundMoves) :=
      fold_left (fun '(captureMoves, atariMoves, surroundMoves) move =>
        let newLibertyCount :=
          lengthZ (findEffectiveLibertiesOfNewMove board (p_x move) (p_y move)
                     player) in
        let weakestEnemyChain :=
          findEnemyNeighborChainWithFewestLiberties board (p_x move) (p_y move)
            (if GoColor_eqb player black then white else black) in
        let weakestEnemyChainLength :=
          orElse (option_map lengthZ weakestEnemyChain) 99 in
        let weakestHead :=
          match weakestEnemyChain with
          | Some c => chainHead c
          | None => None
          end in
        let enemyChainLibertyCount :=
          orElse (match weakestHead with
                  | Some p => libertyCount p
                  | None => None
                  end) 99 in
        let enemyLibertyGroups :=
          fold_left (fun chainIDs point => setAddString chainIDs (p_chain point))
            (orElse (match weakestHead with
                     | Some p => libertyPoints board p
                     | None => None
                     end) [])
            [] in
        let result :=
          {| m_point := move;
             m_oldLibertyCount := Some enemyChainLibertyCount;
             m_newLibertyCount := Some (enemyChainLibertyCount - 1);
             m_createsLife := None |} in
        if (newLibertyCount <=? 2) && (2 <? enemyChainLibertyCount)
        then (captureMoves, atariMoves, surroundMoves)
        else if enemyChainLibertyCount <=? 1
        then (captureMoves ++ [result], atariMoves, surroundMoves)
        else if (enemyChainLibertyCount =? 2)
                && ((2 <=? newLibertyCount)
                    || ((lengthZ enemyLibertyGroups =? 1)
                        && (3 <? weakestEnemyChainLength))
                    || negb smart)
        then (captureMoves, atariMoves ++ [result], surroundMoves)
        else if 2 <=? newLibertyCount
        then (captureMoves, atariMoves, surroundMoves ++ [result])
        else (captureMoves, atariMoves, surroundMoves))
        enemyLiberties ([], [], []) in
    hd_error (captureMoves ++ atariMoves ++ surroundMoves).

Definition findLiveNodesInArea (board : Board) (x1 y1 x2 y2 : Z)
  : list PointState :=
  filter (fun point =>
            (x1 <=? p_x point) && (p_x point <=? x2)
            && (y1 <=? p_y point) && (p_y point <=? y2))
         (somes (List.concat board)).

Definition isCornerAvailableForMove (board : Board) (x1 y1 x2 y2 : Z) : bool :=
  let foundPoints := findLiveNodesInArea board x1 y1 x2 y2 in
  let foundPieces :=
    filter (fun point => negb (GoColor_eqb (p_color point) empty))
           foundPoints in
  if 7 <=? lengthZ foundPoints then lengthZ foundPieces =? 0 else false.

Definition getCornerMove (board : Board) : option PointState :=
  let boardEdge := firstColumnLength board - 1 in
  let cornerMax := boardEdge - 2 in
  if isCornerAvailableForMove board cornerMax cornerMax boardEdge boardEdge
  then pointAt board cornerMax cornerMax
  else if isCornerAvailableForMove board 0 cornerMax 2 boardEdge
  then pointAt board 2 cornerMax
  else if isCornerAvailableForMove board 0 0 2 2
  then pointAt board 2 2
  else if isCornerAvailableForMove board cornerMax 0 boardEdge 2
  then pointAt board cornerMax 2
  else None.

(** ** src/Go/boardAnalysis/goAI.ts: the factions and [getMove] *)

Record MoveOptions := mkMoveOptions {
  eyeMove : unit -> option Move;
  random : unit -> option Move;
  defendCapture : unit -> option Move;
  corner : unit -> option Move;
  defend : unit -> option Move;
  pattern : unit -> option Move;
  capture : unit -> option Move;
  growth : unit -> option Move;
  eyeBlock : unit -> option Move;
  surround : unit -> option Move;
  expansion : unit -> option Move;
  jump : unit -> option Move
}.

Definition moveOfPoint (p : PointState) : Move :=
  {| m_point := p; m_oldLibertyCount := None; m_newLibertyCount := None;
     m_createsLife := None |}.

Definition moveOfEyeMove (m : EyeMove) : Move :=
  {| m_point := em_point m; m_oldLibertyCount := None;
     m_newLibertyCount := None; m_createsLife := Some (em_createsLife m) |}.

(** [n === k] for an optional number [n]. *)
Definition optZ_is (n : option Z) (k : Z) : bool :=
  match n with Some n => n =? k | None => false end.

(** The getters are pure, so the table in which [retrieveMoveOption] keeps
    the moves it already computed does not change what a getter returns:
    [retrieveMoveOption(id)] is the getter [id]. *)
Definition getMoveOptions (boardState : BoardState) (player : GoColor)
  (rng : Q) (smart : bool) : MoveOptions :=
  let board := bs_board boardState in
  let availableSpaces := findDisputedTerritory boardState player smart in
  let contestedPoints := getDisputedTerritoryMoves board availableSpaces 99 in
  let expansionMoves := getExpansionMoveArray board availableSpaces in
  let endGameAvailable :=
    (lengthZ contestedPoints =? 0) && negb (bs_passCount boardState =? 0) in
  let surroundGetter := fun _ : unit =>
    getSurroundMove board player availableSpaces smart in
  let defendGetter := fun _ : unit =>
    getDefendMove board player availableSpaces rng in
  {| capture := fun _ =>
       match surroundGetter tt with
       | Some surroundMove =>
           if optZ_is (m_newLibertyCount surroundMove) 0
           then Some surroundMove else None
       | None => None
       end;
     defendCapture := fun _ =>
       match defendGetter tt with
       | Some defendMove =>
           if optZ_is (m_oldLibertyCount defendMove) 1
              && match m_newLibertyCount defendMove with
                 | Some n => negb (n =? 0) && (1 <? n)
                 | None => false
                 end
           then Some defendMove else None
       | None => None
       end;
     eyeMove := fun _ =>
       if endGameAvailable then None
       else option_map moveOfEyeMove
              (getEyeCreationMove board player availableSpaces);
     eyeBlock := fun _ =>
       if endGameAvailable then None
       else option_map moveOfEyeMove
              (getEyeBlockingMove board player availableSpaces);
     pattern := fun _ =>
       let point :=
         if endGameAvailable then None
         else findAnyMatchedPatterns board player availableSpaces smart rng in
       option_map moveOfPoint point;
     growth := fun _ =>
       if endGameAvailable then None
       else getGrowthMove board player availableSpaces rng;
     expansion := fun _ =>
       getExpansionMove board availableSpaces rng (Some expansionMoves);
     jump := fun _ =>
       getJumpMove board player availableSpaces rng (Some expansionMoves);
     defend := defendGetter;
     surround := surroundGetter;
     corner := fun _ => option_map moveOfPoint (getCornerMove board);
     random := fun _ =>
       let point :=
         if negb (lengthZ contestedPoints =? 0)
         then pick availableSpaces rng else None in
       option_map moveOfPoint point |}.

(** [m?.point ?? null] *)
Definition pointOf (m : option Move) : option PointState :=
  option_map m_point m.

(** [(m.newLibertyCount ?? d) <= k] *)
Definition newLibertyCountAtMost (m : Move) (d k : Z) : bool :=
  orElse (m_newLibertyCount m) d <=? k.

(** [surround && surround.point && (surround.newLibertyCount ?? d) <= k] *)
Definition surroundWithin (surround : option Move) (d k : Z) : bool :=
  match surround with
  | Some s => newLibertyCountAtMost s d k
  | None => false
  end.

Definition getIlluminatiPriorityMove (moves : MoveOptions) (rng : Q)
  : option PointState :=
  if isSome (capture moves tt) then pointOf (capture moves tt)
  else if isSome (defendCapture moves tt) then pointOf (defendCapture moves tt)
  else if isSome (eyeMove moves tt) then pointOf (eyeMove moves tt)
  else
    let surround := surround moves tt in
    if surroundWithin surround 9 1 then pointOf surround
    else if isSome (eyeBlock moves tt) then pointOf (eyeBlock moves tt)
    else if isSome (corner moves tt) then pointOf (corner moves tt)
    else
      let hasMoves :=
        lengthZ (filter (fun m => isSome m)
                   [eyeMove moves tt; eyeBlock moves tt; growth moves tt;
                    defend moves tt; surround]) in
      let usePattern := Qltb (25 # 100) rng || (hasMoves =? 0) in
      if isSome (pattern moves tt) && usePattern
      then pointOf (pattern moves tt)
      else if Qltb (4 # 10) rng && isSome (jump moves tt)
      then pointOf (jump moves tt)
      else if Qltb rng (6 # 10) && surroundWithin surround 9 2
      then pointOf surround
      else None.

Definition getNetburnersPriorityMove (moves : MoveOptions) (rng : Q)
  : option PointState :=
  if Qltb rng (2 # 10) then getIlluminatiPriorityMove moves rng
  else if Qltb rng (4 # 10) && isSome (expansion moves tt)
  then pointOf (expansion moves tt)
  else if Qltb rng (6 # 10) && isSome (growth moves tt)
  then pointOf (growth moves tt)
  else if Qltb rng (75 # 100) then pointOf (random moves tt)
  else None.

Definition getSlumSnakesPriorityMove (moves : MoveOptions) (rng : Q)
  : option PointState :=
  if isSome (defendCapture moves tt) then pointOf (defendCapture moves tt)
  else if Qltb rng (2 # 10) then getIlluminatiPriorityMove moves rng
  else if Qltb rng (6 # 10) && isSome (growth moves tt)
  then pointOf (growth moves tt)
  else if Qltb rng (65 # 100) then pointOf (random moves tt)
  else None.

Definition getBlackHandPriorityMove (moves : MoveOptions) (rng : Q)
  : option PointState :=
  if isSome (capture moves tt) then pointOf (capture moves tt)
  else
    let surround := surround moves tt in
    if surroundWithin surround 999 1 then pointOf surround
    else if isSome (defendCapture moves tt)
    then pointOf (defendCapture moves tt)
    else if surroundWithin surround 999 2 then pointOf surround
    else if Qltb rng (3 # 10) then getIlluminatiPriorityMove moves rng
    else if Qltb rng (75 # 100) && isSome surround then pointOf surround
    else if Qltb rng (8 # 10) then pointOf (random moves tt)
    else None.

Definition getTetradPriorityMove (moves : MoveOptions) (rng : Q)
  : option PointState :=
  if isSome (capture moves tt) then pointOf (capture moves tt)
  else if isSome (defendCapture moves tt) then pointOf (defendCapture moves tt)
  else if isSome (pattern moves tt) then pointOf (pattern moves tt)
  else
    let surround := surround moves tt in
    if surroundWithin surround 9 1 then pointOf surround
    else if Qltb rng (4 # 10) then getIlluminatiPriorityMove moves rng
    else None.

Definition getDaedalusPriorityMove (moves : MoveOptions) (rng : Q)
  : option PointState :=
  if Qltb rng (9 # 10) then getIlluminatiPriorityMove moves rng
  else None.

Definition getFactionMove (moves : MoveOptions) (faction : GoOpponent)
  (rng : Q) : option PointState :=
  if GoOpponent_eqb faction Netburners
  then getNetburnersPriorityMove moves rng
  else if GoOpponent_eqb faction SlumSnakes
  then getSlumSnakesPriorityMove moves rng
  else if GoOpponent_eqb faction TheBlackHand
  then getBlackHandPriorityMove moves rng
  else if GoOpponent_eqb faction Tetrads
  then getTetradPriorityMove moves rng
  else if GoOpponent_eqb faction Daedalus
  then getDaedalusPriorityMove moves rng
  else getIlluminatiPriorityMove moves rng.

(** The truth value of a [GoValidity]: each of them is a string that is not
    empty. *)
Definition truthyValidity (v : GoValidity) : bool := true.

(** [rng n] is the number that the [n]-th call of [rng.random()] returns. *)
Definition getMove (rng : nat -> Q) (boardState : BoardState)
  (player : GoColor) (opponent : GoOpponent) : Play :=
  let smart := isSmart opponent (rng 0%nat) in
  let moves := getMoveOptions boardState player (rng 1%nat) smart in
  let priorityMove := getFactionMove moves opponent (rng 2%nat) in
  match priorityMove with
  | Some priorityMove => PlayMove (p_x priorityMove) (p_y priorityMove)
  | None =>
      let moveOptions :=
        filter (fun point =>
                  truthyValidity
                    (evaluateIfMoveIsValid boardState (p_x point) (p_y point)
                       player false))
          (somes [ pointOf (growth moves tt);
                   pointOf (surround moves tt);
                   pointOf (defend moves tt);
                   pointOf (expansion moves tt);
                   pointOf (pattern moves tt);
                   pointOf (eyeMove moves tt);
                   pointOf (eyeBlock moves tt) ]) in
      let chosenMove := pick moveOptions (rng 3%nat) in
      match chosenMove with
      | Some chosenMove => PlayMove (p_x chosenMove) (p_y chosenMove)
      | None => PlayPass
      end
  end.

Definition boardStateFromSimpleBoard (simpleBoard : SimpleBoard)
  (ai : GoOpponent) : BoardState :=
  let board := boardFromSimpleBoard simpleBoard in
  let board := updateChains board true in
  {| bs_board := board;
     bs_previousPlayer := Some empty;
     bs_previousBoards := [];
     bs_ai := ai;
     bs_passCount := 0;
     bs_cheatCount := 0;
     bs_cheatCountForWhite := 0 |}.

Definition get_move (rng : nat -> Q) (simpleBoard : SimpleBoard)
  (ai : GoOpponent) (player : GoColor) : Play :=
  let bs := boardStateFromSimpleBoard simpleBoard ai in
  getMove rng bs player ai.

(** ** Notions used to state the properties *)

Definition validChar (c : ascii) : bool :=
  Ascii.eqb c "X" || Ascii.eqb c "O" || Ascii.eqb c "." || Ascii.eqb c "#".

(** A well-formed SimpleBoard: as many characters in every column as there
    are columns, all of them among [X], [O], [.] and [#]. *)
Definition wellFormedSimpleBoard (s : SimpleBoard) : bool :=
  forallb (fun column =>
             (String.length column =? List.length s)%nat
             && forallb validChar (list_ascii_of_string column))
          s.

(** A square board of size [n]: [n] columns of [n] cells. *)
Definition squareBoard (n : nat) (b : Board) : Prop :=
  List.length b = n /\ Forall (fun column => List.length column = n) b.

(** The character that [simpleBoardFromBoard] writes for a cell. *)
Definition cellChar (cell : option PointState) : ascii :=
  match cell with
  | None => "#"
  | Some p =>
      if GoColor_eqb (p_color p) black then "X"
      else if GoColor_eqb (p_color p) white then "O"
      else "."
  end.

(** A board of size 3 with a hole, used to instantiate the statements. *)
Definition exampleBoard : Board :=
  updateChains (boardFromSimpleBoard ["X.#"; "O.X"; "..O"]%string) true.

(** The empty 5x5 position of scenario (a). *)
Definition emptyBoard5 : SimpleBoard :=
  ["....."; "....."; "....."; "....."; "....."]%string.

(** A 5x5 position in which the centre point [(2, 2)] has two offline
    neighbours, [(2, 3)] and [(3, 2)], and two White neighbours, [(1, 2)] and
    [(2, 1)]; White played last. *)
Definition cornerTrapBoard : SimpleBoard :=
  ["....."; "..O.."; ".O.#."; "..#.."; "....."]%string.

Definition cornerTrapState : BoardState :=
  {| bs_board := updateChains (boardFromSimpleBoard cornerTrapBoard) true;
     bs_previousPlayer := Some white;
     bs_previousBoards := [];
     bs_ai := Illuminati;
     bs_passCount := 0;
     bs_cheatCount := 0;
     bs_cheatCountForWhite := 0 |}.

(** *** The conditions of the fast path of [evaluateIfMoveIsValid] *)

(** [possibleRepeat]: some earlier board has a stone of [player] at
    [(x, y)]. *)
Definition possibleRepeat (boardState : BoardState) (x y : Z)
  (player : GoColor) : bool :=
  truthyString
    (find (fun board =>
             optColor_eqb (getColorOnBoardString board x y) (Some player))
          (bs_previousBoards boardState)).

(** [hasLiberty]: the point has an empty neighbour. *)
Definition hasLiberty (board : Board) (x y : Z) : bool :=
  let liberties := findAdjacentLibertiesForPoint board x y in
  isSome (north liberties) || isSome (east liberties)
  || isSome (south liberties) || isSome (west liberties).

(** One of the three tests of the fast path that answer [valid] applies. *)
Definition fastPathValid (boardState : BoardState) (x y : Z)
  (player : GoColor) : bool :=
  negb (possibleRepeat boardState x y player)
  && (hasLiberty (bs_board boardState) x y
      || (1 <? findMaxLibertyCountOfAdjacentChains boardState x y player)
      || (findMinLibertyCountOfAdjacentChains (bs_board boardState) x y
            (if GoColor_eqb player black then white else black) <? 2)).

(** The test of the fast path that answers [noSuicide] applies. *)
Definition fastPathSuicide (boardState : BoardState) (x y : Z)
  (player : GoColor) : bool :=
  negb (hasLiberty (bs_board boardState) x y)
  && (2 <=? findMinLibertyCountOfAdjacentChains (bs_board boardState) x y
              (if GoColor_eqb player black then white else black))
  && (findMaxLibertyCountOfAdjacentChains boardState x y player <=? 1).

(** The stone played at [(x, y)] is on the board that [evaluateMoveResult]
    returns: it was not captured. *)
Definition stoneStays (boardState : BoardState) (x y : Z) (player : GoColor)
  : bool :=
  colorIs (pointAt (evaluateMoveResult (bs_board boardState) x y player true)
                   x y)
          (Some player).

(** The superko property in the form: a move on an empty point, after the
    other colour played, whose resulting board is one of the previous boards
    and to which none of the early [valid] answers applies, is answered
    [boardRepeated]. *)
Definition superkoAsStated (boardState : BoardState) (x y : Z)
  (player : GoColor) : Prop :=
  bs_previousPlayer boardState = Some (opposite player) ->
  option_map p_color (pointAt (bs_board boardState) x y) = Some empty ->
  In (boardStringFromBoard
        (evaluateMoveResult (bs_board boardState) x y player true))
     (bs_previousBoards boardState) ->
  fastPathValid boardState x y player = false ->
  evaluateIfMoveIsValid boardState x y player true = boardRepeated.

(** White holds [(0, 1)] and [(1, 0)]; the corner [(0, 0)] is empty.  The
    history holds the current position. *)
Definition suicideCornerBoard : SimpleBoard :=
  [".O..."; "O...."; "....."; "....."; "....."]%string.

Definition suicideCornerState : BoardState :=
  {| bs_board := updateChains (boardFromSimpleBoard suicideCornerBoard) true;
     bs_previousPlayer := Some white;
     bs_previousBoards := [".O...O..................."%string];
     bs_ai := Illuminati;
     bs_passCount := 0;
     bs_cheatCount := 0;
     bs_cheatCountForWhite := 0 |}.

(** A ko: White has just taken a Black stone at [(2, 1)] by playing
    [(1, 1)]; the position before that capture is in the history. *)
Definition koBoard : SimpleBoard :=
  [".X..."; "XOX.."; "O.O.."; ".O..."; "....."]%string.

Definition koState : BoardState :=
  {| bs_board := updateChains (boardFromSimpleBoard koBoard) true;
     bs_previousPlayer := Some white;
     bs_previousBoards := [".X...X.X..OXO...O........"%string];
     bs_ai := Illuminati;
     bs_passCount := 0;
     bs_cheatCount := 0;
     bs_cheatCountForWhite := 0 |}.

(** *** The pattern matcher's verdict and the symmetries of the board *)

(** [matchedPattern] of [findAnyMatchedPatterns], as a truth value: some
    pattern of the expanded catalog matches the neighbourhood of [(x, y)]. *)
Definition patternVerdict (board : Board) (player : GoColor) (x y : Z)
  : bool :=
  isSome (find (fun pattern =>
                  checkMatch (getNeighborhood board x y) pattern player)
               expandAllThreeByThreePatterns).

(** The three generators of the symmetries of a square board: a quarter
    turn, the mirror that reverses the order of the columns and the mirror
    that reverses every column. *)
Inductive Symmetry := QuarterTurn | MirrorColumns | MirrorRows.

(** The cell of the original board that lands on [(u, v)]. *)
Definition sourceCell (g : Symmetry) (n : Z) (u v : Z) : Z * Z :=
  match g with
  | QuarterTurn => (n - 1 - v, u)
  | MirrorColumns => (n - 1 - u, v)
  | MirrorRows => (u, n - 1 - v)
  end.

(** Where the cell [(x, y)] of the original board lands. *)
Definition moveCoordinates (g : Symmetry) (n : Z) (xy : Z * Z) : Z * Z :=
  let '(x, y) := xy in
  match g with
  | QuarterTurn => (y, n - 1 - x)
  | MirrorColumns => (n - 1 - x, y)
  | MirrorRows => (x, n - 1 - y)
  end.

Definition movedTo (u v : Z) (p : PointState) : PointState :=
  {| p_color := p_color p; p_chain := p_chain p;
     p_liberties := p_liberties p; p_x := u; p_y := v |}.

(** The board of size [n] obtained from [b] by the symmetry [g]; a point
    that moves takes the coordinates of its new cell. *)
Definition applySymmetry (g : Symmetry) (n : nat) (b : Board) : Board :=
  map (fun u =>
         map (fun v =>
                let '(i, j) := sourceCell g (Z.of_nat n) u v in
                option_map (movedTo u v) (pointAt b i j))
             (range (Z.of_nat n)))
      (range (Z.of_nat n)).

Definition applySymmetries (gs : list Symmetry) (n : nat) (b : Board)
  : Board :=
  fold_left (fun b g => applySymmetry g n b) gs b.

Definition moveCoordinatesAll (gs : list Symmetry) (n : Z) (xy : Z * Z)
  : Z * Z :=
  fold_left (fun xy g => moveCoordinates g n xy) gs xy.

(** What the matcher reads in a cell. *)
Inductive CellKind := KUndefined | KNull | KColor (c : GoColor).

Definition cellKind (cell : JsCell) : CellKind :=
  match cell with
  | Undefined => KUndefined
  | Null => KNull
  | Pt p => KColor (p_color p)
  end.

(** The patterns of the catalog before [horizontalMirror] is mapped over
    them: the rotations of the 13 patterns and their vertical mirrors. *)
Definition mirroredPatterns : list (list string) :=
  let rotatedPatterns :=
    threeByThreePatterns
    ++ map rotate90Degrees threeByThreePatterns
    ++ map rotate90Degrees (map rotate90Degrees threeByThreePatterns)
    ++ map rotate90Degrees
         (map rotate90Degrees (map rotate90Degrees threeByThreePatterns)) in
  rotatedPatterns ++ map verticalMirror rotatedPatterns.

Definition pattern_eqb (p q : list string) : bool :=
  if list_eq_dec string_dec p q then true else false.

(** Three rows of three characters. *)
Definition threeByThree (p : list string) : bool :=
  match p with
  | [r0; r1; r2] =>
      (String.length r0 =? 3)%nat && (String.length r1 =? 3)%nat
      && (String.length r2 =? 3)%nat
  | _ => false
  end.

(** The mirror that reverses every row of a pattern. *)
Definition reverseRows (p : list string) : list string :=
  map (fun r => string_of_list_ascii (rev (list_ascii_of_string r))) p.

(** The pattern that a symmetry of the board turns [p] into. *)
Definition movePattern (g : Symmetry) (p : list string) : list string :=
  match g with
  | QuarterTurn => rotate90Degrees p
  | MirrorColumns => verticalMirror p
  | MirrorRows => reverseRows p
  end.

(** The nine cells of a neighbourhood after a symmetry, as a rearrangement of
    the nine cells before it. *)
Definition moveCells {A} (g : Symmetry) (l : list A) : list A :=
  match l with
  | [c0; c1; c2; c3; c4; c5; c6; c7; c8] =>
      match g with
      | QuarterTurn => [c6; c3; c0; c7; c4; c1; c8; c5; c2]
      | MirrorColumns => [c6; c7; c8; c3; c4; c5; c0; c1; c2]
      | MirrorRows => [c2; c1; c0; c5; c4; c3; c8; c7; c6]
      end
  | _ => l
  end.

(** The symmetry that undoes [g], as a sequence of generators. *)
Definition undo (g : Symmetry) : list Symmetry :=
  match g with
  | QuarterTurn => [QuarterTurn; QuarterTurn; QuarterTurn]
  | MirrorColumns => [MirrorColumns]
  | MirrorRows => [MirrorRows]
  end.

(** The cells of a board of size [n]. *)
Definition inRange (n u v : Z) : bool :=
  (0 <=? u) && (u <? n) && (0 <=? v) && (v <? n).

(** A position in which patterns match for White, e.g. at [(1, 1)]. *)
Definition patternBoard : Board :=
  updateChains
    (boardFromSimpleBoard ["....."; "..X.."; ".XO.."; "....."; "....."]%string)
    true.

(** *** Chains as connected components *)

(** The colour of the point at a position, if there is a point. *)
Definition colorAt (b : Board) (a : Z * Z) : option GoColor :=
  option_map p_color (pointAt b (fst a) (snd a)).

(** [c] is the northern, eastern, southern or western neighbour of [a]. *)
Definition adjacent (a c : Z * Z) : Prop :=
  (fst c = fst a /\ snd c = snd a + 1)
  \/ (fst c = fst a + 1 /\ snd c = snd a)
  \/ (fst c = fst a /\ snd c = snd a - 1)
  \/ (fst c = fst a - 1 /\ snd c = snd a).

(** One orthogonal step between two points of the same colour. *)
Definition linked (b : Board) (a c : Z * Z) : Prop :=
  adjacent a c
  /\ exists col, colorAt b a = Some col /\ colorAt b c = Some col.

(** Connected by a path of orthogonal same-colour steps; an absent cell has
    no colour and blocks the path. *)
Definition sameChain (b : Board) : Z * Z -> Z * Z -> Prop :=
  clos_refl_trans (Z * Z) (linked b).

(** A valid board: every point carries the coordinates of its cell. *)
Definition wfBoard (b : Board) : Prop :=
  forall x y p, pointAt b x y = Some p -> p_x p = x /\ p_y p = y.

(** [m] is the first element of the list that satisfies [P]. *)
Inductive FirstIn {A} (P : A -> Prop) : list A -> A -> Prop :=
| FirstIn_here (l : list A) (m : A) : P m -> FirstIn P (m :: l) m
| FirstIn_later (l : list A) (m m' : A) :
    ~ P m' -> FirstIn P l m -> FirstIn P (m' :: l) m.

(** The chain id ["x,y"] that [updateChains] builds from a point at
    [(x, y)]. *)
Definition chainId (m : Z * Z) : string :=
  (numberToString (fst m) ++ "," ++ numberToString (snd m))%string.

(** What [updateChains] leaves as it is: which cells hold a point, and the
    colour and the coordinates of the points. *)
Definition stones (b : Board) : list (list (option (GoColor * Z * Z))) :=
  map (map (option_map (fun p => (p_color p, p_x p, p_y p)))) b.

(** *** The invariants of [findAdjacentPointsInChain] *)

Definition keepsStone (f : PointState -> PointState) : Prop :=
  forall p, p_color (f p) = p_color p /\ p_x (f p) = p_x p
            /\ p_y (f p) = p_y p.

(** [m] is the point object that the board holds at the coordinates of
    [m]. *)
Definition onBoard (b : Board) (m : PointState) : Prop :=
  pointAt b (p_x m) (p_y m) = Some m.

(** [m] is a point of the chain of [origin]. *)
Definition chainMember (b : Board) (origin m : PointState) : Prop :=
  onBoard b m /\ p_color m = p_color origin
  /\ sameChain b (refOf origin) (refOf m).

(** Every neighbour of [m] that has the colour of [origin] is in [adj]. *)
Definition closedAt (b : Board) (origin : PointState)
  (adj : list PointState) (m : PointState) : Prop :=
  forall q,
    In q (getArrayFromNeighbor (findNeighbors b (p_x m) (p_y m))) ->
    p_color q = p_color origin -> In q adj.

(** The state of the loop while the neighbours of [cur] are visited;
    [t] counts the points popped so far. *)
Definition visiting (b : Board) (origin cur : PointState) (t : nat)
  (st : list PointState * list PointState * list PointState) : Prop :=
  let '(checked, adj, stack) := st in
  Forall (onBoard b) checked
  /\ Forall (chainMember b origin) adj
  /\ incl stack adj
  /\ incl adj checked
  /\ NoDup adj
  /\ (forall q, In q checked -> p_color q = p_color origin -> In q adj)
  /\ (forall m, In m adj -> In m stack \/ m = cur \/ closedAt b origin adj m)
  /\ In origin adj
  /\ List.length adj = (List.length stack + t)%nat.

(** The state of the loop before a turn. *)
Definition atLoopHead (b : Board) (origin : PointState) (t : nat)
  (st : list PointState * list PointState * list PointState) : Prop :=
  let '(checked, adj, stack) := st in
  Forall (onBoard b) checked
  /\ Forall (chainMember b origin) adj
  /\ incl stack adj
  /\ (forall m, In m adj -> In m checked \/ exists rest, stack = rest ++ [m])
  /\ NoDup adj
  /\ (forall q, In q checked -> p_color q = p_color origin -> In q adj)
  /\ (forall m, In m adj -> In m stack \/ closedAt b origin adj m)
  /\ In origin adj
  /\ List.length adj = (List.length stack + t)%nat.

(** What the loop returns. *)
Definition wholeChain (b : Board) (origin : PointState)
  (adj : list PointState) : Prop :=
  Forall (chainMember b origin) adj
  /\ NoDup adj
  /\ In origin adj
  /\ (forall m, In m adj -> closedAt b origin adj m).

(** The state of [updateChains] after the positions [done] were visited:
    a point connected to one of them carries the id of the first of them it
    is connected to, any other point is not analysed yet. *)
Definition chainsDone (b : Board) (done : list (Z * Z)) (bi : Board) : Prop :=
  stones bi = stones b
  /\ forall a q,
       pointAt bi (fst a) (snd a) = Some q ->
       (exists m, FirstIn (sameChain b a) done m /\ p_chain q = chainId m)
       \/ ((forall m, In m done -> ~ sameChain b a m)
           /\ p_chain q = ""%string).

(** *** Valid boards, decided *)

Definition wfBoardb (b : Board) : bool :=
  forallb (fun ok : bool => ok)
    (List.concat
       (mapi (fun x column =>
                mapi (fun y cell =>
                        match cell with
                        | Some p => (p_x p =? x) && (p_y p =? y)
                        | None => true
                        end)
                     column)
             b)).

(** The point of [exampleBoard] at [(x, y)]. *)
Definition examplePointAt (x y : Z) : PointState :=
  orElse (pointAt exampleBoard x y) (blankPointState empty x y).

(** *** Capture *)

(** The test of [findCapturedChainOfColor]: the first point of the chain has
    the colour [playerColor] and an empty list of liberties. *)
Definition zeroLibertyChain (playerColor : GoColor)
  (chain : list PointState) : bool :=
  match chainHead chain with
  | Some p =>
      GoColor_eqb (p_color p) playerColor
      && match libertyCount p with
         | Some n => n =? 0
         | None => false
         end
  | None => false
  end.

(** The dictionary that [getAllChains] fills. *)
Definition chainGroups (cells : list (option PointState))
  (chains : list (string * list PointState))
  : list (string * list PointState) :=
  fold_left (fun chains point =>
       match point with
       | None => chains
       | Some point =>
           if (p_chain point =? "")%string then chains
           else pushChain chains point
       end)
    cells chains.

(** The dictionary holds the points of [cells] that have a chain id, each
    under its id. *)
Definition groupsOf (cells : list (option PointState))
  (groups : list (string * list PointState)) : Prop :=
  NoDup (map fst groups)
  /\ (forall k c, In (k, c) groups ->
        forall m, In m c -> p_chain m = k /\ In (Some m) cells)
  /\ (forall p, In (Some p) cells -> p_chain p <> ""%string ->
        exists c, In (p_chain p, c) groups /\ In p c).

(** The test that selects the chains [updateCaptures] removes after a move
    of [playerWhoMoved]: the opposing chains without liberties if there is
    one, the chains of [playerWhoMoved] without liberties otherwise. *)
Definition capturedChain (playerWhoMoved : GoColor)
  (chains : list (list PointState)) : list PointState -> bool :=
  if existsb (zeroLibertyChain (opposite playerWhoMoved)) chains
  then zeroLibertyChain (opposite playerWhoMoved)
  else zeroLibertyChain playerWhoMoved.

(** Black has just played [(2, 1)]: the White stone at [(1, 1)] and the
    Black stone at [(2, 1)] are both without liberties. *)
Definition captureBoard : Board :=
  boardFromSimpleBoard
    [".X..."; "XOX.."; "OXO.."; ".O..."; "....."]%string.

(** *** The moves that [getMove] answers *)

(** The point has the coordinates of one of the available spaces. *)
Definition inSpaces (availableSpaces : list PointState) (p : PointState)
  : Prop :=
  isAvailable availableSpaces (p_x p) (p_y p) = true.

(** Every getter of the table answers a point that satisfies [Q]. *)
Definition gettersAnswer (Q : PointState -> Prop) (moves : MoveOptions)
  : Prop :=
  forall getter,
    In getter [eyeMove moves; random moves; defendCapture moves;
               corner moves; defend moves; pattern moves; capture moves;
               growth moves; eyeBlock moves; surround moves;
               expansion moves; jump moves] ->
    forall m, getter tt = Some m -> Q (m_point m).

(** The position of [koState] on a board that was not analysed: no point has
    a chain id or liberties. *)
Definition staleKoState : BoardState :=
  {| bs_board := boardFromSimpleBoard koBoard;
     bs_previousPlayer := Some white;
     bs_previousBoards := [".X...X.X..OXO...O........"%string];
     bs_ai := Illuminati;
     bs_passCount := 0;
     bs_cheatCount := 0;
     bs_cheatCountForWhite := 0 |}.

(** ** Notions used to state further properties *)

(** *** Liberties *)

(** [r] is a liberty of the chain of [a]: an empty point, outside of the
    chain, next to a point of the chain. *)
Definition libertyOf (b : Board) (a r : Z * Z) : Prop :=
  colorAt b r = Some empty
  /\ ~ sameChain b a r
  /\ exists c, sameChain b a c /\ adjacent c r.

(** A stone of colour [col] at [a] whose chain has no liberty on [b]. *)
Definition deadStone (b : Board) (col : GoColor) (a : Z * Z) : Prop :=
  colorAt b a = Some col /\ forall r, ~ libertyOf b a r.

(** The liberties that a point of [bi] carries once it is analysed are the
    liberties of its chain on [b], each listed once. *)
Definition libertiesDone (b bi : Board) : Prop :=
  forall a q,
    pointAt bi (fst a) (snd a) = Some q ->
    p_chain q = ""%string
    \/ exists libs,
         p_liberties q = Some libs /\ NoDup libs
         /\ forall r, In r libs <-> libertyOf b a r.

(** Which cells hold a point, and the coordinates that the points carry. *)
Definition layout (b : Board) : list (list (option Ref)) :=
  map (map (option_map refOf)) b.

(** The point of [captureBoard] at [(x, y)] after the captures that follow
    a move of Black. *)
Definition capturedPointAt (x y : Z) : PointState :=
  orElse (pointAt (updateCaptures captureBoard black true) x y)
         (blankPointState empty x y).

(** The board on which [evaluateMoveResult] runs [updateCaptures]: the stone
    is placed and the chain ids of the point and of its neighbours are
    reset. *)
Definition placeStone (board : Board) (x y : Z) (player : GoColor)
  (point : PointState) : Board :=
  resetChainsById (setPoint (withColor player) board x y)
    (p_chain point
     :: map p_chain (getArrayFromNeighbor (findNeighbors board x y))).

(** The board of [updateCaptures] once the chains to capture were emptied,
    before it is analysed again. *)
Definition capturedBoard (b : Board) (playerWhoMoved : GoColor) : Board :=
  fold_left captureChain
    (filter (capturedChain playerWhoMoved (getAllChains (updateChains b true)))
            (getAllChains (updateChains b true)))
    (updateChains b true).

(** *** Reading a SimpleBoard *)

(** What [boardFromSimpleBoard] takes a character for: anything other than
    [#], [X] and [O] stands for an empty point. *)
Definition readChar (c : ascii) : ascii :=
  if Ascii.eqb c "#" then "#"
  else if Ascii.eqb c "X" then "X"
  else if Ascii.eqb c "O" then "O"
  else ".".

Definition readColumn (column : string) : string :=
  string_of_list_ascii (map readChar (list_ascii_of_string column)).

(** An ASCII character: its code is below 128, so that it is one byte of
    the text and one element of [column.split("")]. *)
Definition asciiChar (c : ascii) : bool :=
  match c with
  | Ascii _ _ _ _ _ _ _ b7 => negb b7
  end.

Definition asciiText (s : SimpleBoard) : bool :=
  forallb (fun column => forallb asciiChar (list_ascii_of_string column)) s.

(** A board without absent cells. *)
Definition fullBoard (b : Board) : bool :=
  forallb (forallb (fun cell : option PointState => isSome cell)) b.

(** Black has just played on a board of size 3, and is asked for a move
    again. *)
Definition turnState : BoardState :=
  {| bs_board :=
       updateChains (boardFromSimpleBoard ["X.."; "..."; "..."]%string) true;
     bs_previousPlayer := Some black;
     bs_previousBoards := [];
     bs_ai := Illuminati;
     bs_passCount := 0;
     bs_cheatCount := 0;
     bs_cheatCountForWhite := 0 |}.

(** A constant random number generator. *)
Definition half : nat -> Q := fun _ => 1 # 2.

(** The point of the board of [koState] at [(x, y)]. *)
Definition koPointAt (x y : Z) : PointState :=
  orElse (pointAt (bs_board koState) x y) (blankPointState empty x y).

(** The Black stone at [(2, 0)] has one liberty, [(3, 0)]. *)
Definition atariBoard : Board :=
  updateChains
    (boardFromSimpleBoard ["....."; "O...."; "XO..."; "....."; "....."]%string)
    true.

(** A Black wall along the first column, which is empty. *)
Definition eyeBoard : Board :=
  updateChains
    (boardFromSimpleBoard ["....."; "XXXXX"; "....."; "....."; "....."]%string)
    true.

(** The answers of the generators at these positions. *)
Definition growthAnswer : Move :=
  orElse (getGrowthMove atariBoard black (getEmptySpaces atariBoard) (1 # 2))
         (moveOfPoint (blankPointState empty 0 0)).

Definition defendAnswer : Move :=
  orElse (getDefendMove atariBoard black (getEmptySpaces atariBoard) (1 # 2))
         (moveOfPoint (blankPointState empty 0 0)).

Definition eyeAnswer : EyeMove :=
  orElse (getEyeCreationMove eyeBoard black (getEmptySpaces eyeBoard))
         {| em_point := blankPointState empty 0 0; em_createsLife := false |}.

(** * Properties *)

(** ** Strings and arrays *)

Lemma append_nil_r (s : string) : (s ++ "")%string = s.
Proof. induction s; simpl; congruence. Qed.

Lemma append_assoc (a b c : string) :
  ((a ++ b) ++ c)%string = (a ++ (b ++ c))%string.
Proof. induction a; simpl; congruence. Qed.

Lemma length_append (a b : string) :
  String.length (a ++ b) = (String.length a + String.length b)%nat.
Proof. induction a; simpl; congruence. Qed.

Lemma get_append_l (a b : string) (n : nat) :
  (n < String.length a)%nat -> String.get n (a ++ b) = String.get n a.
Proof.
  revert n; induction a as [|c a IH]; simpl; intros n Hn; [lia|].
  destruct n; [reflexivity|]. apply IH; lia.
Qed.

Lemma get_append_r (a b : string) (n : nat) :
  String.get (String.length a + n) (a ++ b) = String.get n b.
Proof. induction a; simpl; auto. Qed.

Lemma concat_empty_cons (x : string) (xs : list string) :
  String.concat "" (x :: xs) = (x ++ String.concat "" xs)%string.
Proof.
  destruct xs; simpl; [now rewrite append_nil_r | reflexivity].
Qed.

Lemma length_string_of_list_ascii (l : list ascii) :
  String.length (string_of_list_ascii l) = List.length l.
Proof. induction l; simpl; congruence. Qed.

Lemma get_string_of_list_ascii (l : list ascii) (n : nat) :
  String.get n (string_of_list_ascii l) = nth_error l n.
Proof.
  revert n; induction l; intros [|n]; simpl; auto.
Qed.

Lemma nthZ_nat {A} (l : list A) (n : nat) :
  nthZ l (Z.of_nat n) = nth_error l n.
Proof.
  unfold nthZ. destruct (Z.ltb_spec (Z.of_nat n) 0); [lia|].
  now rewrite Nat2Z.id.
Qed.

(** ** The textual form of a board *)

Lemma columnString_fold (column : list (option PointState)) (acc : string) :
  fold_left (fun str point =>
      match point with
      | None => str ++ "#"
      | Some point =>
          if GoColor_eqb (p_color point) black then str ++ "X"
          else if GoColor_eqb (p_color point) white then str ++ "O"
          else str ++ "."
      end)%string column acc
  = (acc ++ string_of_list_ascii (map cellChar column))%string.
Proof.
  revert acc; induction column as [|cell column IH]; intros acc; simpl.
  - now rewrite append_nil_r.
  - rewrite IH. destruct cell as [p|]; simpl.
    + destruct (GoColor_eqb (p_color p) black);
        [|destruct (GoColor_eqb (p_color p) white)];
        now rewrite append_assoc.
    + now rewrite append_assoc.
Qed.

Lemma simpleBoardFromBoard_columns (b : Board) :
  simpleBoardFromBoard b
  = map (fun column => string_of_list_ascii (map cellChar column)) b.
Proof.
  unfold simpleBoardFromBoard. apply map_ext. intros column.
  now rewrite columnString_fold.
Qed.

(** The column that [boardFromSimpleBoard] builds is written back
    character by character. *)
Lemma column_roundtrip (x i : Z) (l : list ascii) :
  forallb validChar l = true ->
  map cellChar
    (mapi_from (fun y char =>
        if Ascii.eqb char "#" then None
        else if Ascii.eqb char "X" then Some (blankPointState black x y)
        else if Ascii.eqb char "O" then Some (blankPointState white x y)
        else Some (blankPointState empty x y)) i l) = l.
Proof.
  revert i; induction l as [|c l IH]; intros i H; simpl in *; [reflexivity|].
  apply andb_prop in H as [Hc Hl]. rewrite IH by assumption. f_equal.
  unfold validChar in Hc.
  destruct (Ascii.eqb_spec c "#") as [->|]; [reflexivity|].
  destruct (Ascii.eqb_spec c "X") as [->|]; [reflexivity|].
  destruct (Ascii.eqb_spec c "O") as [->|]; [reflexivity|].
  destruct (Ascii.eqb_spec c ".") as [->|]; [reflexivity|].
  discriminate.
Qed.

Lemma simple_roundtrip_from (i : Z) (s : SimpleBoard) :
  forallb (fun column => forallb validChar (list_ascii_of_string column)) s
  = true ->
  map (fun column => string_of_list_ascii (map cellChar column))
      (mapi_from (fun x column =>
         mapi (fun y char =>
           if Ascii.eqb char "#" then None
           else if Ascii.eqb char "X" then Some (blankPointState black x y)
           else if Ascii.eqb char "O" then Some (blankPointState white x y)
           else Some (blankPointState empty x y))
           (list_ascii_of_string column)) i s) = s.
Proof.
  revert i; induction s as [|column s IH]; intros i H; simpl in *;
    [reflexivity|].
  apply andb_prop in H as [Hc Hs]. rewrite IH by assumption. f_equal.
  unfold mapi. rewrite column_roundtrip by assumption.
  apply string_of_list_ascii_of_string.
Qed.

(** C6: for every well-formed SimpleBoard [s] (square, characters among
    X, O, ., #), [simpleBoardFromBoard (boardFromSimpleBoard s)] is [s]. *)
Theorem simpleBoard_roundtrip (s : SimpleBoard) :
  wellFormedSimpleBoard s = true ->
  simpleBoardFromBoard (boardFromSimpleBoard s) = s.
Proof.
  intros H. rewrite simpleBoardFromBoard_columns.
  unfold boardFromSimpleBoard, mapi. apply simple_roundtrip_from.
  unfold wellFormedSimpleBoard in H.
  rewrite forallb_forall in *. intros column Hin.
  specialize (H column Hin). now apply andb_prop in H.
Qed.

Lemma simpleBoard_roundtrip_witness :
  wellFormedSimpleBoard ["X.#"; "O.X"; "..O"]%string = true
  /\ simpleBoardFromBoard (boardFromSimpleBoard ["X.#"; "O.X"; "..O"]%string)
     = ["X.#"; "O.X"; "..O"]%string.
Proof.
  split; [reflexivity|].
  apply (simpleBoard_roundtrip ["X.#"; "O.X"; "..O"]%string). reflexivity.
Defined.

(** ** Reading a colour back from the board string *)

Lemma roundSqrt_square (n : Z) : 0 <= n -> roundSqrt (n * n) = n.
Proof.
  intros Hn. unfold roundSqrt.
  replace (Z.sqrt (n * n)) with n
    by (symmetry; apply Z.sqrt_square; assumption).
  destruct (Z.ltb_spec (n * n + n) (n * n)); [lia | reflexivity].
Qed.

Lemma length_concat_uniform (n : nat) (l : list string) :
  Forall (fun s => String.length s = n) l ->
  String.length (String.concat "" l) = (List.length l * n)%nat.
Proof.
  induction 1 as [|s l Hs Hl IH]; [reflexivity|].
  rewrite concat_empty_cons, length_append, IH, Hs. simpl. reflexivity.
Qed.

Lemma get_concat_uniform (n : nat) (l : list string) (i j : nat) :
  Forall (fun s => String.length s = n) l ->
  (i < List.length l)%nat -> (j < n)%nat ->
  String.get (i * n + j) (String.concat "" l)
  = String.get j (nth i l ""%string).
Proof.
  intros Hall; revert i; induction Hall as [|s l Hs Hl IH]; intros i Hi Hj;
    simpl in Hi; [lia|].
  rewrite concat_empty_cons. destruct i as [|i]; simpl.
  - apply get_append_l. lia.
  - replace (n + i * n + j)%nat with (String.length s + (i * n + j))%nat
      by lia.
    rewrite get_append_r. apply IH; lia.
Qed.

Lemma cellChar_color (cell : option PointState) :
  (if Ascii.eqb (cellChar cell) "X" then Some black
   else if Ascii.eqb (cellChar cell) "O" then Some white
   else if Ascii.eqb (cellChar cell) "." then Some empty
   else None)
  = option_map p_color cell.
Proof.
  destruct cell as [[[] ch li px py]|]; reflexivity.
Qed.

(** C10: on a square board of size [n] and for coordinates in range, the
    colour read from the board string at [(x, y)] is the colour of the point
    [b[x][y]], and [null] when the cell is absent. *)
Theorem getColorOnBoardString_boardStringFromBoard
  (n : nat) (b : Board) (x y : Z) :
  squareBoard n b ->
  0 <= x < Z.of_nat n -> 0 <= y < Z.of_nat n ->
  getColorOnBoardString (boardStringFromBoard b) x y
  = option_map p_color (pointAt b x y).
Proof.
  intros [Hlen Hcols] Hx Hy.
  unfold getColorOnBoardString, boardStringFromBoard.
  rewrite simpleBoardFromBoard_columns.
  set (cols := map (fun column => string_of_list_ascii (map cellChar column)) b).
  assert (Hall : Forall (fun s => String.length s = n) cols).
  { unfold cols. rewrite Forall_map. eapply Forall_impl; [|exact Hcols].
    intros column Hc. simpl.
    now rewrite length_string_of_list_ascii, length_map. }
  assert (Hcl : List.length cols = n)
    by (unfold cols; now rewrite length_map).
  rewrite (length_concat_uniform n) by assumption.
  rewrite Hcl, Nat2Z.inj_mul, roundSqrt_square by lia.
  unfold charAt. destruct (Z.ltb_spec (x * Z.of_nat n + y) 0); [nia|].
  replace (Z.to_nat (x * Z.of_nat n + y))
    with (Z.to_nat x * n + Z.to_nat y)%nat by nia.
  rewrite (get_concat_uniform n) by (assumption || lia).
  unfold pointAt, cellAt, nthZ.
  destruct (Z.ltb_spec x 0); [lia|]. destruct (Z.ltb_spec y 0); [lia|].
  unfold cols.
  destruct (nth_error b (Z.to_nat x)) as [column|] eqn:Hb.
  - rewrite (nth_error_nth _ _ _ (map_nth_error _ _ _ Hb)).
    rewrite get_string_of_list_ascii, nth_error_map.
    assert (Hc : List.length column = n).
    { rewrite Forall_forall in Hcols. apply Hcols.
      eapply nth_error_In; eassumption. }
    destruct (nth_error column (Z.to_nat y)) as [cell|] eqn:Hcell.
    + simpl. rewrite cellChar_color. destruct cell; reflexivity.
    + apply nth_error_None in Hcell. lia.
  - apply nth_error_None in Hb. lia.
Qed.

Lemma getColorOnBoardString_boardStringFromBoard_witness :
  squareBoard 3 exampleBoard /\ (0 <= 0 < 3) /\ (0 <= 2 < 3)
  /\ getColorOnBoardString (boardStringFromBoard exampleBoard) 0 2
     = option_map p_color (pointAt exampleBoard 0 2).
Proof.
  assert (Hsq : squareBoard 3 exampleBoard)
    by (split; [vm_compute; reflexivity | vm_compute; repeat constructor]).
  split; [exact Hsq|]. split; [lia|]. split; [lia|].
  apply (getColorOnBoardString_boardStringFromBoard 3 exampleBoard 0 2 Hsq);
    lia.
Defined.

(** ** [evaluateMoveResult] and the board it is given *)

Module HeapFacts.

Import Heap.

Lemma deref_upd_other (f : Board -> Board) (s : Store) (r r' : BoardRef) :
  r <> r' -> deref (modify f s r') r = deref s r.
Proof.
  unfold deref, modify. revert r r'.
  induction s as [|b s IH]; intros r r' Hne; simpl.
  - reflexivity.
  - destruct r' as [|r']; destruct r as [|r]; simpl; try reflexivity;
      [congruence | apply IH; congruence].
Qed.

Lemma deref_copy_old (s : Store) (b : Board) (r : BoardRef) :
  (r < List.length s)%nat -> deref (s ++ [b]) r = deref s r.
Proof. intros Hr. unfold deref. now apply app_nth1. Qed.

Lemma deref_copy_new (s : Store) (b : Board) :
  deref (s ++ [b]) (List.length s) = b.
Proof. unfold deref. now rewrite nth_middle. Qed.

(** Every board that exists before the call has the same value after it:
    the call only writes to the copy it made. *)
Lemma evaluateMoveResult_frame (s : Store) (board r : BoardRef) (x y : Z)
  (player : GoColor) (resetChains : bool) :
  (r < List.length s)%nat ->
  deref (fst (evaluateMoveResult s board x y player resetChains)) r
  = deref s r.
Proof.
  intros Hr. unfold evaluateMoveResult, getBoardCopy.
  destruct (pointAt _ x y); simpl.
  - rewrite !deref_upd_other by lia. now apply deref_copy_old.
  - now apply deref_copy_old.
Qed.

End HeapFacts.

(** C7: [evaluateMoveResult] leaves the board it is given as it was: after
    the call the input board object holds the same colours, chain ids and
    liberty lists as before. *)
Theorem evaluateMoveResult_input_unchanged
  (s : Heap.Store) (board : Heap.BoardRef) (x y : Z) (player : GoColor)
  (resetChains : bool) :
  (board < List.length s)%nat ->
  Heap.deref (fst (Heap.evaluateMoveResult s board x y player resetChains))
             board
  = Heap.deref s board.
Proof. intros Hb. now apply HeapFacts.evaluateMoveResult_frame. Qed.

Lemma evaluateMoveResult_input_unchanged_witness :
  (0 < List.length [exampleBoard])%nat
  /\ Heap.deref
       (fst (Heap.evaluateMoveResult [exampleBoard] 0%nat 1 1 black false))
       0%nat
     = Heap.deref [exampleBoard] 0%nat.
Proof.
  split; [simpl; lia|].
  apply (evaluateMoveResult_input_unchanged [exampleBoard] 0%nat 1 1 black
           false).
  simpl; lia.
Defined.

(** C9: when [(x, y)] designates an absent cell of the board,
    [evaluateMoveResult] returns the board object it was given (the same
    address, not the copy), and that object is unchanged. *)
Theorem evaluateMoveResult_absent_cell
  (s : Heap.Store) (board : Heap.BoardRef) (x y : Z) (player : GoColor)
  (resetChains : bool) :
  (board < List.length s)%nat ->
  cellAt (Heap.deref s board) x y = Null ->
  snd (Heap.evaluateMoveResult s board x y player resetChains) = board
  /\ Heap.deref
       (fst (Heap.evaluateMoveResult s board x y player resetChains)) board
     = Heap.deref s board.
Proof.
  intros Hb Hnull. split.
  - unfold Heap.evaluateMoveResult, Heap.getBoardCopy.
    rewrite HeapFacts.deref_copy_new. unfold pointAt. now rewrite Hnull.
  - now apply HeapFacts.evaluateMoveResult_frame.
Qed.

Lemma evaluateMoveResult_absent_cell_witness :
  (0 < List.length [exampleBoard])%nat
  /\ cellAt (Heap.deref [exampleBoard] 0%nat) 0 2 = Null
  /\ snd (Heap.evaluateMoveResult [exampleBoard] 0%nat 0 2 black false)
     = 0%nat
  /\ Heap.deref
       (fst (Heap.evaluateMoveResult [exampleBoard] 0%nat 0 2 black false))
       0%nat
     = Heap.deref [exampleBoard] 0%nat.
Proof.
  split; [simpl; lia|]. split; [reflexivity|].
  apply (evaluateMoveResult_absent_cell [exampleBoard] 0%nat 0 2 black false);
    [simpl; lia | reflexivity].
Defined.

(** ** Reading and writing cells *)

Lemma nth_error_upd_nth {A} (f : A -> A) (l : list A) (i j : nat) :
  nth_error (upd_nth f l i) j
  = if Nat.eqb i j then option_map f (nth_error l j) else nth_error l j.
Proof.
  revert i j; induction l as [|a l IH]; intros i j; simpl.
  - destruct j; destruct (Nat.eqb i _); reflexivity.
  - destruct i as [|i], j as [|j]; simpl; try reflexivity. apply IH.
Qed.

Lemma nthZ_updZ {A} (f : A -> A) (l : list A) (i j : Z) :
  nthZ (updZ f l i) j
  = if i =? j then option_map f (nthZ l j) else nthZ l j.
Proof.
  unfold nthZ, updZ.
  destruct (Z.ltb_spec i 0), (Z.ltb_spec j 0), (Z.eqb_spec i j);
    try reflexivity; try lia.
  - rewrite nth_error_upd_nth.
    replace (Nat.eqb (Z.to_nat i) (Z.to_nat j)) with true
      by (symmetry; apply Nat.eqb_eq; lia).
    reflexivity.
  - rewrite nth_error_upd_nth.
    replace (Nat.eqb (Z.to_nat i) (Z.to_nat j)) with false
      by (symmetry; apply Nat.eqb_neq; lia).
    reflexivity.
Qed.

Lemma pointAt_setPoint (f : PointState -> PointState) (b : Board)
  (x y x' y' : Z) :
  pointAt (setPoint f b x y) x' y'
  = if (x =? x') && (y =? y') then option_map f (pointAt b x' y')
    else pointAt b x' y'.
Proof.
  unfold pointAt, cellAt, setPoint. rewrite nthZ_updZ.
  destruct (Z.eqb_spec x x') as [->|Hx]; simpl; [|reflexivity].
  destruct (nthZ b x') as [column|]; simpl;
    [|destruct (y =? y'); reflexivity].
  rewrite nthZ_updZ.
  destruct (Z.eqb_spec y y') as [->|Hy]; [|reflexivity].
  destruct (nthZ column y') as [[p|]|]; reflexivity.
Qed.

Lemma upd_nth_length {A} (f : A -> A) (l : list A) (i : nat) :
  List.length (upd_nth f l i) = List.length l.
Proof.
  revert i; induction l as [|a l IH]; intros [|i]; simpl; auto.
Qed.

Lemma map_upd_nth {A B} (g : A -> B) (f : A -> A) (l : list A) (i : nat) :
  (forall a, g (f a) = g a) -> map g (upd_nth f l i) = map g l.
Proof.
  intros H. revert i; induction l as [|a l IH]; intros [|i]; simpl;
    rewrite ?H, ?IH; reflexivity.
Qed.

Lemma map_updZ {A B} (g : A -> B) (f : A -> A) (l : list A) (i : Z) :
  (forall a, g (f a) = g a) -> map g (updZ f l i) = map g l.
Proof.
  intros H. unfold updZ. destruct (i <? 0); [reflexivity|].
  now apply map_upd_nth.
Qed.

(** ** The stones of a board *)

Lemma stones_setPoint (f : PointState -> PointState) (b : Board) (x y : Z) :
  keepsStone f -> stones (setPoint f b x y) = stones b.
Proof.
  intros Hf. unfold stones, setPoint. apply map_updZ. intros column.
  apply map_updZ. intros [p|]; simpl; [|reflexivity].
  destruct (Hf p) as (-> & -> & ->). reflexivity.
Qed.

Lemma keepsStone_withChain (id : string) (libs : option (list Ref)) :
  keepsStone (withChain id libs).
Proof. intros p. repeat split. Qed.

Lemma stones_clearChains (b : Board) : stones (clearChains b) = stones b.
Proof.
  unfold stones, clearChains. rewrite map_map. apply map_ext. intros column.
  rewrite map_map. apply map_ext. intros [p|]; reflexivity.
Qed.

Lemma stones_fold_setPoint (f : PointState -> PointState)
  (members : list PointState) (b : Board) :
  keepsStone f ->
  stones (fold_left (fun b member => setPoint f b (p_x member) (p_y member))
                    members b)
  = stones b.
Proof.
  intros Hf. revert b. induction members as [|m members IH]; intros b;
    simpl; [reflexivity|].
  rewrite IH. now apply stones_setPoint.
Qed.

Lemma stones_updateChainAt (b : Board) (xy : Z * Z) :
  stones (updateChainAt b xy) = stones b.
Proof.
  unfold updateChainAt. destruct xy as [x y].
  destruct (pointAt b x y) as [p|]; [|reflexivity].
  destruct (negb (p_chain p =? "")%string); [reflexivity|].
  apply stones_fold_setPoint, keepsStone_withChain.
Qed.

Lemma stones_fold_updateChainAt (l : list (Z * Z)) (b : Board) :
  stones (fold_left updateChainAt l b) = stones b.
Proof.
  revert b. induction l as [|xy l IH]; intros b; simpl; [reflexivity|].
  rewrite IH. apply stones_updateChainAt.
Qed.

Lemma stones_updateChains (b : Board) (resetChains : bool) :
  stones (updateChains b resetChains) = stones b.
Proof.
  unfold updateChains. rewrite stones_fold_updateChainAt.
  destruct resetChains; [apply stones_clearChains | reflexivity].
Qed.

(** What the stones determine. *)
Lemma stones_nthZ (b : Board) (x y : Z) :
  match nthZ (stones b) x with
  | Some c => nthZ c y
  | None => None
  end
  = match nthZ b x with
    | Some c => option_map (option_map (fun p => (p_color p, p_x p, p_y p)))
                           (nthZ c y)
    | None => None
    end.
Proof.
  unfold stones, nthZ. destruct (x <? 0); [reflexivity|].
  rewrite nth_error_map. destruct (nth_error b (Z.to_nat x)); simpl;
    [|reflexivity].
  destruct (y <? 0); [reflexivity|]. now rewrite nth_error_map.
Qed.

Lemma stones_pointAt (a b : Board) (x y : Z) :
  stones a = stones b ->
  option_map (fun p => (p_color p, p_x p, p_y p)) (pointAt a x y)
  = option_map (fun p => (p_color p, p_x p, p_y p)) (pointAt b x y).
Proof.
  intros H. pose proof (stones_nthZ a x y) as Ha.
  pose proof (stones_nthZ b x y) as Hb. rewrite H, Hb in Ha.
  unfold pointAt, cellAt.
  destruct (nthZ a x) as [ca|], (nthZ b x) as [cb|]; simpl in *;
    try reflexivity.
  - destruct (nthZ ca y) as [[p|]|], (nthZ cb y) as [[q|]|]; simpl in *;
      congruence.
  - destruct (nthZ ca y) as [[p|]|]; simpl in *; congruence.
  - destruct (nthZ cb y) as [[p|]|]; simpl in *; congruence.
Qed.

Lemma stones_colorAt (a b : Board) (xy : Z * Z) :
  stones a = stones b -> colorAt a xy = colorAt b xy.
Proof.
  intros H. unfold colorAt.
  pose proof (stones_pointAt a b (fst xy) (snd xy) H) as E.
  destruct (pointAt a _ _), (pointAt b _ _); simpl in *; congruence.
Qed.

Lemma stones_wfBoard (a b : Board) :
  stones a = stones b -> wfBoard b -> wfBoard a.
Proof.
  intros H Hwf x y p Hp.
  pose proof (stones_pointAt a b x y H) as E. rewrite Hp in E.
  destruct (pointAt b x y) as [q|] eqn:Hq; simpl in E; [|discriminate].
  destruct (Hwf x y q Hq). split; congruence.
Qed.

Lemma stones_linked (a b : Board) (c d : Z * Z) :
  stones a = stones b -> linked a c d -> linked b c d.
Proof.
  intros H [Hadj (col & Hc & Hd)]. split; [assumption|]. exists col.
  now rewrite <- !(stones_colorAt a b) by assumption.
Qed.

Lemma stones_sameChain (a b : Board) (c d : Z * Z) :
  stones a = stones b -> sameChain a c d <-> sameChain b c d.
Proof.
  intros H. split; intros Hs.
  - induction Hs as [c d Hl| c | c d e _ IH1 _ IH2].
    + apply rt_step. eapply stones_linked; eassumption.
    + apply rt_refl.
    + eapply rt_trans; eassumption.
  - induction Hs as [c d Hl| c | c d e _ IH1 _ IH2].
    + apply rt_step. eapply stones_linked; [symmetry|]; eassumption.
    + apply rt_refl.
    + eapply rt_trans; eassumption.
Qed.

Lemma mapi_from_shape {A B C} (f : Z -> C) (l : list A) (l' : list B)
  (i : Z) :
  List.length l = List.length l' ->
  mapi_from (fun y _ => f y) i l = mapi_from (fun y _ => f y) i l'.
Proof.
  revert l' i. induction l as [|a l IH]; intros [|a' l'] i H; simpl in *;
    try discriminate; [reflexivity|].
  f_equal. apply IH. now injection H.
Qed.

Lemma scanOrder_from_shape (a b : Board) (i : Z) :
  stones a = stones b ->
  mapi_from (fun x (column : list (option PointState)) =>
               mapi (fun y _ => (x, y)) column) i a
  = mapi_from (fun x (column : list (option PointState)) =>
                 mapi (fun y _ => (x, y)) column) i b.
Proof.
  unfold stones. revert b i.
  induction a as [|ca a IH]; intros [|cb b] i H; simpl in *;
    try discriminate; [reflexivity|].
  injection H as Hc H. rewrite (IH b (i + 1) H). f_equal.
  unfold mapi. apply mapi_from_shape.
  apply (f_equal (@List.length _)) in Hc. now rewrite !length_map in Hc.
Qed.

Lemma stones_scanOrder (a b : Board) :
  stones a = stones b -> scanOrder a = scanOrder b.
Proof.
  intros H. unfold scanOrder, mapi at 1 3.
  now rewrite (scanOrder_from_shape a b 0 H).
Qed.

(** ** The flood fill of [findAdjacentPointsInChain] *)

Lemma somes_In {A} (l : list (option A)) (a : A) :
  In a (somes l) <-> In (Some a) l.
Proof.
  induction l as [|[x|] l IH]; simpl; [tauto| |].
  - rewrite IH. split; intros [H|H]; auto; left; congruence.
  - rewrite IH. split; [auto|]. intros [H|H]; [discriminate|assumption].
Qed.

Lemma neighbors_spec (b : Board) (x y : Z) (q : PointState) :
  In q (getArrayFromNeighbor (findNeighbors b x y))
  <-> exists c, adjacent (x, y) c /\ pointAt b (fst c) (snd c) = Some q.
Proof.
  unfold getArrayFromNeighbor, findNeighbors. rewrite somes_In. simpl.
  split.
  - intros [H|[H|[H|[H|[]]]]].
    + exists (x, y + 1). split; [left; auto | auto].
    + exists (x + 1, y). split; [right; left; auto | auto].
    + exists (x, y - 1). split; [right; right; left; auto | auto].
    + exists (x - 1, y). split; [right; right; right; auto | auto].
  - intros ([cx cy] & Hadj & Hq). unfold adjacent in Hadj. simpl in *.
    destruct Hadj as [[-> ->]|[[-> ->]|[[-> ->]|[-> ->]]]]; simpl; auto.
Qed.

Lemma pop_spec {A} (l : list A) :
  match pop l with
  | None => l = []
  | Some (a, r) => l = r ++ [a]
  end.
Proof.
  induction l as [|x l IH]; simpl; [reflexivity|].
  destruct (pop l) as [[a r]|]; subst; reflexivity.
Qed.

Lemma pointAt_In_concat (b : Board) (x y : Z) (p : PointState) :
  pointAt b x y = Some p -> In (Some p) (List.concat b).
Proof.
  unfold pointAt, cellAt, nthZ. intros H.
  destruct (x <? 0); [discriminate|].
  destruct (nth_error b (Z.to_nat x)) as [column|] eqn:Hc; [|discriminate].
  destruct (y <? 0); [discriminate|].
  destruct (nth_error column (Z.to_nat y)) as [[q|]|] eqn:Hq;
    try discriminate.
  injection H as ->. apply in_concat. exists column.
  split; eapply nth_error_In; eassumption.
Qed.

Section FloodFill.

Variable b : Board.
Hypothesis Hwf : wfBoard b.
Variable origin : PointState.
Hypothesis Horigin : onBoard b origin.

Lemma onBoard_samePoint (m m' : PointState) :
  onBoard b m -> onBoard b m' -> samePoint m m' = true -> m = m'.
Proof.
  unfold onBoard, samePoint. intros Hm Hm' H.
  apply andb_prop in H as [Hx Hy]. apply Z.eqb_eq in Hx, Hy.
  rewrite Hx, Hy in Hm. congruence.
Qed.

Lemma contains_onBoard (l : list PointState) (q : PointState) :
  Forall (onBoard b) l -> onBoard b q ->
  contains l q = true <-> In q l.
Proof.
  intros Hl Hq. unfold contains. rewrite existsb_exists. split.
  - intros (m & Hin & Hs). rewrite Forall_forall in Hl.
    now rewrite <- (onBoard_samePoint m q (Hl m Hin) Hq Hs).
  - intros Hin. exists q. split; [assumption|].
    unfold samePoint. now rewrite !Z.eqb_refl.
Qed.

Lemma neighbor_onBoard (m q : PointState) :
  In q (getArrayFromNeighbor (findNeighbors b (p_x m) (p_y m))) ->
  onBoard b q.
Proof.
  intros H. apply neighbors_spec in H as (c & _ & Hq).
  unfold onBoard. destruct (Hwf _ _ _ Hq) as [-> ->]. exact Hq.
Qed.

Lemma neighbor_member (m q : PointState) :
  chainMember b origin m ->
  In q (getArrayFromNeighbor (findNeighbors b (p_x m) (p_y m))) ->
  p_color q = p_color m ->
  chainMember b origin q.
Proof.
  intros (Hm & Hcol & Hs) Hq Hc.
  pose proof (neighbor_onBoard m q Hq) as Hqb.
  apply neighbors_spec in Hq as (c & Hadj & Hpq).
  destruct (Hwf _ _ _ Hpq) as [Hx Hy].
  repeat split; [assumption | congruence |].
  eapply rt_trans; [exact Hs|]. apply rt_step. split.
  - unfold refOf. rewrite Hx, Hy. destruct c; exact Hadj.
  - exists (p_color m). unfold colorAt, refOf. simpl.
    unfold onBoard in Hm, Hqb. rewrite Hm, Hqb. simpl. now rewrite Hc.
Qed.

Lemma closedAt_mono (adj adj' : list PointState) (m : PointState) :
  incl adj adj' -> closedAt b origin adj m -> closedAt b origin adj' m.
Proof. intros Hi Hc q Hq Hcol. apply Hi. now apply Hc. Qed.

(** One neighbour. *)
Lemma visitNeighbor_visiting (cur nb : PointState) (t : nat)
  (st : list PointState * list PointState * list PointState) :
  chainMember b origin cur ->
  In nb (getArrayFromNeighbor (findNeighbors b (p_x cur) (p_y cur))) ->
  visiting b origin cur t st ->
  visiting b origin cur t (visitNeighbor cur st nb)
  /\ incl (snd (fst st)) (snd (fst (visitNeighbor cur st nb)))
  /\ (p_color nb = p_color origin ->
      In nb (snd (fst (visitNeighbor cur st nb)))).
Proof.
  intros Hcur Hnb. destruct st as [[checked adj] stack].
  intros (H1 & H2 & H3 & H4 & H5 & H6 & H7 & H8 & H9).
  pose proof (neighbor_onBoard cur nb Hnb) as Hnbb.
  destruct Hcur as (Hcurb & Hcurc & Hcurs).
  unfold visitNeighbor.
  destruct (GoColor_eqb (p_color nb) (p_color cur)
            && negb (contains checked nb)) eqn:E; simpl.
  - apply andb_prop in E as [Ec En].
    assert (Hc : p_color nb = p_color cur)
      by (destruct (p_color nb), (p_color cur); (reflexivity || discriminate)).
    assert (Hnot : ~ In nb checked).
    { intros Hin. apply (contains_onBoard checked nb H1 Hnbb) in Hin.
      rewrite Hin in En. discriminate. }
    split; [|split].
    + repeat split.
      * apply Forall_app. split; [assumption | now constructor].
      * apply Forall_app. split; [assumption|]. constructor; [|constructor].
        apply (neighbor_member cur nb); [repeat split; assumption | | ];
          assumption.
      * intros m Hm. apply in_app_iff in Hm. apply in_or_app.
        destruct Hm as [Hm|Hm]; [left; now apply H3 | now right].
      * intros m Hm. apply in_app_iff in Hm. apply in_or_app.
        destruct Hm as [Hm|Hm]; [left; now apply H4 | now right].
      * apply NoDup_app; [assumption | repeat constructor; intros [] | ].
        intros m Hm [<-|[]]. apply Hnot. now apply H4.
      * intros q Hq Hqc. apply in_app_iff in Hq. apply in_or_app.
        destruct Hq as [Hq|[<-|[]]]; [left; now apply H6 | right; now left].
      * intros m Hm. apply in_app_iff in Hm.
        destruct Hm as [Hm|[<-|[]]].
        -- destruct (H7 m Hm) as [Hs|[Hs|Hs]].
           ++ left. apply in_or_app. now left.
           ++ right. now left.
           ++ right. right. eapply closedAt_mono; [|exact Hs].
              apply incl_appl, incl_refl.
        -- left. apply in_or_app. right. now left.
      * apply in_or_app. now left.
      * rewrite !length_app. simpl. lia.
    + apply incl_appl, incl_refl.
    + intros _. apply in_or_app. right. now left.
  - split; [|split].
    + repeat split; try assumption.
      * apply Forall_app. split; [assumption | now constructor].
      * intros m Hm. apply in_or_app. left. now apply H4.
      * intros q Hq Hqc. apply in_app_iff in Hq.
        destruct Hq as [Hq|[<-|[]]]; [now apply H6|].
        apply andb_false_iff in E as [E|E].
        -- rewrite Hqc, <- Hcurc in E. now destruct (p_color cur).
        -- apply negb_false_iff in E.
           apply (contains_onBoard checked nb H1 Hnbb) in E. now apply H6.
    + apply incl_refl.
    + intros Hqc. apply andb_false_iff in E as [E|E].
      * rewrite Hqc, <- Hcurc in E. now destruct (p_color cur).
      * apply negb_false_iff in E.
        apply (contains_onBoard checked nb H1 Hnbb) in E. now apply H6.
Qed.

(** All the neighbours in a list. *)
Lemma visitNeighbors_visiting (cur : PointState) (t : nat)
  (ns : list PointState) :
  chainMember b origin cur ->
  incl ns (getArrayFromNeighbor (findNeighbors b (p_x cur) (p_y cur))) ->
  forall st,
  visiting b origin cur t st ->
  visiting b origin cur t (fold_left (visitNeighbor cur) ns st)
  /\ incl (snd (fst st)) (snd (fst (fold_left (visitNeighbor cur) ns st)))
  /\ (forall nb, In nb ns -> p_color nb = p_color origin ->
        In nb (snd (fst (fold_left (visitNeighbor cur) ns st)))).
Proof.
  intros Hcur. induction ns as [|nb ns IH]; intros Hns st Hst; simpl.
  - split; [assumption|]. split; [apply incl_refl | intros ? []].
  - destruct (visitNeighbor_visiting cur nb t st Hcur) as (Hv & Hi & Hn);
      [apply Hns; now left | assumption |].
    destruct (IH (fun q Hq => Hns q (or_intror Hq)) _ Hv) as (Hv' & Hi' & Hn').
    split; [assumption|]. split.
    + eapply incl_tran; eassumption.
    + intros q [<-|Hq] Hc; [apply Hi'; now apply Hn | now apply Hn'].
Qed.

(** One turn of the loop. *)
Lemma turn_atLoopHead (t : nat) (checked adj stack rest : list PointState)
  (cur : PointState) :
  atLoopHead b origin t (checked, adj, stack) ->
  pop stack = Some (cur, rest) ->
  atLoopHead b origin (S t)
    (fold_left (visitNeighbor cur)
       (getArrayFromNeighbor (findNeighbors b (p_x cur) (p_y cur)))
       (checked ++ [cur], adj, rest)).
Proof.
  intros (H1 & H2 & H3 & H4 & H5 & H6 & H7 & H8 & H9) Hpop.
  pose proof (pop_spec stack) as Hs. rewrite Hpop in Hs. subst stack.
  assert (Hcur : chainMember b origin cur).
  { rewrite Forall_forall in H2. apply H2, H3, in_or_app. right. now left. }
  assert (Hv : visiting b origin cur (S t) (checked ++ [cur], adj, rest)).
  { repeat split; try assumption.
    - apply Forall_app. split; [assumption|]. constructor; [|constructor].
      apply Hcur.
    - intros m Hm. apply H3, in_or_app. now left.
    - intros m Hm. apply in_or_app.
      destruct (H4 m Hm) as [Hc|(r & Hr)]; [now left|].
      apply app_inj_tail in Hr as [_ ->]. right. now left.
    - intros q Hq Hc. apply in_app_iff in Hq.
      destruct Hq as [Hq|[<-|[]]]; [now apply H6|].
      apply H3, in_or_app. right. now left.
    - intros m Hm. destruct (H7 m Hm) as [Hs|Hs]; [|now right; right].
      apply in_app_iff in Hs. destruct Hs as [Hs|[<-|[]]];
        [now left | right; now left].
    - rewrite H9, length_app. simpl. lia. }
  destruct (visitNeighbors_visiting cur (S t) _ Hcur (incl_refl _) _ Hv)
    as (Hv' & Hi & Hn).
  destruct (fold_left _ _ _) as [[checked' adj'] stack'].
  destruct Hv' as (V1 & V2 & V3 & V4 & V5 & V6 & V7 & V8 & V9).
  simpl in Hi, Hn.
  repeat split; try assumption.
  - intros m Hm. left. now apply V4.
  - intros m Hm. destruct (V7 m Hm) as [Hs|[->|Hs]];
      [now left | | now right].
    right. intros q Hq Hc. now apply Hn.
Qed.

Lemma members_bounded (adj : list PointState) :
  Forall (onBoard b) adj -> NoDup adj ->
  (List.length adj <= List.length (List.concat b))%nat.
Proof.
  intros Hon Hnd. rewrite <- (length_map (@Some PointState)).
  apply NoDup_incl_length.
  - apply Injective_map_NoDup; [|assumption].
    intros x y H. now injection H.
  - intros o Ho. apply in_map_iff in Ho as (m & <- & Hm).
    rewrite Forall_forall in Hon.
    eapply pointAt_In_concat. exact (Hon m Hm).
Qed.

(** The loop, with enough fuel for the turns that remain. *)
Lemma chainLoop_wholeChain (fuel : nat) :
  forall (t : nat) (checked adj stack : list PointState),
  atLoopHead b origin t (checked, adj, stack) ->
  (List.length (List.concat b) + 1 <= fuel + t)%nat ->
  wholeChain b origin (chainLoop fuel b checked adj stack).
Proof.
  induction fuel as [|fuel IH]; intros t checked adj stack Hh Hf.
  - exfalso. destruct Hh as (H1 & H2 & H3 & H4 & H5 & H6 & H7 & H8 & H9).
    assert (Hb : (List.length adj <= List.length (List.concat b))%nat).
    { apply members_bounded; [|assumption].
      eapply Forall_impl; [|exact H2]. now intros m (Hm & _). }
    lia.
  - simpl. destruct (pop stack) as [[cur rest]|] eqn:Hpop.
    + pose proof (turn_atLoopHead t checked adj stack rest cur Hh Hpop)
        as Hh'.
      destruct (fold_left _ _ _) as [[checked' adj'] stack'].
      apply (IH (S t)); [assumption | lia].
    + pose proof (pop_spec stack) as Hs. rewrite Hpop in Hs. subst stack.
      destruct Hh as (H1 & H2 & H3 & H4 & H5 & H6 & H7 & H8 & H9).
      repeat split; try assumption.
      intros m Hm. destruct (H7 m Hm) as [[]|Hc]. exact Hc.
Qed.

Lemma findAdjacentPointsInChain_wholeChain :
  wholeChain b origin
    (findAdjacentPointsInChain b (p_x origin) (p_y origin)).
Proof.
  unfold findAdjacentPointsInChain. rewrite Horigin.
  apply (chainLoop_wholeChain _ 0).
  - repeat split.
    + constructor.
    + constructor; [|constructor]. repeat split; [assumption|].
      apply rt_refl.
    + apply incl_refl.
    + intros m [<-|[]]. right. now exists [].
    + repeat constructor. intros [].
    + intros q [].
    + intros m [<-|[]]. left. now left.
    + now left.
  - unfold chainFuel. lia.
Qed.

(** A whole chain holds every point connected to the origin. *)
Lemma wholeChain_complete (adj : list PointState) (c : Z * Z) :
  wholeChain b origin adj ->
  sameChain b (refOf origin) c ->
  exists m, In m adj /\ refOf m = c.
Proof.
  intros (H2 & H5 & H8 & Hcl) Hs.
  apply clos_rt_rtn1 in Hs. induction Hs as [|c' c Hl _ IH].
  - now exists origin.
  - destruct IH as (m & Hm & <-).
    destruct Hl as [Hadj (col & Hc1 & Hc2)].
    rewrite Forall_forall in H2. destruct (H2 m Hm) as (Hmb & Hmc & _).
    unfold colorAt in Hc1, Hc2. unfold refOf in Hc1. simpl in Hc1.
    unfold onBoard in Hmb. rewrite Hmb in Hc1. simpl in Hc1.
    destruct (pointAt b (fst c) (snd c)) as [q|] eqn:Hq; [|discriminate].
    simpl in Hc2. exists q.
    destruct (Hwf _ _ _ Hq) as [Hx Hy]. split.
    + apply (Hcl m Hm); [|congruence].
      apply neighbors_spec. exists c. split; [|assumption]. exact Hadj.
    + unfold refOf. rewrite Hx, Hy. now destruct c.
Qed.

End FloodFill.

(** The chain found from a point of a valid board: the points connected to
    it, each of them once. *)
Lemma findAdjacentPointsInChain_spec (b : Board) (x y : Z)
  (origin : PointState) :
  wfBoard b -> pointAt b x y = Some origin ->
  NoDup (findAdjacentPointsInChain b x y)
  /\ forall m, In m (findAdjacentPointsInChain b x y)
               <-> onBoard b m /\ sameChain b (x, y) (refOf m).
Proof.
  intros Hwf Hp. destruct (Hwf _ _ _ Hp) as [Hx Hy].
  assert (Ho : onBoard b origin) by (unfold onBoard; now rewrite Hx, Hy).
  pose proof (findAdjacentPointsInChain_wholeChain b Hwf origin Ho) as Hw.
  rewrite Hx, Hy in Hw. split; [apply Hw|].
  assert (Hr : refOf origin = (x, y)) by (unfold refOf; now rewrite Hx, Hy).
  intros m. split.
  - intros Hm. destruct Hw as (H2 & _). rewrite Forall_forall in H2.
    destruct (H2 m Hm) as (Hmb & _ & Hs). rewrite Hr in Hs. now split.
  - intros [Hmb Hs]. rewrite <- Hr in Hs.
    destruct (wholeChain_complete b Hwf origin _ _ Hw Hs) as (m' & Hm' & Hc).
    destruct Hw as (H2 & _). rewrite Forall_forall in H2.
    destruct (H2 m' Hm') as (Hmb' & _).
    replace m with m'; [assumption|].
    apply (onBoard_samePoint b m' m Hmb' Hmb).
    unfold samePoint. unfold refOf in Hc. injection Hc as -> ->.
    now rewrite !Z.eqb_refl.
Qed.

(** ** Chain ids *)

Lemma uint_no_comma (d : Decimal.uint) :
  ~ In ","%char (list_ascii_of_string (NilEmpty.string_of_uint d)).
Proof.
  induction d; simpl; intros H; try (destruct H as [H|H];
    [discriminate | contradiction]). exact H.
Qed.

Lemma numberToString_no_comma (n : Z) :
  ~ In ","%char (list_ascii_of_string (numberToString n)).
Proof.
  unfold numberToString, NilZero.string_of_int, NilZero.string_of_uint.
  destruct (Z.to_int n) as [d|d]; destruct d eqn:E; simpl;
    intros H; repeat (destruct H as [H|H]; [discriminate|]);
    try contradiction; try (now apply uint_no_comma in H).
Qed.

Lemma numberToString_inj (n n' : Z) :
  numberToString n = numberToString n' -> n = n'.
Proof.
  unfold numberToString. intros H. apply DecimalZ.to_int_inj.
  assert (Hn : forall z, Z.to_int z <> Decimal.Pos Decimal.Nil
                         /\ Z.to_int z <> Decimal.Neg Decimal.Nil).
  { intros [|p|p]; simpl; split; try discriminate;
      intros E; injection E as E;
      now apply DecimalPos.Unsigned.to_uint_nonnil in E. }
  pose proof (NilZero.isi (Z.to_int n) (proj1 (Hn n)) (proj2 (Hn n))) as E.
  pose proof (NilZero.isi (Z.to_int n') (proj1 (Hn n')) (proj2 (Hn n')))
    as E'.
  rewrite H in E. congruence.
Qed.

Lemma list_ascii_append (s t : string) :
  list_ascii_of_string (s ++ t)
  = list_ascii_of_string s ++ list_ascii_of_string t.
Proof. induction s; simpl; congruence. Qed.

Lemma split_at_separator (c : ascii) (s t s' t' : list ascii) :
  ~ In c s -> ~ In c s' -> s ++ c :: t = s' ++ c :: t' ->
  s = s' /\ t = t'.
Proof.
  revert s'. induction s as [|a s IH]; intros [|a' s'] Hs Hs' H;
    simpl in *.
  - injection H as H. now split.
  - injection H as <- _. exfalso. apply Hs'. now left.
  - injection H as -> _. exfalso. apply Hs. now left.
  - injection H as <- H.
    destruct (IH s') as [-> ->]; auto.
Qed.

Lemma list_ascii_inj (s t : string) :
  list_ascii_of_string s = list_ascii_of_string t -> s = t.
Proof.
  intros H. rewrite <- (string_of_list_ascii_of_string s),
              <- (string_of_list_ascii_of_string t). now rewrite H.
Qed.

Lemma chainId_inj (m m' : Z * Z) : chainId m = chainId m' -> m = m'.
Proof.
  unfold chainId. intros H. apply (f_equal list_ascii_of_string) in H.
  rewrite !list_ascii_append in H. simpl in H.
  apply split_at_separator in H as [H1 H2];
    try apply numberToString_no_comma.
  apply list_ascii_inj, numberToString_inj in H1.
  apply list_ascii_inj, numberToString_inj in H2.
  destruct m, m'; simpl in *; congruence.
Qed.

Lemma chainId_nonempty (m : Z * Z) : chainId m <> ""%string.
Proof.
  unfold chainId. intros H. apply (f_equal String.length) in H.
  rewrite !length_append in H. simpl in H. lia.
Qed.

(** ** The first element that satisfies a property *)

Lemma FirstIn_unique {A} (P : A -> Prop) (l : list A) (m m' : A) :
  FirstIn P l m -> FirstIn P l m' -> m = m'.
Proof.
  induction 1 as [l m Hm | l m m0 Hn _ IH]; inversion 1; subst;
    try reflexivity; try contradiction. now apply IH.
Qed.

Lemma FirstIn_holds {A} (P : A -> Prop) (l : list A) (m : A) :
  FirstIn P l m -> P m /\ In m l.
Proof.
  induction 1 as [l m Hm | l m m0 Hn _ [IH1 IH2]];
    (split; [assumption|]); [now left | now right].
Qed.

Lemma FirstIn_ext {A} (P Q : A -> Prop) (l : list A) (m : A) :
  (forall a, P a <-> Q a) -> FirstIn P l m -> FirstIn Q l m.
Proof.
  intros H. induction 1 as [l m Hm | l m m0 Hn _ IH].
  - apply FirstIn_here. now apply H.
  - apply FirstIn_later; [|assumption]. intros Hq. apply Hn. now apply H.
Qed.

Lemma FirstIn_app_old {A} (P : A -> Prop) (l l' : list A) (m : A) :
  FirstIn P l m -> FirstIn P (l ++ l') m.
Proof.
  induction 1 as [l m Hm | l m m0 Hn _ IH]; simpl;
    [now apply FirstIn_here | now apply FirstIn_later].
Qed.

Lemma FirstIn_snoc_new {A} (P : A -> Prop) (l : list A) (m : A) :
  (forall a, In a l -> ~ P a) -> P m -> FirstIn P (l ++ [m]) m.
Proof.
  induction l as [|a l IH]; intros Hn Hm; simpl.
  - now apply FirstIn_here.
  - apply FirstIn_later; [apply Hn; now left|].
    apply IH; [|assumption]. intros a' Ha'. apply Hn. now right.
Qed.

(** ** Connected components *)

Lemma adjacent_sym (a c : Z * Z) : adjacent a c -> adjacent c a.
Proof. unfold adjacent. intros H. lia. Qed.

Lemma linked_sym (b : Board) (a c : Z * Z) : linked b a c -> linked b c a.
Proof.
  intros [Hadj (col & H1 & H2)]. split; [now apply adjacent_sym|].
  now exists col.
Qed.

Lemma sameChain_sym (b : Board) (a c : Z * Z) :
  sameChain b a c -> sameChain b c a.
Proof.
  induction 1 as [a c Hl | a | a c d _ IH1 _ IH2].
  - apply rt_step. now apply linked_sym.
  - apply rt_refl.
  - eapply rt_trans; eassumption.
Qed.

Lemma sameChain_trans (b : Board) (a c d : Z * Z) :
  sameChain b a c -> sameChain b c d -> sameChain b a d.
Proof. intros. eapply rt_trans; eassumption. Qed.

(** Two connected positions are the same position, or hold points of the
    same colour. *)
Lemma sameChain_color (b : Board) (a c : Z * Z) :
  sameChain b a c ->
  a = c \/ exists col, colorAt b a = Some col /\ colorAt b c = Some col.
Proof.
  induction 1 as [a c Hl | a | a c d _ IH1 _ IH2].
  - right. apply Hl.
  - now left.
  - destruct IH1 as [->|(col & H1 & H2)]; [assumption|].
    destruct IH2 as [<-|(col' & H3 & H4)];
      [right; now exists col|].
    right. exists col. split; [assumption | congruence].
Qed.

(** ** [updateChains] *)

Lemma pointAt_map (f : PointState -> PointState) (b : Board) (x y : Z) :
  pointAt (map (map (option_map f)) b) x y = option_map f (pointAt b x y).
Proof.
  unfold pointAt, cellAt, nthZ. destruct (x <? 0); [reflexivity|].
  rewrite nth_error_map. destruct (nth_error b (Z.to_nat x)) as [column|];
    simpl; [|reflexivity].
  destruct (y <? 0); [reflexivity|]. rewrite nth_error_map.
  destruct (nth_error column (Z.to_nat y)) as [[p|]|]; reflexivity.
Qed.

Lemma pointAt_fold_setPoint (f : PointState -> PointState)
  (members : list PointState) (b : Board) (x y : Z) :
  (forall p, f (f p) = f p) ->
  pointAt (fold_left (fun b member => setPoint f b (p_x member) (p_y member))
                     members b) x y
  = if existsb (fun m => (p_x m =? x) && (p_y m =? y)) members
    then option_map f (pointAt b x y)
    else pointAt b x y.
Proof.
  intros Hf. revert b. induction members as [|m members IH]; intros b;
    simpl; [reflexivity|].
  rewrite IH, pointAt_setPoint.
  destruct ((p_x m =? x) && (p_y m =? y)); simpl.
  - destruct (existsb _ members); [|reflexivity].
    destruct (pointAt b x y); simpl; [now rewrite Hf | reflexivity].
  - reflexivity.
Qed.

Lemma mapi_from_In {A B} (f : Z -> A -> B) (i : Z) (l : list A) (n : nat)
  (a : A) :
  nth_error l n = Some a -> In (f (i + Z.of_nat n) a) (mapi_from f i l).
Proof.
  revert i n. induction l as [|x l IH]; intros i [|n] H; simpl in *;
    try discriminate.
  - injection H as ->. left. f_equal. lia.
  - right. replace (i + Z.pos (Pos.of_succ_nat n))
      with ((i + 1) + Z.of_nat n) by lia.
    now apply IH.
Qed.

(** A position that holds a point is visited by the scan. *)
Lemma scanOrder_present (b : Board) (x y : Z) (p : PointState) :
  pointAt b x y = Some p -> In (x, y) (scanOrder b).
Proof.
  unfold pointAt, cellAt, nthZ. intros H.
  destruct (Z.ltb_spec x 0); [discriminate|].
  destruct (nth_error b (Z.to_nat x)) as [column|] eqn:Hc; [|discriminate].
  destruct (Z.ltb_spec y 0); [discriminate|].
  destruct (nth_error column (Z.to_nat y)) as [cell|] eqn:Hq;
    [|discriminate].
  unfold scanOrder. apply in_concat.
  exists (mapi (fun y _ => (x, y)) column). split.
  - unfold mapi.
    pose proof (mapi_from_In
                  (fun x (column : list (option PointState)) =>
                     mapi_from (fun y _ => (x, y)) 0 column)
                  0 b _ _ Hc) as Hin.
    simpl in Hin. now rewrite Z2Nat.id in Hin by lia.
  - unfold mapi.
    pose proof (mapi_from_In (fun y (_ : option PointState) => (x, y))
                  0 column _ _ Hq) as Hin.
    simpl in Hin. now rewrite Z2Nat.id in Hin by lia.
Qed.

Section UpdateChains.

Variable b : Board.
Hypothesis Hwf : wfBoard b.

Lemma chainsDone_keep (done : list (Z * Z)) (bi : Board) (m0 : Z * Z) :
  chainsDone b done bi ->
  (forall a q, pointAt bi (fst a) (snd a) = Some q ->
     (forall m, In m done -> ~ sameChain b a m) -> ~ sameChain b a m0) ->
  chainsDone b (done ++ [m0]) bi.
Proof.
  intros [Hst Hinv] Hnot. split; [assumption|]. intros a q Hq.
  destruct (Hinv a q Hq) as [(m & Hm & Hc)|[Hn Hc]].
  - left. exists m. split; [now apply FirstIn_app_old | assumption].
  - right. split; [|assumption]. intros m Hm. apply in_app_iff in Hm.
    destruct Hm as [Hm|[<-|[]]]; [now apply Hn | now apply (Hnot a q)].
Qed.

Lemma chainsDone_step (done : list (Z * Z)) (bi : Board) (m0 : Z * Z) :
  chainsDone b done bi ->
  chainsDone b (done ++ [m0]) (updateChainAt bi m0).
Proof.
  intros Hd. pose proof Hd as [Hst Hinv].
  assert (Hwfi : wfBoard bi) by (eapply stones_wfBoard; eassumption).
  destruct m0 as [x y]. unfold updateChainAt.
  destruct (pointAt bi x y) as [p|] eqn:Hp.
  - destruct (String.eqb_spec (p_chain p) "") as [Hch|Hch]; simpl.
    + (* a chain starts here *)
      destruct (Hinv (x, y) p Hp) as [(m & _ & Hc)|[Hnone _]];
        [rewrite Hch in Hc; symmetry in Hc;
         now apply chainId_nonempty in Hc|].
      destruct (findAdjacentPointsInChain_spec bi x y p Hwfi Hp)
        as [_ Hmem].
      set (members := findAdjacentPointsInChain bi x y) in *.
      set (libs := Some (map refOf (findLibertiesForChain bi members))).
      destruct (Hwfi _ _ _ Hp) as [Hpx Hpy]. rewrite Hpx, Hpy.
      fold (chainId (x, y)).
      split; [rewrite stones_fold_setPoint;
              [assumption | apply keepsStone_withChain]|].
      intros a q'. rewrite pointAt_fold_setPoint by reflexivity.
      destruct (existsb _ members) eqn:Hex.
      * apply existsb_exists in Hex as (m & Hm & Hxy).
        apply andb_prop in Hxy as [Hx Hy]. apply Z.eqb_eq in Hx, Hy.
        apply Hmem in Hm as [_ Hs].
        assert (Hsa : sameChain b (x, y) a).
        { apply (stones_sameChain bi b) in Hs; [|assumption].
          unfold refOf in Hs. rewrite Hx, Hy in Hs. now destruct a. }
        destruct (pointAt bi (fst a) (snd a)) as [q|]; [|discriminate].
        simpl. intros [= <-]. left. exists (x, y). split; [|reflexivity].
        apply FirstIn_snoc_new; [|now apply sameChain_sym].
        intros m' Hm' Hs'. apply (Hnone m' Hm').
        eapply sameChain_trans; eassumption.
      * intros Hq.
        assert (Hnot : ~ sameChain b a (x, y)).
        { intros Hs. apply sameChain_sym in Hs.
          apply (stones_sameChain bi b) in Hs; [|assumption].
          destruct (Hwfi _ _ _ Hq) as [Hqx Hqy].
          assert (Hin : In q' members).
          { apply Hmem. split; [unfold onBoard; now rewrite Hqx, Hqy|].
            unfold refOf. rewrite Hqx, Hqy. now destruct a. }
          assert (Ht : existsb (fun m => (p_x m =? fst a) && (p_y m =? snd a))
                               members = true).
          { apply existsb_exists. exists q'. split; [assumption|].
            now rewrite Hqx, Hqy, !Z.eqb_refl. }
          congruence. }
        destruct (Hinv a q' Hq) as [(m & Hm & Hc)|[Hn Hc]].
        -- left. exists m. split; [now apply FirstIn_app_old | assumption].
        -- right. split; [|assumption]. intros m Hm.
           apply in_app_iff in Hm.
           destruct Hm as [Hm|[<-|[]]]; [now apply Hn | assumption].
    + (* already analysed *)
      apply chainsDone_keep; [assumption|].
      intros a q Hq Hn Hs.
      destruct (Hinv (x, y) p Hp) as [(m & Hm & _)|[_ Hc]];
        [|contradiction].
      apply FirstIn_holds in Hm as [Hm Hin]. apply (Hn m Hin).
      eapply sameChain_trans; eassumption.
  - (* no point here *)
    apply chainsDone_keep; [assumption|].
    intros a q Hq _ Hs.
    assert (Hc : colorAt bi (x, y) = None)
      by (unfold colorAt; simpl; now rewrite Hp).
    rewrite (stones_colorAt bi b) in Hc by assumption.
    apply sameChain_color in Hs as [->|(col & _ & H2)];
      [simpl in Hq; congruence | congruence].
Qed.

Lemma chainsDone_fold (todo : list (Z * Z)) :
  forall (done : list (Z * Z)) (bi : Board),
  chainsDone b done bi ->
  chainsDone b (done ++ todo) (fold_left updateChainAt todo bi).
Proof.
  induction todo as [|m0 todo IH]; intros done bi Hd; simpl.
  - now rewrite List.app_nil_r.
  - replace (done ++ m0 :: todo) with ((done ++ [m0]) ++ todo)
      by (now rewrite <- app_assoc).
    apply IH. now apply chainsDone_step.
Qed.

Lemma chainsDone_updateChains :
  chainsDone b (scanOrder b) (updateChains b true).
Proof.
  unfold updateChains.
  rewrite (stones_scanOrder (clearChains b) b (stones_clearChains b)).
  apply (chainsDone_fold (scanOrder b) [] (clearChains b)).
  split; [apply stones_clearChains|].
  intros a q Hq. right. split; [intros m []|].
  unfold clearChains in Hq. rewrite pointAt_map in Hq.
  destruct (pointAt b (fst a) (snd a)); [|discriminate].
  now injection Hq as <-.
Qed.

(** After [updateChains] every point carries the id of the first position
    of the scan that it is connected to. *)
Lemma updateChains_first (a : Z * Z) (p : PointState) :
  pointAt (updateChains b true) (fst a) (snd a) = Some p ->
  exists m, FirstIn (sameChain b a) (scanOrder b) m /\ p_chain p = chainId m.
Proof.
  intros Hp. destruct chainsDone_updateChains as [Hst Hinv].
  destruct (Hinv a p Hp) as [H|[Hn _]]; [exact H|].
  exfalso. apply (Hn a); [|apply rt_refl].
  pose proof (stones_pointAt _ _ (fst a) (snd a) Hst) as E.
  rewrite Hp in E. destruct (pointAt b (fst a) (snd a)) as [q|] eqn:Hq;
    [|discriminate].
  destruct a. eapply scanOrder_present. exact Hq.
Qed.

Lemma updateChains_colorAt (a : Z * Z) (p : PointState) :
  pointAt (updateChains b true) (fst a) (snd a) = Some p ->
  colorAt b a = Some (p_color p).
Proof.
  intros Hp. rewrite <- (stones_colorAt (updateChains b true) b)
    by apply stones_updateChains.
  unfold colorAt. now rewrite Hp.
Qed.

End UpdateChains.

(** C5: on a valid board, after [updateChains] two points have the same
    chain id exactly when they have the same colour and are connected by
    orthogonal steps between points of that colour; the id of a point is the
    ["x,y"] of the first position of the column-by-column scan that belongs
    to its chain. *)
Theorem updateChains_connected_components (b : Board) (a c : Z * Z)
  (p q : PointState) :
  wfBoard b ->
  pointAt (updateChains b true) (fst a) (snd a) = Some p ->
  pointAt (updateChains b true) (fst c) (snd c) = Some q ->
  (p_chain p = p_chain q <-> p_color p = p_color q /\ sameChain b a c)
  /\ exists m,
       FirstIn (sameChain b a) (scanOrder b) m /\ p_chain p = chainId m.
Proof.
  intros Hwf Hp Hq.
  destruct (updateChains_first b Hwf a p Hp) as (ma & Hma & Hca).
  destruct (updateChains_first b Hwf c q Hq) as (mc & Hmc & Hcc).
  split; [|now exists ma]. split.
  - intros H. rewrite Hca, Hcc in H. apply chainId_inj in H. subst mc.
    apply FirstIn_holds in Hma as [Hma _].
    apply FirstIn_holds in Hmc as [Hmc _].
    assert (Hs : sameChain b a c).
    { eapply sameChain_trans; [exact Hma | now apply sameChain_sym]. }
    split; [|assumption].
    pose proof (updateChains_colorAt b a p Hp) as Hpa.
    pose proof (updateChains_colorAt b c q Hq) as Hqc.
    apply sameChain_color in Hs as [<-|(col & H1 & H2)]; congruence.
  - intros [_ Hs]. rewrite Hca, Hcc. f_equal.
    apply (FirstIn_unique (sameChain b c) (scanOrder b)); [|assumption].
    eapply FirstIn_ext; [|exact Hma]. intros m. split; intros H.
    + eapply sameChain_trans; [apply sameChain_sym|]; eassumption.
    + eapply sameChain_trans; eassumption.
Qed.

(** ** Valid boards *)

Lemma nth_error_mapi_from {A B} (f : Z -> A -> B) (i : Z) (l : list A)
  (n : nat) :
  nth_error (mapi_from f i l) n
  = option_map (f (i + Z.of_nat n)) (nth_error l n).
Proof.
  revert i n. induction l as [|a l IH]; intros i [|n]; simpl;
    try reflexivity.
  - f_equal. f_equal. lia.
  - rewrite IH. f_equal. f_equal. lia.
Qed.

Lemma wfBoardb_wfBoard (b : Board) : wfBoardb b = true -> wfBoard b.
Proof.
  unfold wfBoardb. rewrite forallb_forall. intros H x y p Hp.
  unfold pointAt, cellAt, nthZ in Hp.
  destruct (Z.ltb_spec x 0); [discriminate|].
  destruct (nth_error b (Z.to_nat x)) as [column|] eqn:Hc; [|discriminate].
  destruct (Z.ltb_spec y 0); [discriminate|].
  destruct (nth_error column (Z.to_nat y)) as [[q|]|] eqn:Hq;
    try discriminate.
  injection Hp as ->.
  assert (Hin : In ((p_x p =? x) && (p_y p =? y))
                   (List.concat
                      (mapi (fun x column =>
                         mapi (fun y (cell : option PointState) =>
                                 match cell with
                                 | Some p => (p_x p =? x) && (p_y p =? y)
                                 | None => true
                                 end)
                              column)
                         b))).
  { apply in_concat. eexists. split.
    - unfold mapi. eapply nth_error_In. rewrite nth_error_mapi_from, Hc.
      simpl. rewrite Z2Nat.id by lia. reflexivity.
    - unfold mapi. eapply nth_error_In. rewrite nth_error_mapi_from, Hq.
      simpl. rewrite Z2Nat.id by lia. reflexivity. }
  apply H in Hin. apply andb_prop in Hin as [Hx Hy].
  apply Z.eqb_eq in Hx, Hy. now split.
Qed.

(** The boards that [boardFromSimpleBoard] builds are valid, and
    [updateChains] keeps them so. *)
Lemma wfBoard_boardFromSimpleBoard (s : SimpleBoard) :
  wfBoard (boardFromSimpleBoard s).
Proof.
  intros x y p Hp. unfold boardFromSimpleBoard, pointAt, cellAt, nthZ in Hp.
  destruct (Z.ltb_spec x 0); [discriminate|].
  unfold mapi in Hp. rewrite nth_error_mapi_from in Hp.
  destruct (nth_error s (Z.to_nat x)) as [column|]; [|discriminate].
  simpl in Hp. destruct (Z.ltb_spec y 0); [discriminate|].
  rewrite nth_error_mapi_from in Hp.
  destruct (nth_error (list_ascii_of_string column) (Z.to_nat y)) as [c|];
    [|discriminate].
  simpl in Hp. rewrite !Z2Nat.id in Hp by lia.
  destruct (Ascii.eqb c "#"); [discriminate|].
  destruct (Ascii.eqb c "X"); [injection Hp as <-; now split|].
  destruct (Ascii.eqb c "O"); injection Hp as <-; now split.
Qed.

Lemma wfBoard_updateChains (b : Board) (resetChains : bool) :
  wfBoard b -> wfBoard (updateChains b resetChains).
Proof. apply stones_wfBoard, stones_updateChains. Qed.

Lemma updateChains_connected_components_witness :
  wfBoard exampleBoard
  /\ pointAt (updateChains exampleBoard true) (fst (1, 1)) (snd (1, 1))
     = Some (examplePointAt 1 1)
  /\ pointAt (updateChains exampleBoard true) (fst (2, 0)) (snd (2, 0))
     = Some (examplePointAt 2 0)
  /\ ((p_chain (examplePointAt 1 1) = p_chain (examplePointAt 2 0)
       <-> p_color (examplePointAt 1 1) = p_color (examplePointAt 2 0)
           /\ sameChain exampleBoard (1, 1) (2, 0))
      /\ exists m,
           FirstIn (sameChain exampleBoard (1, 1)) (scanOrder exampleBoard) m
           /\ p_chain (examplePointAt 1 1) = chainId m).
Proof.
  assert (Hwf : wfBoard exampleBoard)
    by (apply wfBoardb_wfBoard; vm_compute; reflexivity).
  assert (Hp : pointAt (updateChains exampleBoard true) (fst (1, 1))
                       (snd (1, 1)) = Some (examplePointAt 1 1))
    by (vm_compute; reflexivity).
  assert (Hq : pointAt (updateChains exampleBoard true) (fst (2, 0))
                       (snd (2, 0)) = Some (examplePointAt 2 0))
    by (vm_compute; reflexivity).
  split; [exact Hwf|]. split; [exact Hp|]. split; [exact Hq|].
  exact (updateChains_connected_components exampleBoard (1, 1) (2, 0)
           (examplePointAt 1 1) (examplePointAt 2 0) Hwf Hp Hq).
Defined.

(** ** The chains of a board *)

Lemma pushChain_keys (g : list (string * list PointState)) (p : PointState) :
  map fst (pushChain g p)
  = if existsb (fun k => (k =? p_chain p)%string) (map fst g)
    then map fst g else map fst g ++ [p_chain p].
Proof.
  induction g as [|[k c] g IH]; simpl; [reflexivity|].
  destruct (k =? p_chain p)%string; simpl; [reflexivity|].
  rewrite IH. now destruct (existsb _ (map fst g)).
Qed.

Lemma pushChain_In (g : list (string * list PointState)) (p : PointState)
  (k : string) (c : list PointState) :
  In (k, c) (pushChain g p) ->
  In (k, c) g
  \/ (k = p_chain p
      /\ exists c0, c = c0 ++ [p] /\ (c0 = [] \/ In (k, c0) g)).
Proof.
  induction g as [|[k' c'] g IH]; simpl.
  - intros [[= <- <-]|[]]. right. split; [reflexivity|].
    exists []. split; [reflexivity | now left].
  - destruct (String.eqb_spec k' (p_chain p)) as [->|Hne]; simpl.
    + intros [[= <- <-]|H]; [|left; now right].
      right. split; [reflexivity|]. exists c'. split; [reflexivity|].
      right. now left.
    + intros [[= <- <-]|H]; [left; now left|].
      destruct (IH H) as [H'|(-> & c0 & -> & [->|H'])].
      * left. now right.
      * right. split; [reflexivity|]. exists []. split; [reflexivity|].
        now left.
      * right. split; [reflexivity|]. exists c0. split; [reflexivity|].
        right. now right.
Qed.

Lemma pushChain_has (g : list (string * list PointState)) (p : PointState) :
  exists c, In (p_chain p, c) (pushChain g p) /\ In p c.
Proof.
  induction g as [|[k' c'] g IH]; simpl.
  - exists [p]. split; now left.
  - destruct (String.eqb_spec k' (p_chain p)) as [->|Hne].
    + exists (c' ++ [p]). split; [now left|]. apply in_or_app. right.
      now left.
    + destruct IH as (c & Hc & Hp). exists c. split; [now right|assumption].
Qed.

Lemma pushChain_keeps (g : list (string * list PointState))
  (p q : PointState) (k : string) (c : list PointState) :
  In (k, c) g -> In q c ->
  exists c', In (k, c') (pushChain g p) /\ In q c'.
Proof.
  induction g as [|[k' c'] g IH]; simpl; [intros []|].
  intros [[= -> ->]|H] Hq.
  - destruct (k =? p_chain p)%string.
    + exists (c ++ [p]). split; [now left|]. apply in_or_app. now left.
    + exists c. split; [now left | assumption].
  - destruct (IH H Hq) as (c0 & Hc0 & Hq0).
    destruct (k' =? p_chain p)%string.
    + exists c. split; [now right | assumption].
    + exists c0. split; [now right | assumption].
Qed.

Lemma groupsOf_skip (seen : list (option PointState))
  (cell : option PointState) (groups : list (string * list PointState)) :
  (forall p, cell = Some p -> p_chain p = ""%string) ->
  groupsOf seen groups -> groupsOf (seen ++ [cell]) groups.
Proof.
  intros Hcell (Hnd & Hmem & Hall). split; [assumption|]. split.
  - intros k c Hc m Hm. destruct (Hmem k c Hc m Hm) as [H1 H2].
    split; [assumption|]. apply in_or_app. now left.
  - intros q Hq Hqc. apply in_app_iff in Hq.
    destruct Hq as [Hq|[Hq|[]]]; [now apply Hall|].
    now apply Hcell in Hq.
Qed.

Lemma groupsOf_push (seen : list (option PointState)) (p : PointState)
  (groups : list (string * list PointState)) :
  groupsOf seen groups ->
  groupsOf (seen ++ [Some p]) (pushChain groups p).
Proof.
  intros (Hnd & Hmem & Hall). split; [|split].
  - rewrite pushChain_keys.
    destruct (existsb _ (map fst groups)) eqn:E; [assumption|].
    apply NoDup_app; [assumption | repeat constructor; intros [] |].
    intros k Hk [<-|[]].
    assert (Ht : existsb (fun k => (k =? p_chain p)%string)
                         (map fst groups) = true).
    { apply existsb_exists. exists (p_chain p).
      split; [assumption | apply String.eqb_refl]. }
    congruence.
  - intros k c Hc m Hm.
    apply pushChain_In in Hc as [Hc|(-> & c0 & -> & [->|Hc])].
    + destruct (Hmem k c Hc m Hm) as [H1 H2].
      split; [assumption|]. apply in_or_app. now left.
    + destruct Hm as [<-|[]]. split; [reflexivity|].
      apply in_or_app. right. now left.
    + apply in_app_iff in Hm. destruct Hm as [Hm|[<-|[]]].
      * destruct (Hmem _ c0 Hc m Hm) as [H1 H2].
        split; [assumption|]. apply in_or_app. now left.
      * split; [reflexivity|]. apply in_or_app. right. now left.
  - intros q Hq Hqc. apply in_app_iff in Hq.
    destruct Hq as [Hq|[[= <-]|[]]]; [|apply pushChain_has].
    destruct (Hall q Hq Hqc) as (c & Hc & Hin).
    eapply pushChain_keeps; eassumption.
Qed.

Lemma chainGroups_groupsOf (cells : list (option PointState)) :
  forall (seen : list (option PointState))
         (groups : list (string * list PointState)),
  groupsOf seen groups ->
  groupsOf (seen ++ cells) (chainGroups cells groups).
Proof.
  induction cells as [|cell cells IH]; intros seen groups Hg; simpl.
  - now rewrite List.app_nil_r.
  - replace (seen ++ cell :: cells) with ((seen ++ [cell]) ++ cells)
      by (now rewrite <- app_assoc).
    apply IH. destruct cell as [p|].
    + destruct (String.eqb_spec (p_chain p) "") as [He|Hne].
      * apply groupsOf_skip; [|assumption]. now intros q [= <-].
      * now apply groupsOf_push.
    + apply groupsOf_skip; [|assumption]. intros q [=].
Qed.

Lemma getAllChains_groups (b : Board) :
  getAllChains b = map snd (chainGroups (List.concat b) [])
  /\ groupsOf (List.concat b) (chainGroups (List.concat b) []).
Proof.
  split; [reflexivity|].
  apply (chainGroups_groupsOf (List.concat b) [] []).
  split; [constructor|]. split; [intros k c [] | intros p []].
Qed.

Lemma In_concat_pointAt (b : Board) (p : PointState) :
  In (Some p) (List.concat b) -> exists x y, pointAt b x y = Some p.
Proof.
  intros H. apply in_concat in H as (column & Hc & Hp).
  apply In_nth_error in Hc as (i & Hi). apply In_nth_error in Hp as (j & Hj).
  exists (Z.of_nat i), (Z.of_nat j). unfold pointAt, cellAt.
  now rewrite nthZ_nat, Hi, nthZ_nat, Hj.
Qed.

(** The chains of a valid board: their points are on the board, a point is
    in one chain only, and every point that has a chain id is in a chain. *)
Lemma getAllChains_onBoard (b : Board) (c : list PointState)
  (m : PointState) :
  wfBoard b -> In c (getAllChains b) -> In m c -> onBoard b m.
Proof.
  intros Hwf Hc Hm. destruct (getAllChains_groups b) as [E (_ & Hmem & _)].
  rewrite E in Hc. apply in_map_iff in Hc as ([k c'] & <- & Hc). simpl in Hm.
  destruct (Hmem k c' Hc m Hm) as [_ Hin].
  apply In_concat_pointAt in Hin as (x & y & Hp).
  unfold onBoard. destruct (Hwf _ _ _ Hp) as [-> ->]. exact Hp.
Qed.

Lemma getAllChains_disjoint (b : Board) (c c' : list PointState)
  (m : PointState) :
  In c (getAllChains b) -> In c' (getAllChains b) ->
  In m c -> In m c' -> c = c'.
Proof.
  intros Hc Hc' Hm Hm'.
  destruct (getAllChains_groups b) as [E (Hnd & Hmem & _)].
  rewrite E in Hc, Hc'. apply in_map_iff in Hc as ([k d] & <- & Hd).
  apply in_map_iff in Hc' as ([k' d'] & <- & Hd'). simpl in *.
  destruct (Hmem k d Hd m Hm) as [<- _].
  destruct (Hmem k' d' Hd' m Hm') as [<- _].
  clear -Hnd Hd Hd'. induction (chainGroups (List.concat b) [])
    as [|[k0 d0] g IH]; [contradiction|].
  simpl in Hnd. inversion Hnd as [|? ? Hnot Hnd']; subst.
  destruct Hd as [Hd|Hd], Hd' as [Hd'|Hd'].
  - congruence.
  - exfalso. apply Hnot. apply in_map_iff. exists (p_chain m, d').
    split; [simpl; congruence | assumption].
  - exfalso. apply Hnot. apply in_map_iff. exists (p_chain m, d).
    split; [simpl; congruence | assumption].
  - now apply IH.
Qed.

Lemma getAllChains_covers (b : Board) (x y : Z) (p : PointState) :
  pointAt b x y = Some p -> p_chain p <> ""%string ->
  exists c, In c (getAllChains b) /\ In p c.
Proof.
  intros Hp Hne. destruct (getAllChains_groups b) as [E (_ & _ & Hall)].
  rewrite E.
  destruct (Hall p (pointAt_In_concat b x y p Hp) Hne) as (c & Hc & Hin).
  exists c. split; [|assumption]. apply in_map_iff.
  now exists (p_chain p, c).
Qed.

(** ** Capture *)

Lemma fold_captureChain_concat (cs : list (list PointState)) (b : Board) :
  fold_left captureChain cs b
  = fold_left (fun b point => setPoint capturePoint b (p_x point) (p_y point))
              (List.concat cs) b.
Proof.
  revert b. induction cs as [|c cs IH]; intros b; simpl; [reflexivity|].
  now rewrite fold_left_app, IH.
Qed.

Lemma existsb_filter_nil {A} (f : A -> bool) (l : list A) :
  existsb f l = negb (lengthZ (filter f l) =? 0).
Proof.
  unfold lengthZ. induction l as [|a l IH]; simpl; [reflexivity|].
  destruct (f a); simpl; [|assumption].
  destruct (Z.eqb_spec (Z.of_nat (S (List.length (filter f l)))) 0);
    [lia | reflexivity].
Qed.

Lemma filter_nil_existsb {A} (f : A -> bool) (l : list A) :
  existsb f l = false -> filter f l = [].
Proof.
  induction l as [|a l IH]; simpl; [reflexivity|].
  destruct (f a); simpl; [discriminate | assumption].
Qed.

(** The colours after [updateCaptures] are those after the capture of the
    chains that [capturedChain] selects. *)
Lemma updateCaptures_colorAt (b : Board) (playerWhoMoved : GoColor)
  (a : Z * Z) :
  colorAt (updateCaptures b playerWhoMoved true) a
  = colorAt
      (fold_left captureChain
         (filter (capturedChain playerWhoMoved
                    (getAllChains (updateChains b true)))
                 (getAllChains (updateChains b true)))
         (updateChains b true))
      a.
Proof.
  unfold updateCaptures, findAllCapturedChains, capturedChain.
  set (b1 := updateChains b true). set (chains := getAllChains b1).
  change (findCapturedChainOfColor chains (opposite playerWhoMoved))
    with (filter (zeroLibertyChain (opposite playerWhoMoved)) chains).
  change (findCapturedChainOfColor chains playerWhoMoved)
    with (filter (zeroLibertyChain playerWhoMoved) chains).
  rewrite <- !existsb_filter_nil.
  destruct (existsb (zeroLibertyChain (opposite playerWhoMoved)) chains)
    eqn:Eo.
  - rewrite existsb_filter_nil in Eo. apply negb_true_iff in Eo.
    rewrite Eo. apply stones_colorAt, stones_updateChains.
  - destruct (existsb (zeroLibertyChain playerWhoMoved) chains) eqn:Ef.
    + rewrite existsb_filter_nil in Ef. apply negb_true_iff in Ef.
      rewrite Ef. apply stones_colorAt, stones_updateChains.
    + now rewrite (filter_nil_existsb _ _ Ef).
Qed.

Lemma capture_colors (b : Board) (captured : list PointState -> bool)
  (c : list PointState) (m : PointState) :
  wfBoard b -> In c (getAllChains b) -> In m c ->
  colorAt (fold_left captureChain (filter captured (getAllChains b)) b)
          (refOf m)
  = Some (if captured c then empty else p_color m).
Proof.
  intros Hwf Hc Hm.
  pose proof (getAllChains_onBoard b c m Hwf Hc Hm) as Hon.
  unfold colorAt. rewrite fold_captureChain_concat.
  rewrite pointAt_fold_setPoint by reflexivity.
  unfold refOf. simpl. unfold onBoard in Hon. rewrite Hon.
  destruct (captured c) eqn:Ec.
  - replace (existsb _ _) with true; [reflexivity|].
    symmetry. apply existsb_exists. exists m. split.
    + apply in_concat. exists c. split; [|assumption].
      apply filter_In. now split.
    + now rewrite !Z.eqb_refl.
  - replace (existsb _ _) with false; [reflexivity|].
    symmetry. apply not_true_iff_false. intros H.
    apply existsb_exists in H as (m' & Hin & Hxy).
    apply in_concat in Hin as (c' & Hc' & Hm').
    apply filter_In in Hc' as [Hc' Hcap].
    pose proof (getAllChains_onBoard b c' m' Hwf Hc' Hm') as Hon'.
    assert (E : m' = m)
      by (apply (onBoard_samePoint b m' m Hon' Hon); exact Hxy).
    subst m'.
    rewrite (getAllChains_disjoint b c c' m Hc Hc' Hm Hm') in Ec.
    congruence.
Qed.

Lemma zeroLibertyChain_color (col : GoColor) (c : list PointState) :
  zeroLibertyChain col c = true -> headColorIs col c = true.
Proof.
  unfold zeroLibertyChain, headColorIs, colorIs.
  destruct (chainHead c); [|discriminate]. intros H.
  now apply andb_prop in H as [H _].
Qed.

Lemma headColorIs_opposite (col : GoColor) (c : list PointState) :
  headColorIs col c = true -> zeroLibertyChain (opposite col) c = false.
Proof.
  unfold zeroLibertyChain, headColorIs, colorIs.
  destruct (chainHead c) as [p|]; [|reflexivity]. intros H.
  destruct (p_color p), col; try discriminate; reflexivity.
Qed.

(** On [captureBoard] the White stone is taken and the Black stone that has
    no liberty either stays. *)
Example updateCaptures_captureBoard :
  simpleBoardFromBoard (updateCaptures captureBoard black true)
  = [".X..."; "X.X.."; "OXO.."; ".O..."; "....."]%string.
Proof. vm_compute. reflexivity. Qed.

(** ** Superko *)

Lemma evaluateIfMoveIsValid_unfold (bs : BoardState) (x y : Z)
  (player previous : GoColor) (p : PointState) :
  bs_previousPlayer bs = Some previous ->
  GoColor_eqb previous player = false ->
  pointAt (bs_board bs) x y = Some p ->
  p_color p = empty ->
  evaluateIfMoveIsValid bs x y player true
  = if fastPathValid bs x y player then valid
    else if fastPathSuicide bs x y player then noSuicide
    else if negb (stoneStays bs x y player) then noSuicide
    else if possibleRepeat bs x y player
            && negb (lengthZ (bs_previousBoards bs) =? 0)
            && existsb (fun b =>
                 (b =? boardStringFromBoard
                         (evaluateMoveResult (bs_board bs) x y player true))
                 %string)
                 (bs_previousBoards bs)
    then boardRepeated
    else valid.
Proof.
  intros Hprev Hturn Hpt Hcol.
  unfold evaluateIfMoveIsValid, fastPathValid, fastPathSuicide, stoneStays.
  rewrite Hprev, Hturn, Hpt, Hcol. cbn [GoColor_eqb negb].
  fold (possibleRepeat bs x y player). fold (hasLiberty (bs_board bs) x y).
  destruct (possibleRepeat bs x y player); cbn [negb andb];
    [reflexivity|].
  destruct (hasLiberty (bs_board bs) x y); cbn [negb andb orb];
    [reflexivity|].
  destruct (1 <? findMaxLibertyCountOfAdjacentChains bs x y player);
    cbn [negb andb orb]; [reflexivity|].
  destruct (findMinLibertyCountOfAdjacentChains _ x y _ <? 2);
    reflexivity.
Qed.

Lemma opposite_neq (player : GoColor) :
  GoColor_eqb (opposite player) player = false.
Proof. destruct player; reflexivity. Qed.

(** C3 as stated fails: at [suicideCornerState] Black's move at [(0, 0)]
    is a suicide whose resulting board is the current one, which the history
    holds; no early [valid] answer applies, and the answer is [noSuicide]. *)
Lemma superko_as_stated_fails :
  ~ superkoAsStated suicideCornerState 0 0 black.
Proof.
  intros H.
  assert (E : evaluateIfMoveIsValid suicideCornerState 0 0 black true
              = boardRepeated).
  { apply H; [reflexivity | reflexivity | | reflexivity].
    left. vm_compute. reflexivity. }
  vm_compute in E. discriminate E.
Qed.

(** C3, amended: after the other colour played, a move on an empty point
    whose stone stays on the resulting board, whose resulting board is one of
    the previous boards, and to which no early answer of the fast path
    applies ([valid] or [noSuicide]), is answered [boardRepeated]. *)
Theorem superko_board_repeated (bs : BoardState) (x y : Z)
  (player : GoColor) :
  bs_previousPlayer bs = Some (opposite player) ->
  option_map p_color (pointAt (bs_board bs) x y) = Some empty ->
  stoneStays bs x y player = true ->
  In (boardStringFromBoard
        (evaluateMoveResult (bs_board bs) x y player true))
     (bs_previousBoards bs) ->
  fastPathValid bs x y player = false ->
  fastPathSuicide bs x y player = false ->
  evaluateIfMoveIsValid bs x y player true = boardRepeated.
Proof.
  intros Hprev Hpt Hstay Hin Hvalid Hsuicide.
  destruct (pointAt (bs_board bs) x y) as [p|] eqn:Hp; [|discriminate].
  injection Hpt as Hcol.
  rewrite (evaluateIfMoveIsValid_unfold bs x y player (opposite player) p)
    by (assumption || apply opposite_neq).
  rewrite Hvalid, Hsuicide, Hstay. cbn [negb].
  assert (Hrep : possibleRepeat bs x y player = true).
  { destruct (possibleRepeat bs x y player) eqn:Hr; [reflexivity|].
    unfold fastPathValid in Hvalid. unfold fastPathSuicide in Hsuicide.
    rewrite Hr in Hvalid. cbn [negb andb] in Hvalid.
    apply orb_false_elim in Hvalid as [Hv1 Hv3].
    apply orb_false_elim in Hv1 as [Hv1 Hv2].
    rewrite Hv1 in Hsuicide. cbn [negb andb] in Hsuicide.
    apply Z.ltb_ge in Hv2, Hv3.
    apply andb_false_iff in Hsuicide as [Hs|Hs];
      [apply Z.leb_gt in Hs | apply Z.leb_gt in Hs]; lia. }
  rewrite Hrep. cbn [andb].
  assert (Hlen : (lengthZ (bs_previousBoards bs) =? 0) = false).
  { apply Z.eqb_neq. unfold lengthZ.
    destruct (bs_previousBoards bs); [contradiction | simpl; lia]. }
  rewrite Hlen. cbn [negb andb].
  assert (Hex : existsb (fun b =>
                 (b =? boardStringFromBoard
                         (evaluateMoveResult (bs_board bs) x y player true))
                 %string)
                 (bs_previousBoards bs) = true).
  { apply existsb_exists. eexists; split; [exact Hin|].
    apply String.eqb_refl. }
  now rewrite Hex.
Qed.

Lemma superko_board_repeated_witness :
  bs_previousPlayer koState = Some (opposite black)
  /\ option_map p_color (pointAt (bs_board koState) 2 1) = Some empty
  /\ stoneStays koState 2 1 black = true
  /\ In (boardStringFromBoard
           (evaluateMoveResult (bs_board koState) 2 1 black true))
        (bs_previousBoards koState)
  /\ fastPathValid koState 2 1 black = false
  /\ fastPathSuicide koState 2 1 black = false
  /\ evaluateIfMoveIsValid koState 2 1 black true = boardRepeated.
Proof.
  assert (Hin : In (boardStringFromBoard
                      (evaluateMoveResult (bs_board koState) 2 1 black true))
                   (bs_previousBoards koState))
    by (left; vm_compute; reflexivity).
  split; [reflexivity|]. split; [reflexivity|]. split; [reflexivity|].
  split; [exact Hin|]. split; [reflexivity|]. split; [reflexivity|].
  apply (superko_board_repeated koState 2 1 black);
    first [exact Hin | reflexivity].
Defined.

(** The fast-path suicide test has to be excluded as well: on a board that
    carries no chain data it answers [noSuicide] for the ko capture, whose
    stone stays and whose resulting board is in the history. *)
Example superko_stale_board :
  stoneStays staleKoState 2 1 black = true
  /\ In (boardStringFromBoard
           (evaluateMoveResult (bs_board staleKoState) 2 1 black true))
        (bs_previousBoards staleKoState)
  /\ fastPathValid staleKoState 2 1 black = false
  /\ fastPathSuicide staleKoState 2 1 black = true
  /\ evaluateIfMoveIsValid staleKoState 2 1 black true = noSuicide.
Proof.
  split; [vm_compute; reflexivity|].
  split; [left; vm_compute; reflexivity|].
  repeat split; vm_compute; reflexivity.
Qed.

(** ** The pattern matcher and the symmetries of the board *)

Section PatternSymmetry.

Variable player : GoColor.

(** *** The matcher only reads the kind of a cell *)

Lemma matches_kind (c : ascii) (a b : JsCell) :
  cellKind a = cellKind b -> matches c a player = matches c b player.
Proof.
  intros H. unfold matches.
  destruct a as [| |p], b as [| |q]; try discriminate; try reflexivity.
  simpl in H. injection H as H. unfold cellColor. now rewrite H.
Qed.

Lemma everyMatches_kind (chars : list ascii) (l l' : list JsCell) (i : Z) :
  map cellKind l = map cellKind l' ->
  everyMatches chars l i player = everyMatches chars l' i player.
Proof.
  intros H. revert i. induction chars as [|c chars IH]; intros i; simpl;
    [reflexivity|].
  rewrite IH. f_equal. apply matches_kind.
  unfold nthZ. destruct (i <? 0); [reflexivity|].
  assert (E : nth_error (map cellKind l) (Z.to_nat i)
              = nth_error (map cellKind l') (Z.to_nat i)) by now rewrite H.
  rewrite !nth_error_map in E.
  destruct (nth_error l (Z.to_nat i)), (nth_error l' (Z.to_nat i));
    simpl in *; congruence.
Qed.

(** *** Patterns and cells move together *)

Lemma checkMatch_moved (g : Symmetry) (p : list string)
  (nb nb' : list (list JsCell)) :
  threeByThree p = true ->
  List.length (List.concat nb) = 9%nat ->
  map cellKind (List.concat nb')
  = moveCells g (map cellKind (List.concat nb)) ->
  checkMatch nb' (movePattern g p) player = checkMatch nb p player.
Proof.
  intros Hp Hlen Hk.
  destruct p as [|r0 [|r1 [|r2 [|]]]]; try discriminate.
  destruct r0 as [|a0 [|a1 [|a2 [|]]]]; try discriminate.
  destruct r1 as [|b0 [|b1 [|b2 [|]]]]; try discriminate.
  destruct r2 as [|d0 [|d1 [|d2 [|]]]]; try discriminate.
  clear Hp.
  destruct (List.concat nb) as [|k0 [|k1 [|k2 [|k3 [|k4 [|k5 [|k6 [|k7
    [|k8 [|]]]]]]]]]] eqn:Hnb; try discriminate.
  clear Hlen. unfold checkMatch. rewrite Hnb.
  set (moved := moveCells g [k0; k1; k2; k3; k4; k5; k6; k7; k8]).
  rewrite (everyMatches_kind _ (List.concat nb') moved)
    by (rewrite Hk; unfold moved; destruct g; reflexivity).
  unfold moved. destruct g; cbv -[matches];
    repeat match goal with
           | |- context [matches ?c ?k player] =>
               generalize (matches c k player); intro
           end;
    repeat match goal with b : bool |- _ => destruct b end; reflexivity.
Qed.

(** *** The catalog *)

Lemma expand_split :
  expandAllThreeByThreePatterns
  = mirroredPatterns ++ map horizontalMirror mirroredPatterns.
Proof. reflexivity. Qed.

Lemma mirroredPatterns_threeByThree :
  forallb threeByThree mirroredPatterns = true.
Proof. vm_compute. reflexivity. Qed.

(** The rotations and vertical mirrors of the 13 patterns already hold the
    image of each of them under every symmetry. *)
Lemma mirroredPatterns_closed (g : Symmetry) :
  forallb (fun p => existsb (pattern_eqb (movePattern g p)) mirroredPatterns)
          mirroredPatterns = true.
Proof. destruct g; vm_compute; reflexivity. Qed.

Lemma movePattern_in (g : Symmetry) (p : list string) :
  In p mirroredPatterns -> In (movePattern g p) mirroredPatterns.
Proof.
  intros Hin. pose proof (mirroredPatterns_closed g) as H.
  rewrite forallb_forall in H. specialize (H p Hin).
  apply existsb_exists in H as (q & Hq & He).
  unfold pattern_eqb in He.
  destruct (list_eq_dec string_dec (movePattern g p) q);
    [subst; assumption | discriminate].
Qed.

(** The patterns that [horizontalMirror] builds have a comma as second
    character, which matches no cell. *)
Lemma everyMatches_comma (c : ascii) (chars : list ascii)
  (l : list JsCell) :
  everyMatches (c :: ","%char :: chars) l 0 player = false.
Proof. simpl. apply andb_false_r. Qed.

Lemma horizontalMirror_comma :
  forallb (fun p =>
             match list_ascii_of_string
                     (String.concat "" (horizontalMirror p)) with
             | _ :: c :: _ => Ascii.eqb c ","
             | _ => false
             end)
          mirroredPatterns = true.
Proof. vm_compute. reflexivity. Qed.

Lemma horizontalMirror_never_matches (nb : list (list JsCell))
  (p : list string) :
  In p mirroredPatterns -> checkMatch nb (horizontalMirror p) player = false.
Proof.
  intros Hin. pose proof horizontalMirror_comma as H.
  rewrite forallb_forall in H. specialize (H p Hin).
  unfold checkMatch.
  destruct (list_ascii_of_string (String.concat "" (horizontalMirror p)))
    as [|c0 [|c1 chars]]; try discriminate.
  apply Ascii.eqb_eq in H. subst c1. apply everyMatches_comma.
Qed.

(** A pattern of the expanded catalog that matches is one of
    [mirroredPatterns]. *)
Lemma matching_pattern_mirrored (nb : list (list JsCell))
  (p : list string) :
  In p expandAllThreeByThreePatterns ->
  checkMatch nb p player = true ->
  In p mirroredPatterns.
Proof.
  rewrite expand_split, in_app_iff. intros [H|H] Hm; [assumption|].
  apply in_map_iff in H as (q & <- & Hq).
  rewrite horizontalMirror_never_matches in Hm by assumption. discriminate.
Qed.

End PatternSymmetry.

(** *** Cells of a square board and of its images *)

Lemma nthZ_map_range {A} (f : Z -> A) (n : nat) (u : Z) :
  nthZ (map f (range (Z.of_nat n))) u
  = if (0 <=? u) && (u <? Z.of_nat n) then Some (f u) else None.
Proof.
  unfold nthZ, range. rewrite Nat2Z.id.
  destruct (Z.ltb_spec u 0); [destruct (Z.leb_spec 0 u); [lia|reflexivity]|].
  destruct (Z.leb_spec 0 u); [|lia]. simpl.
  rewrite !nth_error_map.
  destruct (Z.ltb_spec u (Z.of_nat n)).
  - rewrite (nth_error_nth' _ 0%nat) by (rewrite length_seq; lia).
    rewrite seq_nth by lia. simpl. now rewrite Z2Nat.id by lia.
  - replace (nth_error (seq 0 n) (Z.to_nat u)) with (@None nat);
      [reflexivity|].
    symmetry. apply nth_error_None. rewrite length_seq. lia.
Qed.

Lemma cellAt_applySymmetry (g : Symmetry) (n : nat) (b : Board) (u v : Z) :
  cellAt (applySymmetry g n b) u v
  = if inRange (Z.of_nat n) u v
    then match pointAt b (fst (sourceCell g (Z.of_nat n) u v))
                         (snd (sourceCell g (Z.of_nat n) u v)) with
         | Some p => Pt (movedTo u v p)
         | None => Null
         end
    else Undefined.
Proof.
  unfold cellAt at 1, applySymmetry, inRange. rewrite nthZ_map_range.
  destruct (0 <=? u); [|reflexivity].
  destruct (u <? Z.of_nat n); [|reflexivity].
  cbn [andb]. rewrite nthZ_map_range.
  destruct (0 <=? v); [|reflexivity].
  destruct (v <? Z.of_nat n); [|reflexivity].
  cbn [andb].
  destruct (sourceCell g (Z.of_nat n) u v) as [i j]. simpl.
  destruct (pointAt b i j); reflexivity.
Qed.

Lemma nthZ_Some_range {A} (l : list A) (i : Z) :
  isSome (nthZ l i) = (0 <=? i) && (i <? lengthZ l).
Proof.
  unfold nthZ, lengthZ.
  destruct (Z.ltb_spec i 0); [destruct (Z.leb_spec 0 i); [lia|reflexivity]|].
  destruct (Z.leb_spec 0 i); [|lia]. simpl.
  destruct (nth_error l (Z.to_nat i)) eqn:E; simpl.
  - assert (Z.to_nat i < List.length l)%nat
      by (apply nth_error_Some; congruence).
    symmetry. apply Z.ltb_lt. lia.
  - apply nth_error_None in E. symmetry. apply Z.ltb_ge. lia.
Qed.

Lemma cellAt_square_range (n : nat) (b : Board) (i j : Z) :
  squareBoard n b ->
  match cellAt b i j with
  | Undefined => inRange (Z.of_nat n) i j = false
  | _ => inRange (Z.of_nat n) i j = true
  end.
Proof.
  intros [Hlen Hcols]. unfold cellAt, inRange.
  pose proof (nthZ_Some_range b i) as Hi. unfold lengthZ in Hi.
  rewrite Hlen in Hi.
  destruct (nthZ b i) as [column|] eqn:Eb; simpl in Hi.
  - rewrite <- Hi. simpl.
    assert (Hc : List.length column = n).
    { rewrite Forall_forall in Hcols. apply Hcols.
      unfold nthZ in Eb. destruct (i <? 0); [discriminate|].
      eapply nth_error_In; eassumption. }
    pose proof (nthZ_Some_range column j) as Hj. unfold lengthZ in Hj.
    rewrite Hc in Hj.
    destruct (nthZ column j) as [[p|]|]; simpl in Hj; now rewrite <- Hj.
  - now rewrite <- Hi.
Qed.

Lemma sourceCell_inRange (g : Symmetry) (n u v : Z) :
  inRange n (fst (sourceCell g n u v)) (snd (sourceCell g n u v))
  = inRange n u v.
Proof.
  unfold inRange. destruct g; simpl;
    repeat match goal with
           | |- context [?a <=? ?b] => destruct (Z.leb_spec a b)
           | |- context [?a <? ?b] => destruct (Z.ltb_spec a b)
           end; simpl; try reflexivity; lia.
Qed.

(** A cell of the image is of the kind of its source. *)
Lemma cellKind_applySymmetry (g : Symmetry) (n : nat) (b : Board) (u v : Z) :
  squareBoard n b ->
  cellKind (cellAt (applySymmetry g n b) u v)
  = cellKind (cellAt b (fst (sourceCell g (Z.of_nat n) u v))
                       (snd (sourceCell g (Z.of_nat n) u v))).
Proof.
  intros Hsq. rewrite cellAt_applySymmetry.
  pose proof (cellAt_square_range n b
                (fst (sourceCell g (Z.of_nat n) u v))
                (snd (sourceCell g (Z.of_nat n) u v)) Hsq) as H.
  rewrite sourceCell_inRange in H. unfold pointAt.
  destruct (cellAt b _ _); rewrite H; reflexivity.
Qed.

Lemma applySymmetry_square (g : Symmetry) (n : nat) (b : Board) :
  squareBoard n (applySymmetry g n b).
Proof.
  unfold squareBoard, applySymmetry, range. rewrite Nat2Z.id. split.
  - now rewrite !length_map, length_seq.
  - rewrite Forall_map. apply Forall_forall. intros u _.
    now rewrite !length_map, length_seq.
Qed.

Lemma cellAt_eq (b : Board) (i j i' j' : Z) :
  i = i' -> j = j' -> cellAt b i j = cellAt b i' j'.
Proof. now intros -> ->. Qed.

(** The neighbourhood of the moved point in the image of the board is the
    neighbourhood of the point, rearranged. *)
Lemma neighborhood_moved (g : Symmetry) (n : nat) (b : Board) (x y : Z) :
  squareBoard n b ->
  map cellKind
    (List.concat
       (getNeighborhood (applySymmetry g n b)
          (fst (moveCoordinates g (Z.of_nat n) (x, y)))
          (snd (moveCoordinates g (Z.of_nat n) (x, y)))))
  = moveCells g (map cellKind (List.concat (getNeighborhood b x y))).
Proof.
  intros Hsq. unfold getNeighborhood.
  cbn [List.concat app map moveCells].
  rewrite !(cellKind_applySymmetry g n b) by assumption.
  destruct g; cbn [moveCoordinates sourceCell fst snd moveCells];
    repeat (f_equal; try (apply cellAt_eq; lia)).
Qed.

Lemma map_moveCells {A B} (f : A -> B) (g : Symmetry) (l : list A) :
  map f (moveCells g l) = moveCells g (map f l).
Proof.
  destruct l as [|c0 [|c1 [|c2 [|c3 [|c4 [|c5 [|c6 [|c7 [|c8 [|]]]]]]]]]];
    try reflexivity; destruct g; reflexivity.
Qed.

Lemma moveCells_length {A} (g : Symmetry) (l : list A) :
  List.length (moveCells g l) = List.length l.
Proof.
  destruct l as [|c0 [|c1 [|c2 [|c3 [|c4 [|c5 [|c6 [|c7 [|c8 [|]]]]]]]]]];
    try reflexivity; destruct g; reflexivity.
Qed.

Lemma moveCells_undo {A} (g : Symmetry) (l : list A) :
  fold_left (fun l g => moveCells g l) (undo g) (moveCells g l) = l.
Proof.
  destruct l as [|c0 [|c1 [|c2 [|c3 [|c4 [|c5 [|c6 [|c7 [|c8 [|]]]]]]]]]];
    try (destruct g; reflexivity).
Qed.

Section VerdictSymmetry.

Variable player : GoColor.

Lemma mirrored_threeByThree (p : list string) :
  In p mirroredPatterns -> threeByThree p = true.
Proof.
  intros Hin. pose proof mirroredPatterns_threeByThree as H.
  rewrite forallb_forall in H. now apply H.
Qed.

Lemma mirrored_in_expanded (p : list string) :
  In p mirroredPatterns -> In p expandAllThreeByThreePatterns.
Proof. intros H. rewrite expand_split. apply in_or_app. now left. Qed.

(** A matching pattern moves to a matching pattern, for cells rearranged
    by a sequence of generators. *)
Lemma match_moves_along (gs : list Symmetry) :
  forall (cells cells' : list JsCell) (p : list string),
  List.length cells = 9%nat ->
  map cellKind cells'
  = fold_left (fun l g => moveCells g l) gs (map cellKind cells) ->
  In p mirroredPatterns ->
  checkMatch [cells] p player = true ->
  exists q, In q mirroredPatterns /\ checkMatch [cells'] q player = true.
Proof.
  induction gs as [|g gs IH]; intros cells cells' p Hlen Hk Hin Hm.
  - exists p. split; [assumption|]. rewrite <- Hm.
    unfold checkMatch. simpl. rewrite !List.app_nil_r.
    apply everyMatches_kind. exact Hk.
  - simpl in Hk.
    apply (IH (moveCells g cells) cells' (movePattern g p)).
    + now rewrite moveCells_length.
    + now rewrite map_moveCells.
    + now apply movePattern_in.
    + rewrite <- Hm. apply checkMatch_moved.
      * now apply mirrored_threeByThree.
      * simpl. now rewrite List.app_nil_r.
      * simpl. rewrite !List.app_nil_r. apply map_moveCells.
Qed.

Lemma checkMatch_concat (nb : list (list JsCell)) (p : list string) :
  checkMatch [List.concat nb] p player = checkMatch nb p player.
Proof. unfold checkMatch. simpl. now rewrite List.app_nil_r. Qed.

Lemma neighborhood_nine (b : Board) (x y : Z) :
  List.length (List.concat (getNeighborhood b x y)) = 9%nat.
Proof. reflexivity. Qed.

Lemma verdict_exists (b : Board) (x y : Z) :
  patternVerdict b player x y = true
  <-> exists p, In p mirroredPatterns
                /\ checkMatch (getNeighborhood b x y) p player = true.
Proof.
  unfold patternVerdict. split.
  - destruct (find _ _) as [p|] eqn:E; [intros _|discriminate].
    apply find_some in E as [Hin Hm]. exists p. split; [|assumption].
    eapply matching_pattern_mirrored; eassumption.
  - intros (p & Hin & Hm).
    destruct (find _ _) as [q|] eqn:E; [reflexivity|].
    eapply find_none in E; [|apply mirrored_in_expanded; eassumption].
    simpl in E. congruence.
Qed.

(** One generator. *)
Lemma verdict_step (g : Symmetry) (n : nat) (b : Board) (x y : Z) :
  squareBoard n b ->
  patternVerdict (applySymmetry g n b) player
    (fst (moveCoordinates g (Z.of_nat n) (x, y)))
    (snd (moveCoordinates g (Z.of_nat n) (x, y)))
  = patternVerdict b player x y.
Proof.
  intros Hsq. pose proof (neighborhood_moved g n b x y Hsq) as Hk.
  set (nb := getNeighborhood b x y) in *.
  set (nb' := getNeighborhood (applySymmetry g n b) _ _) in *.
  apply eq_true_iff_eq. rewrite !verdict_exists. fold nb nb'. split.
  - intros (p & Hin & Hm).
    destruct (match_moves_along (undo g) (List.concat nb')
                (List.concat nb) p) as (q & Hq & Hmq).
    + reflexivity.
    + rewrite Hk. now rewrite moveCells_undo.
    + assumption.
    + now rewrite checkMatch_concat.
    + exists q. split; [assumption|]. now rewrite <- checkMatch_concat.
  - intros (p & Hin & Hm).
    destruct (match_moves_along [g] (List.concat nb) (List.concat nb') p)
      as (q & Hq & Hmq).
    + reflexivity.
    + exact Hk.
    + assumption.
    + now rewrite checkMatch_concat.
    + exists q. split; [assumption|]. now rewrite <- checkMatch_concat.
Qed.

Lemma applySymmetries_square (gs : list Symmetry) (n : nat) (b : Board) :
  squareBoard n b -> squareBoard n (applySymmetries gs n b).
Proof.
  revert b. induction gs as [|g gs IH]; intros b Hsq; simpl;
    [assumption|].
  apply IH. apply applySymmetry_square.
Qed.

Lemma verdict_steps (gs : list Symmetry) (n : nat) (b : Board) (x y : Z) :
  squareBoard n b ->
  patternVerdict (applySymmetries gs n b) player
    (fst (moveCoordinatesAll gs (Z.of_nat n) (x, y)))
    (snd (moveCoordinatesAll gs (Z.of_nat n) (x, y)))
  = patternVerdict b player x y.
Proof.
  revert b x y. induction gs as [|g gs IH]; intros b x y Hsq;
    [reflexivity|].
  change (applySymmetries (g :: gs) n b)
    with (applySymmetries gs n (applySymmetry g n b)).
  change (moveCoordinatesAll (g :: gs) (Z.of_nat n) (x, y))
    with (moveCoordinatesAll gs (Z.of_nat n)
            (moveCoordinates g (Z.of_nat n) (x, y))).
  pose proof (verdict_step g n b x y Hsq) as H.
  destruct (moveCoordinates g (Z.of_nat n) (x, y)) as [x' y'].
  rewrite IH by apply applySymmetry_square. exact H.
Qed.

End VerdictSymmetry.

(** C2: on a square board, a rotation or a mirror applied to the board and
    to the coordinates of the cell (any sequence of quarter turns and
    mirrors) keeps the verdict of the pattern matcher; in particular a
    pattern of the expanded catalog that matches at a cell has a
    counterpart in the catalog that matches at the moved cell of the moved
    board, the mirror that reverses the rows included. *)
Theorem pattern_verdict_symmetric (n : nat) (b : Board) (player : GoColor)
  (gs : list Symmetry) (x y : Z) :
  squareBoard n b ->
  patternVerdict (applySymmetries gs n b) player
    (fst (moveCoordinatesAll gs (Z.of_nat n) (x, y)))
    (snd (moveCoordinatesAll gs (Z.of_nat n) (x, y)))
  = patternVerdict b player x y
  /\ (forall pattern,
        In pattern expandAllThreeByThreePatterns ->
        checkMatch (getNeighborhood b x y) pattern player = true ->
        exists pattern',
          In pattern' expandAllThreeByThreePatterns
          /\ checkMatch
               (getNeighborhood (applySymmetries gs n b)
                  (fst (moveCoordinatesAll gs (Z.of_nat n) (x, y)))
                  (snd (moveCoordinatesAll gs (Z.of_nat n) (x, y))))
               pattern' player = true).
Proof.
  intros Hsq. pose proof (verdict_steps player gs n b x y Hsq) as Hv.
  split; [exact Hv|].
  intros pattern Hin Hm.
  assert (Ht : patternVerdict b player x y = true).
  { apply verdict_exists. exists pattern. split; [|assumption].
    eapply matching_pattern_mirrored; eassumption. }
  rewrite <- Hv in Ht. apply verdict_exists in Ht as (q & Hq & Hmq).
  exists q. split; [now apply mirrored_in_expanded | assumption].
Qed.

Lemma pattern_verdict_symmetric_witness :
  squareBoard 5 patternBoard
  /\ (patternVerdict
        (applySymmetries [MirrorRows; QuarterTurn] 5 patternBoard) white
        (fst (moveCoordinatesAll [MirrorRows; QuarterTurn] (Z.of_nat 5)
                (1, 1)))
        (snd (moveCoordinatesAll [MirrorRows; QuarterTurn] (Z.of_nat 5)
                (1, 1)))
      = patternVerdict patternBoard white 1 1
      /\ (forall pattern,
            In pattern expandAllThreeByThreePatterns ->
            checkMatch (getNeighborhood patternBoard 1 1) pattern white
            = true ->
            exists pattern',
              In pattern' expandAllThreeByThreePatterns
              /\ checkMatch
                   (getNeighborhood
                      (applySymmetries [MirrorRows; QuarterTurn] 5
                         patternBoard)
                      (fst (moveCoordinatesAll [MirrorRows; QuarterTurn]
                              (Z.of_nat 5) (1, 1)))
                      (snd (moveCoordinatesAll [MirrorRows; QuarterTurn]
                              (Z.of_nat 5) (1, 1))))
                   pattern' white = true)).
Proof.
  assert (Hsq : squareBoard 5 patternBoard)
    by (split; [vm_compute; reflexivity | vm_compute; repeat constructor]).
  split; [exact Hsq|].
  exact (pattern_verdict_symmetric 5 patternBoard white
           [MirrorRows; QuarterTurn] 1 1 Hsq).
Defined.

(** [patternVerdict] is the test that [findAnyMatchedPatterns] applies to
    the neighbourhood of every cell. *)
Lemma findAnyMatchedPatterns_verdict (board : Board) (player : GoColor)
  (availableSpaces : list PointState) (smart : bool) (rng : Q) :
  findAnyMatchedPatterns board player availableSpaces smart rng
  = match
      pick
        (flat_map (fun x =>
           flat_map (fun y =>
             if patternVerdict board player x y
                && isAvailable availableSpaces x y
                && (negb smart
                    || (1 <? lengthZ
                               (findEffectiveLibertiesOfNewMove board x y
                                  player)))
             then [pointAt board x y]
             else [])
             (range (firstColumnLength board)))
           (range (firstColumnLength board)))
        rng
    with
    | Some (Some p) => Some p
    | _ => None
    end.
Proof. reflexivity. Qed.

(** ** The moves that [getMove] answers *)

Lemma nthZ_In {A} (l : list A) (i : Z) (a : A) : nthZ l i = Some a -> In a l.
Proof.
  unfold nthZ. destruct (i <? 0); [discriminate|]. apply nth_error_In.
Qed.

Lemma pick_In {A} (l : list A) (rng : Q) (a : A) :
  pick l rng = Some a -> In a l.
Proof. apply nthZ_In. Qed.

Lemma hd_error_In {A} (l : list A) (a : A) : hd_error l = Some a -> In a l.
Proof. destruct l; simpl; [discriminate|]. intros [= ->]. now left. Qed.

Lemma inSpaces_self (availableSpaces : list PointState) (p : PointState) :
  In p availableSpaces -> inSpaces availableSpaces p.
Proof.
  intros H. unfold inSpaces, isAvailable. apply existsb_exists.
  exists p. split; [assumption|]. now rewrite !Z.eqb_refl.
Qed.

Lemma fold_left_invariant {A B} (P : A -> Prop) (R : B -> Prop)
  (f : A -> B -> A) (l : list B) :
  (forall a b, P a -> R b -> P (f a b)) ->
  Forall R l -> forall a, P a -> P (fold_left f l a).
Proof.
  intros Hf Hl. induction Hl as [|b bs Hb _ IH]; intros a Ha; simpl;
    [assumption|].
  apply IH. now apply Hf.
Qed.

Section Generators.

Variable board : Board.
Variable player : GoColor.
Variable availableSpaces : list PointState.

Lemma getLibertyGrowthMoves_inSpaces (l : GrowthMove) :
  In l (getLibertyGrowthMoves board player availableSpaces) ->
  inSpaces availableSpaces (g_point l).
Proof.
  unfold getLibertyGrowthMoves.
  destruct (lengthZ _ =? 0); [intros []|]. intros H.
  apply filter_In in H as [H _]. apply in_map_iff in H as (q & <- & Hq).
  apply filter_In in Hq as [_ Hq]. exact Hq.
Qed.

Lemma getGrowthMove_inSpaces (rng : Q) (m : Move) :
  getGrowthMove board player availableSpaces rng = Some m ->
  inSpaces availableSpaces (m_point m).
Proof.
  unfold getGrowthMove.
  destruct (pick _ rng) as [l|] eqn:E; [|discriminate]. intros [= <-].
  apply pick_In, filter_In in E as [E _].
  now apply getLibertyGrowthMoves_inSpaces.
Qed.

Lemma getDefendMove_inSpaces (rng : Q) (m : Move) :
  getDefendMove board player availableSpaces rng = Some m ->
  inSpaces availableSpaces (m_point m).
Proof.
  unfold getDefendMove. destruct (maxOf _) as [k|]; [|discriminate].
  destruct (k <? 1); [discriminate|].
  destruct (pick _ rng) as [l|] eqn:E; [|discriminate]. intros [= <-].
  apply pick_In, filter_In in E as [E _]. apply filter_In in E as [E _].
  now apply getLibertyGrowthMoves_inSpaces.
Qed.

Lemma getExpansionMoveArray_inSpaces (m : Move) :
  In m (getExpansionMoveArray board availableSpaces) ->
  inSpaces availableSpaces (m_point m).
Proof.
  unfold getExpansionMoveArray. intros H.
  apply in_map_iff in H as (q & <- & Hq). simpl.
  apply inSpaces_self. apply in_app_iff in Hq as [Hq|Hq].
  - now apply filter_In in Hq as [Hq _].
  - destruct (negb _); [contradiction|].
    unfold getDisputedTerritoryMoves in Hq.
    now apply filter_In in Hq as [Hq _].
Qed.

Lemma getSurroundMove_inSpaces (smart : bool) (m : Move) :
  getSurroundMove board player availableSpaces smart = Some m ->
  inSpaces availableSpaces (m_point m).
Proof.
  unfold getSurroundMove.
  destruct ((lengthZ _ =? 0) || (lengthZ availableSpaces =? 0));
    [discriminate|].
  set (enemyLiberties := filter _ (allLibertyPoints board _)).
  assert (Hl : Forall (inSpaces availableSpaces) enemyLiberties).
  { apply Forall_forall. intros q Hq.
    now apply filter_In in Hq as [_ Hq]. }
  set (ok := fun st : list Move * list Move * list Move =>
               Forall (fun m => inSpaces availableSpaces (m_point m))
                      (fst (fst st) ++ snd (fst st) ++ snd st)).
  match goal with
  | |- context [fold_left ?f enemyLiberties ?init] =>
      assert (Hok : ok (fold_left f enemyLiberties init))
  end.
  { apply (fold_left_invariant ok (inSpaces availableSpaces));
      [|assumption|constructor].
    intros st q Hst Hq.
    destruct st as [[cm am] sm]. unfold ok in *. simpl in *.
    apply Forall_app in Hst as [H1 H23].
    apply Forall_app in H23 as [H2 H3].
    repeat match goal with
           | |- context [if ?c then _ else _] => destruct c
           end; simpl;
      repeat (apply Forall_app; split); try assumption;
      repeat constructor; assumption. }
  destruct (fold_left _ enemyLiberties _) as [[cm am] sm].
  intros H. apply hd_error_In in H. unfold ok in Hok. simpl in Hok.
  rewrite Forall_forall in Hok. now apply Hok.
Qed.

Lemma getEyeCreationMoves_inSpaces (who : GoColor) (maxLiberties : Z)
  (m : EyeMove) :
  In m (getEyeCreationMoves board who availableSpaces maxLiberties) ->
  inSpaces availableSpaces (em_point m).
Proof.
  unfold getEyeCreationMoves.
  set (friendlyLiberties := filter _ (filter _ (allLibertyPoints board _))).
  assert (Hl : Forall (inSpaces availableSpaces) friendlyLiberties).
  { apply Forall_forall. intros q Hq.
    apply filter_In in Hq as [Hq _]. now apply filter_In in Hq as [_ Hq]. }
  match goal with
  | |- context [fold_left ?f friendlyLiberties ?init] =>
      assert (Hok : Forall (fun m => inSpaces availableSpaces (em_point m))
                           (fold_left f friendlyLiberties init))
  end.
  { apply (fold_left_invariant
             (Forall (fun m => inSpaces availableSpaces (em_point m)))
             (inSpaces availableSpaces));
      [|assumption|constructor].
    intros st q Hst Hq.
    match goal with
    | |- context [if ?c then _ else _] => destruct c
    end; [|assumption].
    apply Forall_app. split; [assumption|]. now repeat constructor. }
  intros H. rewrite Forall_forall in Hok. apply Hok.
  apply in_app_iff in H as [H|H]; now apply filter_In in H as [H _].
Qed.

Lemma getEyeCreationMove_inSpaces (m : EyeMove) :
  getEyeCreationMove board player availableSpaces = Some m ->
  inSpaces availableSpaces (em_point m).
Proof.
  unfold getEyeCreationMove. intros H. apply hd_error_In in H.
  now apply getEyeCreationMoves_inSpaces in H.
Qed.

Lemma getEyeBlockingMove_inSpaces (m : EyeMove) :
  getEyeBlockingMove board player availableSpaces = Some m ->
  inSpaces availableSpaces (em_point m).
Proof.
  unfold getEyeBlockingMove. intros H.
  destruct (lengthZ _ =? 1).
  - apply hd_error_In, filter_In in H as [H _].
    now apply getEyeCreationMoves_inSpaces in H.
  - destruct ((lengthZ _ =? 0) && _); [|discriminate].
    apply hd_error_In, filter_In in H as [H _].
    now apply getEyeCreationMoves_inSpaces in H.
Qed.

Lemma findAnyMatchedPatterns_inSpaces (smart : bool) (rng : Q)
  (p : PointState) :
  wfBoard board ->
  findAnyMatchedPatterns board player availableSpaces smart rng = Some p ->
  inSpaces availableSpaces p.
Proof.
  intros Hwf. unfold findAnyMatchedPatterns.
  destruct (pick _ rng) as [[q|]|] eqn:E; try discriminate.
  intros [= ->]. apply pick_In in E.
  apply in_flat_map in E as (x & _ & E).
  apply in_flat_map in E as (y & _ & E).
  destruct (isSome _ && isAvailable availableSpaces x y && _) eqn:C;
    [|contradiction].
  destruct E as [E|[]].
  apply andb_prop in C as [C _]. apply andb_prop in C as [_ C].
  unfold inSpaces. destruct (Hwf _ _ _ E) as [-> ->]. exact C.
Qed.

End Generators.

Lemma findDisputedTerritory_valid (bs : BoardState) (player : GoColor)
  (smart : bool) (q : PointState) :
  In q (findDisputedTerritory bs player smart) ->
  evaluateIfMoveIsValid bs (p_x q) (p_y q) player true = valid.
Proof.
  unfold findDisputedTerritory. intros H. apply filter_In in H as [H _].
  assert (Hv : In q (getAllValidMoves bs player)).
  { destruct smart; [now apply filter_In in H as [H _] | assumption]. }
  unfold getAllValidMoves in Hv. apply filter_In in Hv as [_ Hv].
  destruct (evaluateIfMoveIsValid bs (p_x q) (p_y q) player true);
    (reflexivity || discriminate).
Qed.

(** A point with the coordinates of an available space is a valid move on
    the fast path. *)
Lemma inSpaces_valid (bs : BoardState) (player : GoColor) (smart : bool)
  (p : PointState) :
  inSpaces (findDisputedTerritory bs player smart) p ->
  evaluateIfMoveIsValid bs (p_x p) (p_y p) player true = valid.
Proof.
  unfold inSpaces, isAvailable. intros H.
  apply existsb_exists in H as (q & Hq & Hxy).
  apply andb_prop in Hxy as [Hx Hy]. apply Z.eqb_eq in Hx, Hy.
  rewrite <- Hx, <- Hy. eapply findDisputedTerritory_valid; eassumption.
Qed.

(** The getters of the table: the corner getter answers the point of
    [getCornerMove], every other getter a point with the coordinates of an
    available space. *)
Lemma getMoveOptions_getters (bs : BoardState) (player : GoColor) (rng : Q)
  (smart : bool) :
  wfBoard (bs_board bs) ->
  gettersAnswer
    (fun p => inSpaces (findDisputedTerritory bs player smart) p
              \/ getCornerMove (bs_board bs) = Some p)
    (getMoveOptions bs player rng smart).
Proof.
  intros Hwf getter Hin m Hm.
  cbn [getMoveOptions eyeMove random defendCapture corner defend pattern
       capture growth eyeBlock surround expansion jump In] in Hin.
  set (avail := findDisputedTerritory bs player smart) in *.
  destruct Hin as [<-|[<-|[<-|[<-|[<-|[<-|[<-|[<-|[<-|[<-|[<-|[<-|[]]]]]]]]]]]]].
  - (* eyeMove *)
    destruct (_ && _); [discriminate|].
    destruct (getEyeCreationMove _ _ _) as [e|] eqn:E; [|discriminate].
    injection Hm as <-. left. now apply getEyeCreationMove_inSpaces in E.
  - (* random *)
    destruct (negb _); [|discriminate].
    destruct (pick avail rng) as [q|] eqn:E; [|discriminate].
    injection Hm as <-. left. apply inSpaces_self. now apply pick_In in E.
  - (* defendCapture *)
    destruct (getDefendMove _ _ _ _) as [d|] eqn:E; [|discriminate].
    destruct (_ && _); [|discriminate]. injection Hm as <-. left.
    now apply getDefendMove_inSpaces in E.
  - (* corner *)
    destruct (getCornerMove _) as [q|]; [|discriminate].
    injection Hm as <-. now right.
  - (* defend *)
    left. now apply getDefendMove_inSpaces in Hm.
  - (* pattern *)
    destruct (_ && _); [discriminate|].
    destruct (findAnyMatchedPatterns _ _ _ _ _) as [q|] eqn:E;
      [|discriminate].
    injection Hm as <-. left.
    now apply findAnyMatchedPatterns_inSpaces in E.
  - (* capture *)
    destruct (getSurroundMove _ _ _ _) as [s|] eqn:E; [|discriminate].
    destruct (optZ_is _ _); [|discriminate]. injection Hm as <-. left.
    now apply getSurroundMove_inSpaces in E.
  - (* growth *)
    destruct (_ && _); [discriminate|]. left.
    now apply getGrowthMove_inSpaces in Hm.
  - (* eyeBlock *)
    destruct (_ && _); [discriminate|].
    destruct (getEyeBlockingMove _ _ _) as [e|] eqn:E; [|discriminate].
    injection Hm as <-. left. now apply getEyeBlockingMove_inSpaces in E.
  - (* surround *)
    left. now apply getSurroundMove_inSpaces in Hm.
  - (* expansion *)
    left. unfold getExpansionMove in Hm. apply pick_In in Hm.
    now apply getExpansionMoveArray_inSpaces in Hm.
  - (* jump *)
    left. unfold getJumpMove in Hm. apply pick_In, filter_In in Hm as [Hm _].
    now apply getExpansionMoveArray_inSpaces in Hm.
Qed.

Section Factions.

Variable Q : PointState -> Prop.
Variable moves : MoveOptions.
Hypothesis Hmoves : gettersAnswer Q moves.

Lemma getter_answers (getter : unit -> option Move) (p : PointState) :
  In getter [eyeMove moves; random moves; defendCapture moves;
             corner moves; defend moves; pattern moves; capture moves;
             growth moves; eyeBlock moves; surround moves;
             expansion moves; jump moves] ->
  pointOf (getter tt) = Some p -> Q p.
Proof.
  intros Hin Hp. destruct (getter tt) as [m|] eqn:E; [|discriminate].
  injection Hp as <-. eapply Hmoves; eassumption.
Qed.

Ltac answered :=
  match goal with
  | H : pointOf (?g moves tt) = Some ?p |- Q ?p =>
      apply (getter_answers (g moves) p); [cbn [In]; tauto | exact H]
  | H : None = Some _ |- _ => discriminate H
  end.

Ltac branches :=
  repeat match goal with
         | H : (if ?c then _ else _) = Some _ |- _ => destruct c
         end.

Lemma getIlluminatiPriorityMove_answers (rng : QArith_base.Q)
  (p : PointState) :
  getIlluminatiPriorityMove moves rng = Some p -> Q p.
Proof.
  unfold getIlluminatiPriorityMove. intros H. branches; answered.
Qed.

Lemma getFactionMove_answers (faction : GoOpponent) (rng : QArith_base.Q)
  (p : PointState) :
  getFactionMove moves faction rng = Some p -> Q p.
Proof.
  unfold getFactionMove, getNetburnersPriorityMove,
    getSlumSnakesPriorityMove, getBlackHandPriorityMove,
    getTetradPriorityMove, getDaedalusPriorityMove.
  intros H. branches;
    try (now apply getIlluminatiPriorityMove_answers in H);
    answered.
Qed.

End Factions.

(** What holds of every answer of [getMove] on a valid board: the move is
    classified [valid] by the legality check on the fast path, or it is the
    point of the corner generator. *)
Lemma getMove_valid_or_corner (rng : nat -> Q) (bs : BoardState)
  (player : GoColor) (opponent : GoOpponent) (x y : Z) :
  wfBoard (bs_board bs) ->
  getMove rng bs player opponent = PlayMove x y ->
  evaluateIfMoveIsValid bs x y player true = valid
  \/ exists p, getCornerMove (bs_board bs) = Some p /\ refOf p = (x, y).
Proof.
  intros Hwf. unfold getMove.
  set (smart := isSmart opponent (rng 0%nat)).
  pose proof (getMoveOptions_getters bs player (rng 1%nat) smart Hwf)
    as Hg.
  set (moves := getMoveOptions bs player (rng 1%nat) smart) in *.
  clearbody moves.
  destruct (getFactionMove moves opponent (rng 2%nat)) as [q|] eqn:E.
  - intros [= <- <-].
    destruct (getFactionMove_answers _ moves Hg _ _ _ E) as [H|H].
    + left. eapply inSpaces_valid; eassumption.
    + right. now exists q.
  - destruct (pick _ (rng 3%nat)) as [q|] eqn:Ep; [|discriminate].
    intros [= <- <-]. apply pick_In, filter_In in Ep as [Ep _].
    apply somes_In in Ep.
    assert (Hq : inSpaces (findDisputedTerritory bs player smart) q
                 \/ getCornerMove (bs_board bs) = Some q).
    { cbn [In] in Ep.
      destruct Ep as [Ep|[Ep|[Ep|[Ep|[Ep|[Ep|[Ep|[]]]]]]]];
        match type of Ep with
        | pointOf (?g moves tt) = Some _ =>
            apply (getter_answers _ moves Hg (g moves) q);
              [cbn [In]; tauto | exact Ep]
        end. }
    destruct Hq as [H|H].
    + left. eapply inSpaces_valid; eassumption.
    + right. now exists q.
Qed.

(** ** The orchestrator on two positions *)

(** C8: on the empty 5x5 board, Black to move against Illuminati, [getMove]
    answers the move [(2, 2)] whatever numbers the random generator
    returns. *)
Theorem getMove_empty5_corner (rng : nat -> Q) :
  getMove rng (boardStateFromSimpleBoard emptyBoard5 Illuminati) black
          Illuminati
  = PlayMove 2 2.
Proof. vm_compute. reflexivity. Qed.

(** C1, at the position [cornerTrapState]: [getMove] answers the move
    [(2, 2)] for Black, a move that the legality check classifies as
    [noSuicide] on the fast path and by playing it out. *)
Theorem getMove_returns_invalid_corner (rng : nat -> Q) :
  getMove rng cornerTrapState black Illuminati = PlayMove 2 2
  /\ evaluateIfMoveIsValid cornerTrapState 2 2 black true = noSuicide
  /\ evaluateIfMoveIsValid cornerTrapState 2 2 black false = noSuicide.
Proof. repeat split; vm_compute; reflexivity. Qed.

(** * Further properties *)

(** ** The liberties that [updateChains] records *)

Lemma setAddPoint_refs (s : list PointState) (p : PointState) :
  NoDup (map refOf s) ->
  NoDup (map refOf (setAddPoint s p))
  /\ forall r, In r (map refOf (setAddPoint s p))
               <-> In r (map refOf s) \/ r = refOf p.
Proof.
  intros Hnd. unfold setAddPoint. destruct (contains s p) eqn:Hc.
  - split; [assumption|]. intros r. split; [now left|].
    intros [H| ->]; [assumption|].
    apply existsb_exists in Hc as (p' & Hin & Hs).
    apply andb_prop in Hs as [Hx Hy]. apply Z.eqb_eq in Hx, Hy.
    apply in_map_iff. exists p'. split; [|assumption].
    unfold refOf. now rewrite Hx, Hy.
  - rewrite map_app. simpl. split.
    + apply NoDup_app; [assumption | repeat constructor; intros [] |].
      intros r Hr [<-|[]]. apply in_map_iff in Hr as (p' & E & Hin).
      assert (Ht : contains s p = true); [|congruence].
      apply existsb_exists. exists p'. split; [assumption|].
      unfold samePoint. injection E as -> ->. now rewrite !Z.eqb_refl.
    + intros r. rewrite in_app_iff. simpl. intuition.
Qed.

Lemma fold_setAddPoint_refs (l : list PointState) :
  forall s, NoDup (map refOf s) ->
  NoDup (map refOf (fold_left setAddPoint l s))
  /\ forall r, In r (map refOf (fold_left setAddPoint l s))
               <-> In r (map refOf s) \/ In r (map refOf l).
Proof.
  induction l as [|p l IH]; intros s Hnd; simpl.
  - split; [assumption|]. intros r. tauto.
  - destruct (setAddPoint_refs s p Hnd) as [Hnd' Hin].
    destruct (IH _ Hnd') as [Hnd'' Hin'']. split; [assumption|].
    intros r. rewrite Hin'', Hin. intuition.
Qed.

Lemma fold_setAddPoint_In (l : list PointState) :
  forall s q, In q (fold_left setAddPoint l s) -> In q s \/ In q l.
Proof.
  induction l as [|p l IH]; intros s q; simpl; [now left|].
  intros H. apply IH in H as [H|H]; [|now right; right].
  unfold setAddPoint in H. destruct (contains s p); [now left|].
  apply in_app_iff in H as [H|[<-|[]]]; [now left | now right; left].
Qed.

(** The points collected by [getAllNeighbors], by their coordinates. *)
Lemma getAllNeighbors_refs (b : Board) (chain : list PointState) :
  NoDup (map refOf (getAllNeighbors b chain))
  /\ (forall q, In q (getAllNeighbors b chain) ->
        exists m, In m chain
          /\ In q (getArrayFromNeighbor (findNeighbors b (p_x m) (p_y m)))
          /\ isPointInChain q chain = false)
  /\ (forall m q, In m chain ->
        In q (getArrayFromNeighbor (findNeighbors b (p_x m) (p_y m))) ->
        isPointInChain q chain = false ->
        In (refOf q) (map refOf (getAllNeighbors b chain))).
Proof.
  unfold getAllNeighbors.
  set (step := fun chainNeighbors point =>
                  fold_left setAddPoint _ chainNeighbors).
  assert (H : forall l s, NoDup (map refOf s) ->
            NoDup (map refOf (fold_left step l s))
            /\ (forall q, In q (fold_left step l s) -> In q s \/
                  exists m, In m l
                    /\ In q (getArrayFromNeighbor
                               (findNeighbors b (p_x m) (p_y m)))
                    /\ isPointInChain q chain = false)
            /\ (forall r, In r (map refOf s) ->
                  In r (map refOf (fold_left step l s)))
            /\ (forall m q, In m l ->
                  In q (getArrayFromNeighbor
                          (findNeighbors b (p_x m) (p_y m))) ->
                  isPointInChain q chain = false ->
                  In (refOf q) (map refOf (fold_left step l s)))).
  { induction l as [|p l IH]; intros s Hnd; simpl.
    - repeat split; auto. intros m q [].
    - destruct (fold_setAddPoint_refs
                  (filter (fun neighborPoint =>
                             negb (isPointInChain neighborPoint chain))
                     (getArrayFromNeighbor
                        (findNeighbors b (p_x p) (p_y p)))) s Hnd)
        as [Hnd' Hin'].
      destruct (IH (step s p) Hnd') as (H1 & H2 & H3 & H4).
      split; [assumption|]. split; [|split].
      + intros q Hq. apply H2 in Hq as [Hq|(m & Hm & Hq)].
        * apply fold_setAddPoint_In in Hq as [Hq|Hq]; [now left|].
          apply filter_In in Hq as [Hq Hn]. right. exists p.
          split; [now left|]. split; [assumption|].
          now apply negb_true_iff in Hn.
        * right. exists m. split; [now right | assumption].
      + intros r Hr. apply H3. apply Hin'. now left.
      + intros m q [<-|Hm] Hq Hn; [|now apply (H4 m q)].
        apply H3. apply Hin'. right. apply in_map. apply filter_In.
        split; [assumption | now rewrite Hn]. }
  destruct (H chain [] (NoDup_nil _)) as (H1 & H2 & _ & H4).
  split; [assumption|]. split; [|assumption].
  intros q Hq. apply H2 in Hq as [[]|Hq]. exact Hq.
Qed.

Lemma NoDup_map_filter {A B} (f : A -> B) (g : A -> bool) (l : list A) :
  NoDup (map f l) -> NoDup (map f (filter g l)).
Proof.
  induction l as [|a l IH]; simpl; [auto|]. intros H.
  apply NoDup_cons_iff in H as [Hn Hnd]. destruct (g a); simpl; [|auto].
  constructor; [|auto]. intros Hin. apply Hn.
  apply in_map_iff in Hin as (a' & E & Hin). apply filter_In in Hin as [Hin _].
  apply in_map_iff. now exists a'.
Qed.

Lemma sameChain_present (b : Board) (a c : Z * Z) (p : PointState) :
  pointAt b (fst a) (snd a) = Some p -> sameChain b a c ->
  exists q, pointAt b (fst c) (snd c) = Some q.
Proof.
  intros Hp Hs. apply sameChain_color in Hs as [<-|(col & _ & Hc)];
    [now exists p|].
  unfold colorAt in Hc. destruct (pointAt b (fst c) (snd c)) as [q|];
    [now exists q | discriminate].
Qed.

(** The liberties that [updateChains] computes for the chain found at a
    point. *)
Lemma findLibertiesForChain_libertyOf (b : Board) (x y : Z) (p : PointState) :
  wfBoard b -> pointAt b x y = Some p ->
  let libs := map refOf (findLibertiesForChain b
                           (findAdjacentPointsInChain b x y)) in
  NoDup libs /\ forall r, In r libs <-> libertyOf b (x, y) r.
Proof.
  intros Hwf Hp libs.
  destruct (findAdjacentPointsInChain_spec b x y p Hwf Hp) as [_ Hmem].
  subst libs. set (members := findAdjacentPointsInChain b x y) in *.
  destruct (getAllNeighbors_refs b members) as (Hnd & Hsound & Hcompl).
  unfold findLibertiesForChain. split; [now apply NoDup_map_filter|].
  intros r. split.
  - intros Hr. apply in_map_iff in Hr as (q & <- & Hq).
    apply filter_In in Hq as [Hq Hcol].
    apply Hsound in Hq as (m & Hm & Hq & Hout).
    apply neighbors_spec in Hq as (c & Hadj & Hc).
    destruct (Hwf _ _ _ Hc) as [Hqx Hqy].
    assert (Er : refOf q = c)
      by (unfold refOf; rewrite Hqx, Hqy; now destruct c).
    apply Hmem in Hm as [Hon Hs].
    split; [|split].
    + rewrite Er. unfold colorAt. rewrite Hc. simpl.
      now destruct (p_color q).
    + intros Hs'. assert (Hin : In q members).
      { apply Hmem. split; [|assumption]. unfold onBoard.
        now rewrite Hqx, Hqy. }
      assert (Ht : isPointInChain q members = true); [|congruence].
      apply existsb_exists. exists q. split; [assumption|].
      now rewrite !Z.eqb_refl.
    + exists (refOf m). split; [assumption|]. now rewrite Er.
  - intros (Hcol & Hout & c & Hs & Hadj).
    destruct (sameChain_present b (x, y) c p Hp Hs) as [m Hm].
    destruct (Hwf _ _ _ Hm) as [Hmx Hmy].
    assert (Em : refOf m = c)
      by (unfold refOf; rewrite Hmx, Hmy; now destruct c).
    unfold colorAt in Hcol.
    destruct (pointAt b (fst r) (snd r)) as [q|] eqn:Hq; [|discriminate].
    injection Hcol as Hcol.
    destruct (Hwf _ _ _ Hq) as [Hqx Hqy].
    assert (Er : refOf q = r)
      by (unfold refOf; rewrite Hqx, Hqy; now destruct r).
    assert (Hin : In m members).
    { apply Hmem. split; [unfold onBoard; now rewrite Hmx, Hmy|].
      now rewrite Em. }
    assert (Hnb : In q (getArrayFromNeighbor
                          (findNeighbors b (p_x m) (p_y m)))).
    { apply neighbors_spec. exists r. split; [|assumption].
      now rewrite Hmx, Hmy, <- surjective_pairing. }
    assert (Hno : isPointInChain q members = false).
    { destruct (isPointInChain q members) eqn:E; [|reflexivity].
      exfalso. apply Hout. apply existsb_exists in E as (m' & Hm' & Hxy).
      apply andb_prop in Hxy as [Hx Hy]. apply Z.eqb_eq in Hx, Hy.
      apply Hmem in Hm' as [_ Hs']. unfold refOf in Hs'.
      rewrite Hx, Hy, Hqx, Hqy in Hs'.
      now rewrite <- surjective_pairing in Hs'. }
    pose proof (Hcompl m q Hin Hnb Hno) as H.
    apply in_map_iff in H as (q' & E & Hq').
    apply in_map_iff. exists q'. split; [congruence|].
    apply filter_In. split; [assumption|].
    destruct (Hsound q' Hq') as (m' & _ & Hnb' & _).
    apply neighbors_spec in Hnb' as (c' & _ & Hc').
    destruct (Hwf _ _ _ Hc') as [Hx' Hy'].
    assert (q' = q).
    { unfold refOf in E. injection E as Ex Ey.
      rewrite Hx', Hy' in *. rewrite Hqx in Ex. rewrite Hqy in Ey.
      rewrite Ex, Ey in Hc'. congruence. }
    subst q'. now rewrite Hcol.
Qed.

Lemma libertyOf_chain (b : Board) (a c r : Z * Z) :
  sameChain b a c -> libertyOf b a r <-> libertyOf b c r.
Proof.
  intros Hs. pose proof (sameChain_sym b a c Hs) as Hs'.
  unfold libertyOf. split.
  - intros (H1 & H2 & d & H3 & H4). split; [assumption|]. split.
    + intros H. apply H2. exact (sameChain_trans b a c r Hs H).
    + exists d. split; [|assumption]. exact (sameChain_trans b c a d Hs' H3).
  - intros (H1 & H2 & d & H3 & H4). split; [assumption|]. split.
    + intros H. apply H2. exact (sameChain_trans b c a r Hs' H).
    + exists d. split; [|assumption]. exact (sameChain_trans b a c d Hs H3).
Qed.

Lemma libertyOf_stones (a b : Board) (c r : Z * Z) :
  stones a = stones b -> libertyOf a c r <-> libertyOf b c r.
Proof.
  intros Hst. unfold libertyOf.
  rewrite (stones_colorAt a b r Hst), (stones_sameChain a b c r Hst).
  split; intros (H1 & H2 & d & H3 & H4); (split; [assumption|]);
    (split; [assumption|]); exists d; (split; [|assumption]);
    now apply (stones_sameChain a b c d Hst).
Qed.

Section Liberties.

Variable b : Board.
Hypothesis Hwf : wfBoard b.

Lemma libertiesDone_step (done : list (Z * Z)) (bi : Board) (m0 : Z * Z) :
  chainsDone b done bi -> libertiesDone b bi ->
  libertiesDone b (updateChainAt bi m0).
Proof.
  intros [Hst _] Hl.
  assert (Hwfi : wfBoard bi) by (eapply stones_wfBoard; eassumption).
  destruct m0 as [x y]. unfold updateChainAt.
  destruct (pointAt bi x y) as [p|] eqn:Hp; [|assumption].
  destruct (String.eqb_spec (p_chain p) "") as [Hch|Hch]; simpl;
    [|assumption].
  destruct (findAdjacentPointsInChain_spec bi x y p Hwfi Hp) as [_ Hmem].
  destruct (findLibertiesForChain_libertyOf bi x y p Hwfi Hp) as [Hnd Hlib].
  set (members := findAdjacentPointsInChain bi x y) in *.
  set (libs := map refOf (findLibertiesForChain bi members)) in *.
  intros a q'. rewrite pointAt_fold_setPoint by reflexivity.
  destruct (existsb _ members) eqn:Hex; [|apply Hl].
  apply existsb_exists in Hex as (m & Hm & Hxy).
  apply andb_prop in Hxy as [Hx Hy]. apply Z.eqb_eq in Hx, Hy.
  apply Hmem in Hm as [_ Hs].
  assert (Hsa : sameChain b (x, y) a).
  { apply (stones_sameChain bi b) in Hs; [|assumption].
    unfold refOf in Hs. rewrite Hx, Hy in Hs. now destruct a. }
  destruct (pointAt bi (fst a) (snd a)) as [q|]; [|discriminate].
  simpl. intros [= <-]. right. exists libs. split; [reflexivity|].
  split; [assumption|]. intros r. rewrite Hlib.
  rewrite (libertyOf_stones bi b (x, y) r Hst).
  now apply libertyOf_chain.
Qed.

Lemma libertiesDone_fold (todo : list (Z * Z)) :
  forall (done : list (Z * Z)) (bi : Board),
  chainsDone b done bi -> libertiesDone b bi ->
  libertiesDone b (fold_left updateChainAt todo bi).
Proof.
  induction todo as [|m0 todo IH]; intros done bi Hd Hl; simpl;
    [assumption|].
  apply (IH (done ++ [m0])); [now apply chainsDone_step|].
  now apply (libertiesDone_step done).
Qed.

Lemma libertiesDone_updateChains : libertiesDone b (updateChains b true).
Proof.
  unfold updateChains.
  rewrite (stones_scanOrder (clearChains b) b (stones_clearChains b)).
  apply (libertiesDone_fold (scanOrder b) [] (clearChains b)).
  - split; [apply stones_clearChains|].
    intros a q Hq. right. split; [intros m []|].
    unfold clearChains in Hq. rewrite pointAt_map in Hq.
    destruct (pointAt b (fst a) (snd a)); [|discriminate].
    now injection Hq as <-.
  - intros a q Hq. left.
    unfold clearChains in Hq. rewrite pointAt_map in Hq.
    destruct (pointAt b (fst a) (snd a)); [|discriminate].
    now injection Hq as <-.
Qed.

End Liberties.

(** X1: on a valid board, after [updateChains] every point carries the
    liberties of its chain: the empty points that are next to a point of
    the chain, each listed once. *)
Theorem updateChains_liberties (b : Board) (a : Z * Z) (p : PointState) :
  wfBoard b ->
  pointAt (updateChains b true) (fst a) (snd a) = Some p ->
  exists libs,
    p_liberties p = Some libs /\ NoDup libs
    /\ forall r, In r libs <-> libertyOf b a r.
Proof.
  intros Hwf Hp.
  destruct (libertiesDone_updateChains b Hwf a p Hp) as [Hc|H]; [|exact H].
  destruct (updateChains_first b Hwf a p Hp) as (m & _ & Hm).
  rewrite Hc in Hm. symmetry in Hm. now apply chainId_nonempty in Hm.
Qed.

Lemma updateChains_liberties_witness :
  wfBoard exampleBoard
  /\ pointAt (updateChains exampleBoard true) (fst (1, 0)) (snd (1, 0))
     = Some (examplePointAt 1 0)
  /\ exists libs,
       p_liberties (examplePointAt 1 0) = Some libs /\ NoDup libs
       /\ forall r, In r libs <-> libertyOf exampleBoard (1, 0) r.
Proof.
  split; [apply wfBoardb_wfBoard; vm_compute; reflexivity|].
  split; [vm_compute; reflexivity|].
  apply (updateChains_liberties exampleBoard (1, 0) (examplePointAt 1 0)).
  - apply wfBoardb_wfBoard. vm_compute. reflexivity.
  - vm_compute. reflexivity.
Defined.

(** ** Analysing a board again *)

Lemma clearChains_stones (a b : Board) :
  stones a = stones b -> clearChains a = clearChains b.
Proof.
  intros H.
  assert (E : forall c, clearChains c
              = map (map (option_map (fun s : GoColor * Z * Z =>
                   let '(col, x, y) := s in
                   {| p_color := col; p_chain := ""; p_liberties := None;
                      p_x := x; p_y := y |}))) (stones c)).
  { intros c. unfold clearChains, stones. rewrite map_map. apply map_ext.
    intros column. rewrite map_map. apply map_ext. now intros [p|]. }
  now rewrite !E, H.
Qed.

Lemma updateChains_stones (a b : Board) :
  stones a = stones b -> updateChains a true = updateChains b true.
Proof.
  intros H. unfold updateChains. now rewrite (clearChains_stones a b H).
Qed.

Lemma updateChainAt_analysed (b : Board) (xy : Z * Z) :
  (forall x y p, pointAt b x y = Some p -> p_chain p <> ""%string) ->
  updateChainAt b xy = b.
Proof.
  intros H. destruct xy as [x y]. unfold updateChainAt.
  destruct (pointAt b x y) as [p|] eqn:Hp; [|reflexivity].
  destruct (String.eqb_spec (p_chain p) ""); [|reflexivity].
  now apply H in Hp.
Qed.

Lemma fold_updateChainAt_analysed (l : list (Z * Z)) (b : Board) :
  (forall x y p, pointAt b x y = Some p -> p_chain p <> ""%string) ->
  fold_left updateChainAt l b = b.
Proof.
  intros H. induction l as [|xy l IH]; simpl; [reflexivity|].
  now rewrite updateChainAt_analysed.
Qed.

Lemma updateChains_analysed (b : Board) (x y : Z) (p : PointState) :
  wfBoard b -> pointAt (updateChains b true) x y = Some p ->
  p_chain p <> ""%string.
Proof.
  intros Hwf Hp Hc.
  destruct (updateChains_first b Hwf (x, y) p Hp) as (m & _ & Hm).
  rewrite Hc in Hm. symmetry in Hm. now apply chainId_nonempty in Hm.
Qed.

(** X29: [updateChains] changes neither the colour nor the coordinates of a
    point, and neither adds nor removes a point: it only writes chain ids
    and liberties. *)
Theorem updateChains_keeps_stones (b : Board) (resetChains : bool) :
  stones (updateChains b resetChains) = stones b.
Proof.
  unfold updateChains. rewrite stones_fold_updateChainAt.
  destruct resetChains; [apply stones_clearChains | reflexivity].
Qed.

(** X2: analysing an analysed board again, from scratch, gives the same
    board: the chain ids and the liberties depend on the stones only. *)
Theorem updateChains_idempotent (b : Board) (resetChains : bool) :
  updateChains (updateChains b resetChains) true = updateChains b true.
Proof. apply updateChains_stones, stones_updateChains. Qed.

(** X3: on a valid board that was analysed, [updateChains] without
    [resetChains] changes nothing. *)
Theorem updateChains_keep_analysed (b : Board) :
  wfBoard b ->
  updateChains (updateChains b true) false = updateChains b true.
Proof.
  intros Hwf. unfold updateChains at 1. apply fold_updateChainAt_analysed.
  intros x y p. now apply updateChains_analysed.
Qed.

Lemma updateChains_keep_analysed_witness :
  wfBoard exampleBoard
  /\ updateChains (updateChains exampleBoard true) false
     = updateChains exampleBoard true.
Proof.
  split; [apply wfBoardb_wfBoard; vm_compute; reflexivity|].
  apply (updateChains_keep_analysed exampleBoard).
  apply wfBoardb_wfBoard. vm_compute. reflexivity.
Defined.

(** ** The layout of a board *)

Lemma layout_cellAt (b : Board) (x y : Z) :
  match nthZ (layout b) x with
  | Some c => nthZ c y
  | None => None
  end
  = match cellAt b x y with
    | Undefined => None
    | Null => Some None
    | Pt p => Some (Some (refOf p))
    end.
Proof.
  unfold layout, cellAt, nthZ. destruct (x <? 0); [reflexivity|].
  rewrite nth_error_map. destruct (nth_error b (Z.to_nat x)) as [c|]; simpl;
    [|reflexivity].
  destruct (y <? 0); [reflexivity|]. rewrite nth_error_map.
  now destruct (nth_error c (Z.to_nat y)) as [[p|]|].
Qed.

Lemma layout_setPoint (f : PointState -> PointState) (b : Board) (x y : Z) :
  (forall p, refOf (f p) = refOf p) -> layout (setPoint f b x y) = layout b.
Proof.
  intros Hf. unfold layout, setPoint. apply map_updZ. intros column.
  apply map_updZ. intros [p|]; simpl; [|reflexivity]. now rewrite Hf.
Qed.

Lemma layout_map (f : PointState -> PointState) (b : Board) :
  (forall p, refOf (f p) = refOf p) ->
  layout (map (map (option_map f)) b) = layout b.
Proof.
  intros Hf. unfold layout. rewrite map_map. apply map_ext. intros column.
  rewrite map_map. apply map_ext. intros [p|]; simpl; [|reflexivity].
  now rewrite Hf.
Qed.

Lemma layout_stones (a b : Board) : stones a = stones b -> layout a = layout b.
Proof.
  intros H.
  assert (E : forall c, layout c
              = map (map (option_map (fun s : GoColor * Z * Z =>
                                        let '(_, x, y) := s in (x, y))))
                    (stones c)).
  { intros c. unfold layout, stones. rewrite map_map. apply map_ext.
    intros column. rewrite map_map. apply map_ext. now intros [p|]. }
  now rewrite !E, H.
Qed.

Lemma layout_wfBoard (a b : Board) :
  layout a = layout b -> wfBoard b -> wfBoard a.
Proof.
  intros H Hwf x y p Hp.
  pose proof (layout_cellAt a x y) as Ea.
  pose proof (layout_cellAt b x y) as Eb. rewrite H, Eb in Ea.
  unfold pointAt in Hp. destruct (cellAt a x y) as [| |p'] eqn:Ca;
    try discriminate.
  injection Hp as ->.
  destruct (cellAt b x y) as [| |q] eqn:Cb; try discriminate.
  injection Ea as Ex Ey.
  destruct (Hwf x y q) as [Hx Hy]; [unfold pointAt; now rewrite Cb|].
  split; congruence.
Qed.

Lemma layout_captureChains (cs : list (list PointState)) (b : Board) :
  layout (fold_left captureChain cs b) = layout b.
Proof.
  rewrite fold_captureChain_concat. revert b.
  induction (List.concat cs) as [|m l IH]; intros b; simpl; [reflexivity|].
  rewrite IH. now apply layout_setPoint.
Qed.

Lemma layout_updateCaptures (b : Board) (playerWhoMoved : GoColor)
  (resetChains : bool) :
  layout (updateCaptures b playerWhoMoved resetChains) = layout b.
Proof.
  assert (H : forall c r, layout (updateChains c r) = layout c)
    by (intros c r; apply layout_stones, stones_updateChains).
  unfold updateCaptures.
  destruct (findAllCapturedChains _ _) as [cs|]; [|apply H].
  destruct (lengthZ cs =? 0); [apply H|].
  now rewrite H, layout_captureChains, H.
Qed.

(** ** What [updateCaptures] leaves on the board *)

Lemma updateChains_libertyOf (b : Board) (a : Z * Z) (p : PointState) :
  wfBoard b ->
  pointAt (updateChains b true) (fst a) (snd a) = Some p ->
  exists libs,
    p_liberties p = Some libs /\ NoDup libs
    /\ forall r, In r libs <-> libertyOf b a r.
Proof.
  intros Hwf Hp.
  destruct (libertiesDone_updateChains b Hwf a p Hp) as [Hc|H]; [|exact H].
  now apply (updateChains_analysed b (fst a) (snd a) p Hwf) in Hc.
Qed.

Lemma updateChains_same_id (b : Board) (a c : Z * Z) (p q : PointState) :
  wfBoard b ->
  pointAt (updateChains b true) (fst a) (snd a) = Some p ->
  pointAt (updateChains b true) (fst c) (snd c) = Some q ->
  p_chain p = p_chain q <-> sameChain b a c.
Proof.
  intros Hwf Hp Hq.
  destruct (updateChains_first b Hwf a p Hp) as (ma & Hma & Hca).
  destruct (updateChains_first b Hwf c q Hq) as (mc & Hmc & Hcc).
  split.
  - intros H. rewrite Hca, Hcc in H. apply chainId_inj in H. subst mc.
    apply FirstIn_holds in Hma as [Hma _].
    apply FirstIn_holds in Hmc as [Hmc _].
    eapply sameChain_trans; [exact Hma | now apply sameChain_sym].
  - intros Hs. rewrite Hca, Hcc. f_equal.
    apply (FirstIn_unique (sameChain b c) (scanOrder b)); [|assumption].
    eapply FirstIn_ext; [|exact Hma]. intros m. split; intros H.
    + eapply sameChain_trans; [apply sameChain_sym|]; eassumption.
    + eapply sameChain_trans; eassumption.
Qed.

Lemma getAllChains_same_id (b : Board) (c c' : list PointState)
  (m m' : PointState) :
  In c (getAllChains b) -> In c' (getAllChains b) ->
  In m c -> In m' c' -> p_chain m = p_chain m' -> c = c'.
Proof.
  intros Hc Hc' Hm Hm' Hid.
  destruct (getAllChains_groups b) as [E (Hnd & Hmem & _)].
  rewrite E in Hc, Hc'. apply in_map_iff in Hc as ([k d] & <- & Hd).
  apply in_map_iff in Hc' as ([k' d'] & <- & Hd'). simpl in *.
  destruct (Hmem k d Hd m Hm) as [<- _].
  destruct (Hmem k' d' Hd' m' Hm') as [<- _]. rewrite <- Hid in Hd'.
  clear -Hnd Hd Hd'. induction (chainGroups (List.concat b) [])
    as [|[k0 d0] g IH]; [contradiction|].
  simpl in Hnd. inversion Hnd as [|? ? Hnot Hnd']; subst.
  destruct Hd as [Hd|Hd], Hd' as [Hd'|Hd'].
  - congruence.
  - exfalso. apply Hnot. apply in_map_iff. exists (p_chain m, d').
    split; [simpl; congruence | assumption].
  - exfalso. apply Hnot. apply in_map_iff. exists (p_chain m, d).
    split; [simpl; congruence | assumption].
  - now apply IH.
Qed.

Lemma getAllChains_member_id (b : Board) (c : list PointState)
  (m m' : PointState) :
  In c (getAllChains b) -> In m c -> In m' c -> p_chain m = p_chain m'.
Proof.
  intros Hc Hm Hm'.
  destruct (getAllChains_groups b) as [E (_ & Hmem & _)].
  rewrite E in Hc. apply in_map_iff in Hc as ([k d] & <- & Hd). simpl in *.
  destruct (Hmem k d Hd m Hm) as [-> _].
  now destruct (Hmem k d Hd m' Hm') as [-> _].
Qed.

(** [updateCaptures] as one expression: the chains selected by
    [capturedChain] are emptied and the board is analysed again. *)
Lemma updateCaptures_eq (b : Board) (playerWhoMoved : GoColor) :
  updateCaptures b playerWhoMoved true
  = updateChains (capturedBoard b playerWhoMoved) true.
Proof.
  assert (Hid : updateChains b true = updateChains (updateChains b true) true)
    by (symmetry; apply updateChains_stones, stones_updateChains).
  unfold capturedBoard, updateCaptures, findAllCapturedChains, capturedChain.
  set (b1 := updateChains b true) in *. set (chains := getAllChains b1).
  change (findCapturedChainOfColor chains (opposite playerWhoMoved))
    with (filter (zeroLibertyChain (opposite playerWhoMoved)) chains).
  change (findCapturedChainOfColor chains playerWhoMoved)
    with (filter (zeroLibertyChain playerWhoMoved) chains).
  rewrite <- !existsb_filter_nil.
  destruct (existsb (zeroLibertyChain (opposite playerWhoMoved)) chains)
    eqn:Eo.
  - rewrite existsb_filter_nil in Eo. apply negb_true_iff in Eo.
    now rewrite Eo.
  - destruct (existsb (zeroLibertyChain playerWhoMoved) chains) eqn:Ef.
    + rewrite existsb_filter_nil in Ef. apply negb_true_iff in Ef.
      now rewrite Ef.
    + now rewrite (filter_nil_existsb _ _ Ef).
Qed.

Section CaptureComplete.

Variable b : Board.
Hypothesis Hwf : wfBoard b.
Variable playerWhoMoved : GoColor.

Lemma analysed_wf : wfBoard (updateChains b true).
Proof. now apply wfBoard_updateChains. Qed.

Lemma captured_wf : wfBoard (capturedBoard b playerWhoMoved).
Proof.
  apply (layout_wfBoard _ (updateChains b true));
    [apply layout_captureChains | apply analysed_wf].
Qed.

(** The colour of a point after the selected chains were emptied. *)
Lemma captured_colorAt (a : Z * Z) (p : PointState) :
  pointAt (updateChains b true) (fst a) (snd a) = Some p ->
  exists c,
    In c (getAllChains (updateChains b true)) /\ In p c
    /\ colorAt (capturedBoard b playerWhoMoved) a
       = Some (if capturedChain playerWhoMoved
                    (getAllChains (updateChains b true)) c
               then empty else p_color p).
Proof.
  intros Hp.
  destruct (getAllChains_covers (updateChains b true) (fst a) (snd a) p Hp)
    as (c & Hc & Hin);
    [now apply (updateChains_analysed b (fst a) (snd a))|].
  exists c. split; [assumption|]. split; [assumption|].
  destruct (analysed_wf _ _ _ Hp) as [Hx Hy].
  replace a with (refOf p)
    by (unfold refOf; rewrite Hx, Hy; now destruct a).
  now apply capture_colors; [apply analysed_wf| |].
Qed.

(** A chain whose first point has liberties has a liberty. *)
Lemma chain_with_liberties (a : Z * Z) (p : PointState)
  (c : list PointState) :
  pointAt (updateChains b true) (fst a) (snd a) = Some p ->
  In c (getAllChains (updateChains b true)) -> In p c ->
  zeroLibertyChain (p_color p) c = false ->
  exists r, libertyOf b a r.
Proof.
  intros Hp Hc Hin Hz. unfold zeroLibertyChain, chainHead in Hz.
  destruct c as [|h c']; [contradiction|]. simpl in Hz.
  assert (Hh : In h (h :: c')) by now left.
  pose proof (getAllChains_onBoard _ _ h analysed_wf Hc Hh) as Hon.
  pose proof (getAllChains_member_id _ _ h p Hc Hh Hin) as Hid.
  assert (Hs : sameChain b (refOf h) a)
    by (apply (updateChains_same_id b (refOf h) a h p Hwf Hon Hp); exact Hid).
  assert (Hcol : p_color h = p_color p).
  { pose proof (updateChains_colorAt b (refOf h) h Hon) as H1.
    pose proof (updateChains_colorAt b a p Hp) as H2.
    apply sameChain_color in Hs as [E|(col & E1 & E2)]; congruence. }
  destruct (updateChains_libertyOf b (refOf h) h Hwf Hon)
    as (libs & Hl & _ & Hlibs).
  rewrite Hcol in Hz. unfold libertyCount in Hz. rewrite Hl in Hz.
  simpl in Hz. destruct libs as [|r libs].
  - now destruct (p_color p).
  - exists r. apply (libertyOf_chain b (refOf h) a r Hs). apply Hlibs.
    now left.
Qed.

(** The chain of a point that was not emptied is still there. *)
Lemma captured_sameChain (a d : Z * Z) (p : PointState)
  (c : list PointState) :
  pointAt (updateChains b true) (fst a) (snd a) = Some p ->
  In c (getAllChains (updateChains b true)) -> In p c ->
  capturedChain playerWhoMoved (getAllChains (updateChains b true)) c
  = false ->
  sameChain b a d ->
  sameChain (capturedBoard b playerWhoMoved) a d
  /\ colorAt (capturedBoard b playerWhoMoved) d = colorAt b d.
Proof.
  intros Hp Hc Hin Hcap Hs.
  assert (Hkeep : forall e, sameChain b a e ->
            colorAt (capturedBoard b playerWhoMoved) e = colorAt b e).
  { intros e He.
    assert (Hpb : exists p0, pointAt b (fst a) (snd a) = Some p0).
    { pose proof (updateChains_colorAt b a p Hp) as H. unfold colorAt in H.
      destruct (pointAt b (fst a) (snd a)) as [p0|]; [now exists p0|].
      discriminate. }
    destruct Hpb as [p0 Hp0].
    destruct (sameChain_present b a e p0 Hp0 He) as [q0 Hq0].
    assert (Hq1 : exists q,
              pointAt (updateChains b true) (fst e) (snd e) = Some q).
    { pose proof (stones_pointAt (updateChains b true) b (fst e) (snd e)
                    (stones_updateChains b true)) as E.
      rewrite Hq0 in E.
      destruct (pointAt (updateChains b true) (fst e) (snd e)) as [q|];
        [now exists q | discriminate]. }
    destruct Hq1 as [q Hq].
    destruct (captured_colorAt e q Hq) as (c' & Hc' & Hin' & Hcol).
    assert (Hid : p_chain p = p_chain q)
      by (apply (updateChains_same_id b a e p q Hwf Hp Hq); exact He).
    rewrite <- (getAllChains_same_id _ c c' p q Hc Hc' Hin Hin' Hid)
      in Hcol.
    rewrite Hcap in Hcol. rewrite Hcol. symmetry.
    now apply updateChains_colorAt. }
  split; [|now apply Hkeep].
  apply clos_rt_rtn1 in Hs. induction Hs as [|e f Hl Hs IH]; [apply rt_refl|].
  apply clos_rtn1_rt in Hs.
  eapply rt_trans; [exact IH|]. apply rt_step.
  destruct Hl as [Hadj (col & He & Hf)]. split; [assumption|]. exists col.
  rewrite (Hkeep e Hs).
  rewrite (Hkeep f); [now split|].
  eapply rt_trans; [exact Hs|]. apply rt_step. split; [assumption|].
  now exists col.
Qed.

Lemma opponent_not_captured (c : list PointState) :
  In c (getAllChains (updateChains b true)) ->
  capturedChain playerWhoMoved (getAllChains (updateChains b true)) c
  = false ->
  zeroLibertyChain (opposite playerWhoMoved) c = false.
Proof.
  intros Hc Hcap. unfold capturedChain in Hcap.
  destruct (existsb (zeroLibertyChain (opposite playerWhoMoved))
              (getAllChains (updateChains b true)))
    eqn:Ex; [assumption|].
  destruct (zeroLibertyChain (opposite playerWhoMoved) c) eqn:Ez;
    [|reflexivity].
  assert (Ht : existsb (zeroLibertyChain (opposite playerWhoMoved))
                 (getAllChains (updateChains b true))
               = true); [|congruence].
  apply existsb_exists. now exists c.
Qed.

End CaptureComplete.

Lemma layout_present (a b : Board) (x y : Z) (p : PointState) :
  layout a = layout b -> pointAt a x y = Some p ->
  exists q, pointAt b x y = Some q.
Proof.
  intros H Hp. pose proof (layout_cellAt a x y) as Ea.
  pose proof (layout_cellAt b x y) as Eb. rewrite H, Eb in Ea.
  unfold pointAt in *. destruct (cellAt a x y); try discriminate.
  destruct (cellAt b x y) as [| |q]; try discriminate. now exists q.
Qed.

Lemma opposite_not_empty (player : GoColor) : opposite player <> empty.
Proof. now destruct player. Qed.

(** X4: on a valid board, [updateCaptures] leaves no stone of the opponent
    of the player who moved without liberties: every point of that colour on
    the board it returns lists at least one liberty. *)
Theorem updateCaptures_opponent_has_liberty (b : Board)
  (playerWhoMoved : GoColor) (a : Z * Z) (p : PointState) :
  wfBoard b ->
  pointAt (updateCaptures b playerWhoMoved true) (fst a) (snd a) = Some p ->
  p_color p = opposite playerWhoMoved ->
  exists libs, p_liberties p = Some libs /\ libs <> [].
Proof.
  intros Hwf Hp Hcol. rewrite updateCaptures_eq in Hp.
  pose proof (captured_wf b Hwf playerWhoMoved) as Hwf2.
  set (b2 := capturedBoard b playerWhoMoved) in *.
  destruct (updateChains_libertyOf b2 a p Hwf2 Hp) as (libs & Hl & _ & Hlibs).
  exists libs. split; [assumption|].
  pose proof (updateChains_colorAt b2 a p Hp) as Hc2. rewrite Hcol in Hc2.
  assert (Hp1 : exists p1, pointAt (updateChains b true) (fst a) (snd a)
                           = Some p1).
  { destruct (layout_present (updateChains b2 true) (updateChains b true)
                (fst a) (snd a) p) as [p1 H1]; [|assumption|now exists p1].
    rewrite (layout_stones _ _ (stones_updateChains b2 true)).
    apply layout_captureChains. }
  destruct Hp1 as [p1 Hp1].
  destruct (captured_colorAt b Hwf playerWhoMoved a p1 Hp1)
    as (c & Hc & Hin & Hca).
  fold b2 in Hca. rewrite Hc2 in Hca.
  destruct (capturedChain playerWhoMoved _ c) eqn:Hcap;
    [injection Hca as E; now apply opposite_not_empty in E|].
  injection Hca as Hcol1.
  pose proof (opponent_not_captured b playerWhoMoved c Hc Hcap) as Hz.
  rewrite Hcol1 in Hz.
  destruct (chain_with_liberties b Hwf a p1 c Hp1 Hc Hin Hz)
    as (r & Hre & Hout & d & Hsd & Hadj).
  destruct (captured_sameChain b Hwf playerWhoMoved a d p1 c Hp1 Hc Hin
              Hcap Hsd) as [Hsd2 _].
  fold b2 in Hsd2.
  assert (Hr2 : colorAt b2 r = Some empty).
  { assert (Hpr : exists pr, pointAt (updateChains b true) (fst r) (snd r)
                             = Some pr).
    { rewrite <- (stones_colorAt (updateChains b true) b r
                    (stones_updateChains b true)) in Hre.
      unfold colorAt in Hre.
      destruct (pointAt (updateChains b true) (fst r) (snd r)) as [pr|];
        [now exists pr | discriminate]. }
    destruct Hpr as [pr Hpr].
    destruct (captured_colorAt b Hwf playerWhoMoved r pr Hpr)
      as (c' & _ & _ & Hcr).
    fold b2 in Hcr. rewrite Hcr.
    pose proof (updateChains_colorAt b r pr Hpr) as E.
    destruct (capturedChain playerWhoMoved _ c'); congruence. }
  assert (Hlib : libertyOf b2 a r).
  { split; [assumption|]. split; [|now exists d].
    intros Hs. apply sameChain_color in Hs as [E|(col & E1 & E2)].
    - subst r. rewrite Hc2 in Hr2. injection Hr2 as E.
      now apply opposite_not_empty in E.
    - rewrite Hc2 in E1. rewrite Hr2 in E2.
      apply (opposite_not_empty playerWhoMoved). congruence. }
  apply Hlibs in Hlib. intros ->. contradiction.
Qed.

(** ** Which chains [updateCaptures] removes *)

Section CapturePriority.

Variable b : Board.
Hypothesis Hwf : wfBoard b.

(** The test of [findCapturedChainOfColor], read on the chain of a point
    after the first [updateChains], decides whether the stone is dead on
    the board that was given. *)
Lemma zeroLibertyChain_dead (col : GoColor) (a : Z * Z) (p : PointState)
  (c : list PointState) :
  pointAt (updateChains b true) (fst a) (snd a) = Some p ->
  In c (getAllChains (updateChains b true)) -> In p c ->
  zeroLibertyChain col c = true <-> deadStone b col a.
Proof.
  intros Hp Hc Hin.
  destruct c as [|h c']; [contradiction|].
  assert (Hh : In h (h :: c')) by now left.
  pose proof (getAllChains_onBoard _ _ h (analysed_wf b Hwf) Hc Hh) as Hon.
  pose proof (getAllChains_member_id _ _ h p Hc Hh Hin) as Hid.
  assert (Hs : sameChain b (refOf h) a)
    by (apply (updateChains_same_id b (refOf h) a h p Hwf Hon Hp); exact Hid).
  pose proof (updateChains_colorAt b (refOf h) h Hon) as Hch.
  pose proof (updateChains_colorAt b a p Hp) as Hca.
  assert (Hcol : p_color h = p_color p).
  { apply sameChain_color in Hs as [E|(col' & E1 & E2)]; congruence. }
  destruct (updateChains_libertyOf b (refOf h) h Hwf Hon)
    as (libs & Hl & _ & Hlibs).
  unfold zeroLibertyChain, chainHead, libertyCount, deadStone.
  cbn [hd_error]. rewrite Hl. cbn [option_map]. split.
  - intros H. apply andb_prop in H as [Hc1 Hz]. split.
    + rewrite Hca, <- Hcol. f_equal. now destruct (p_color h), col.
    + intros r Hr. apply (libertyOf_chain b (refOf h) a r Hs) in Hr.
      apply Hlibs in Hr. destruct libs as [|r' libs]; [contradiction|].
      unfold lengthZ in Hz. simpl List.length in Hz.
      apply Z.eqb_eq in Hz. lia.
  - intros [Hc1 Hnone]. apply andb_true_intro. split.
    + rewrite Hca in Hc1. injection Hc1 as <-. rewrite Hcol.
      now destruct (p_color p).
    + destruct libs as [|r libs]; [reflexivity|]. exfalso.
      apply (Hnone r). apply (libertyOf_chain b (refOf h) a r Hs).
      apply Hlibs. now left.
Qed.

Lemma analysed_present (a : Z * Z) (col : GoColor) :
  colorAt b a = Some col ->
  exists p, pointAt (updateChains b true) (fst a) (snd a) = Some p
            /\ p_color p = col.
Proof.
  intros H.
  rewrite <- (stones_colorAt (updateChains b true) b a
                (stones_updateChains b true)) in H.
  unfold colorAt in H.
  destruct (pointAt (updateChains b true) (fst a) (snd a)) as [p|];
    [|discriminate].
  exists p. split; [reflexivity|]. now injection H.
Qed.

Lemma existsb_dead (col : GoColor) :
  existsb (zeroLibertyChain col) (getAllChains (updateChains b true)) = true
  <-> exists d, deadStone b col d.
Proof.
  split.
  - intros H. apply existsb_exists in H as (c & Hc & Hz).
    destruct c as [|h c']; [discriminate|].
    assert (Hh : In h (h :: c')) by now left.
    pose proof (getAllChains_onBoard _ _ h (analysed_wf b Hwf) Hc Hh) as Hon.
    exists (refOf h).
    now apply (zeroLibertyChain_dead col (refOf h) h (h :: c') Hon Hc Hh).
  - intros [d Hd]. pose proof Hd as [Hcol _].
    destruct (analysed_present d col Hcol) as (p & Hp & _).
    destruct (getAllChains_covers _ _ _ p Hp) as (c & Hc & Hin);
      [now apply (updateChains_analysed b (fst d) (snd d))|].
    apply existsb_exists. exists c. split; [assumption|].
    now apply (zeroLibertyChain_dead col d p c Hp Hc Hin).
Qed.

(** A point that records an empty list of liberties is a dead stone. *)
Lemma deadStone_recorded (a : Z * Z) (p : PointState) :
  pointAt (updateChains b true) (fst a) (snd a) = Some p ->
  p_liberties p = Some [] ->
  deadStone b (p_color p) a.
Proof.
  intros Hp Hl. split; [now apply updateChains_colorAt|].
  destruct (updateChains_libertyOf b a p Hwf Hp) as (libs & Hl' & _ & Hlibs).
  rewrite Hl in Hl'. injection Hl' as <-. intros r Hr.
  now apply Hlibs in Hr.
Qed.

End CapturePriority.

(** C4: on a valid board [b], after [updateCaptures b P] a stone is removed
    (its point is empty) or has the colour it had on [b].  If at least one
    stone of the opposing colour is on a chain without liberties on [b],
    the stones removed are exactly the opposing stones on chains without
    liberties, and no stone of [P] is removed; if there is none, the
    stones removed are exactly the stones of [P] on chains without
    liberties.  Chains and liberties are those of the stones of [b]:
    [sameChain] and [libertyOf]. *)
Theorem updateCaptures_priority (b : Board) (playerWhoMoved : GoColor)
  (a : Z * Z) (col : GoColor) :
  wfBoard b -> colorAt b a = Some col ->
  ((exists d, deadStone b (opposite playerWhoMoved) d) ->
     (deadStone b (opposite playerWhoMoved) a ->
        colorAt (updateCaptures b playerWhoMoved true) a = Some empty)
     /\ (~ deadStone b (opposite playerWhoMoved) a ->
           colorAt (updateCaptures b playerWhoMoved true) a = Some col)
     /\ (col = playerWhoMoved ->
           colorAt (updateCaptures b playerWhoMoved true) a = Some col))
  /\ (~ (exists d, deadStone b (opposite playerWhoMoved) d) ->
        (deadStone b playerWhoMoved a ->
           colorAt (updateCaptures b playerWhoMoved true) a = Some empty)
        /\ (~ deadStone b playerWhoMoved a ->
              colorAt (updateCaptures b playerWhoMoved true) a = Some col)).
Proof.
  intros Hwf Hcol.
  destruct (analysed_present b a col Hcol) as (p & Hp & Hpc).
  destruct (captured_colorAt b Hwf playerWhoMoved a p Hp)
    as (c & Hc & Hin & Hres).
  assert (E : colorAt (updateCaptures b playerWhoMoved true) a
              = colorAt (capturedBoard b playerWhoMoved) a)
    by (rewrite updateCaptures_eq; apply stones_colorAt,
          stones_updateChains).
  rewrite E, Hres, Hpc. unfold capturedChain.
  pose proof (existsb_dead b Hwf (opposite playerWhoMoved)) as Hex.
  pose proof (zeroLibertyChain_dead b Hwf (opposite playerWhoMoved) a p c
                Hp Hc Hin) as Hopp.
  pose proof (zeroLibertyChain_dead b Hwf playerWhoMoved a p c Hp Hc Hin)
    as Hown.
  split.
  - intros Hd. apply Hex in Hd. rewrite Hd. split; [|split].
    + intros H. apply Hopp in H. now rewrite H.
    + intros H.
      destruct (zeroLibertyChain (opposite playerWhoMoved) c) eqn:Ez;
        [|reflexivity].
      exfalso. apply H. now apply Hopp.
    + intros ->.
      destruct (zeroLibertyChain (opposite playerWhoMoved) c) eqn:Ez;
        [|reflexivity].
      exfalso. destruct (proj1 Hopp eq_refl) as [Ec _]. rewrite Hcol in Ec.
      injection Ec as Ec. now destruct playerWhoMoved.
  - intros Hnd.
    destruct (existsb (zeroLibertyChain (opposite playerWhoMoved))
                (getAllChains (updateChains b true))) eqn:Ee;
      [exfalso; apply Hnd; now apply Hex|].
    split.
    + intros H. apply Hown in H. now rewrite H.
    + intros H. destruct (zeroLibertyChain playerWhoMoved c) eqn:Ez;
        [|reflexivity].
      exfalso. apply H. now apply Hown.
Qed.

Lemma updateCaptures_priority_witness :
  wfBoard captureBoard
  /\ colorAt captureBoard (1, 1) = Some white
  /\ (exists d, deadStone captureBoard (opposite black) d)
  /\ deadStone captureBoard (opposite black) (1, 1)
  /\ colorAt (updateCaptures captureBoard black true) (1, 1) = Some empty
  /\ colorAt captureBoard (2, 1) = Some black
  /\ deadStone captureBoard black (2, 1)
  /\ colorAt (updateCaptures captureBoard black true) (2, 1) = Some black.
Proof.
  assert (Hwf : wfBoard captureBoard)
    by apply wfBoard_boardFromSimpleBoard.
  assert (Hw : colorAt captureBoard (1, 1) = Some white)
    by (vm_compute; reflexivity).
  assert (Hb : colorAt captureBoard (2, 1) = Some black)
    by (vm_compute; reflexivity).
  assert (Hdw : deadStone captureBoard (opposite black) (1, 1)).
  { apply (deadStone_recorded captureBoard Hwf (1, 1)
             (orElse (pointAt (updateChains captureBoard true) 1 1)
                     (blankPointState empty 1 1)));
      vm_compute; reflexivity. }
  assert (Hdb : deadStone captureBoard black (2, 1)).
  { apply (deadStone_recorded captureBoard Hwf (2, 1)
             (orElse (pointAt (updateChains captureBoard true) 2 1)
                     (blankPointState empty 2 1)));
      vm_compute; reflexivity. }
  assert (Hex : exists d, deadStone captureBoard (opposite black) d)
    by (exists (1, 1); exact Hdw).
  split; [exact Hwf|]. split; [exact Hw|]. split; [exact Hex|].
  split; [exact Hdw|]. split.
  - exact (proj1 (proj1 (updateCaptures_priority captureBoard black (1, 1)
                           white Hwf Hw) Hex) Hdw).
  - split; [exact Hb|]. split; [exact Hdb|].
    exact (proj2 (proj2 (proj1 (updateCaptures_priority captureBoard black
                                  (2, 1) black Hwf Hb) Hex)) eq_refl).
Defined.

Lemma updateCaptures_opponent_has_liberty_witness :
  wfBoard captureBoard
  /\ pointAt (updateCaptures captureBoard black true) (fst (2, 0)) (snd (2, 0))
     = Some (capturedPointAt 2 0)
  /\ p_color (capturedPointAt 2 0) = opposite black
  /\ exists libs,
       p_liberties (capturedPointAt 2 0) = Some libs /\ libs <> [].
Proof.
  split; [apply wfBoardb_wfBoard; vm_compute; reflexivity|].
  split; [vm_compute; reflexivity|]. split; [vm_compute; reflexivity|].
  apply (updateCaptures_opponent_has_liberty captureBoard black (2, 0)
           (capturedPointAt 2 0)).
  - apply wfBoardb_wfBoard. vm_compute. reflexivity.
  - vm_compute. reflexivity.
  - vm_compute. reflexivity.
Defined.

(** ** The board that [evaluateMoveResult] returns *)

Lemma evaluateMoveResult_eq (board : Board) (x y : Z) (player : GoColor)
  (resetChains : bool) :
  evaluateMoveResult board x y player resetChains
  = match pointAt board x y with
    | None => board
    | Some point =>
        updateCaptures (placeStone board x y player point) player resetChains
    end.
Proof.
  cbv [evaluateMoveResult Heap.evaluateMoveResult Heap.getBoardCopy
       Heap.deref Heap.modify app List.length nth upd_nth].
  destruct (pointAt board x y); reflexivity.
Qed.

Lemma layout_placeStone (board : Board) (x y : Z) (player : GoColor)
  (point : PointState) :
  layout (placeStone board x y player point) = layout board.
Proof.
  unfold placeStone, resetChainsById. rewrite layout_map.
  - now apply layout_setPoint.
  - intros p. now destruct (existsb _ _).
Qed.

(** X5: [evaluateMoveResult] returns a board with the layout of the board
    it was given: the same columns, the same absent cells, and the same
    coordinates on every point. *)
Theorem evaluateMoveResult_layout (board : Board) (x y : Z)
  (player : GoColor) (resetChains : bool) :
  layout (evaluateMoveResult board x y player resetChains) = layout board.
Proof.
  rewrite evaluateMoveResult_eq.
  destruct (pointAt board x y) as [point|]; [|reflexivity].
  rewrite layout_updateCaptures. apply layout_placeStone.
Qed.

Lemma colorAt_placeStone (board : Board) (x y : Z) (player : GoColor)
  (point : PointState) (a : Z * Z) :
  pointAt board x y = Some point ->
  colorAt (placeStone board x y player point) a
  = if (x =? fst a) && (y =? snd a) then Some player else colorAt board a.
Proof.
  intros Hp. unfold colorAt, placeStone, resetChainsById.
  rewrite pointAt_map, pointAt_setPoint.
  destruct ((x =? fst a) && (y =? snd a)) eqn:E.
  - apply andb_prop in E as [Ex Ey]. apply Z.eqb_eq in Ex, Ey.
    rewrite <- Ex, <- Ey, Hp. cbn [option_map].
    now destruct (existsb _ _).
  - destruct (pointAt board (fst a) (snd a)) as [q|]; [|reflexivity].
    cbn [option_map]. now destruct (existsb _ _).
Qed.

Lemma captureChains_colors (cs : list (list PointState)) (b : Board)
  (a : Z * Z) (col : GoColor) :
  colorAt (fold_left captureChain cs b) a = Some col ->
  col = empty \/ colorAt b a = Some col.
Proof.
  rewrite fold_captureChain_concat. unfold colorAt.
  rewrite pointAt_fold_setPoint by reflexivity.
  destruct (existsb _ (List.concat cs)); [|now right].
  destruct (pointAt b (fst a) (snd a)) as [q|]; [|discriminate].
  simpl. intros [= <-]. now left.
Qed.

(** Whatever [resetChains] is, [updateCaptures] only empties points. *)
Lemma updateCaptures_colors (b : Board) (playerWhoMoved : GoColor)
  (resetChains : bool) (a : Z * Z) (col : GoColor) :
  colorAt (updateCaptures b playerWhoMoved resetChains) a = Some col ->
  col = empty \/ colorAt b a = Some col.
Proof.
  assert (H : forall c r, colorAt (updateChains c r) a = colorAt c a)
    by (intros c r; apply stones_colorAt, stones_updateChains).
  unfold updateCaptures.
  destruct (findAllCapturedChains _ _) as [cs|]; [|now rewrite H; right].
  destruct (lengthZ cs =? 0); [now rewrite H; right|].
  rewrite H. intros Hc. apply captureChains_colors in Hc as [Hc|Hc];
    [now left | right; now rewrite H in Hc].
Qed.

(** X6: whatever [resetChains] is, a move evaluated at a point of the board
    only puts the stone of the player there and empties points: a point
    that has a colour afterwards is empty, or is the point played with the
    colour of the player, or is another point with the colour it had. *)
Theorem evaluateMoveResult_colors (board : Board) (x y : Z)
  (player : GoColor) (resetChains : bool) (point : PointState) (a : Z * Z)
  (col : GoColor) :
  pointAt board x y = Some point ->
  colorAt (evaluateMoveResult board x y player resetChains) a = Some col ->
  col = empty
  \/ (a = (x, y) /\ col = player)
  \/ (a <> (x, y) /\ colorAt board a = Some col).
Proof.
  intros Hp Hc. rewrite evaluateMoveResult_eq, Hp in Hc.
  apply updateCaptures_colors in Hc as [Hc|Hc]; [now left|].
  rewrite (colorAt_placeStone board x y player point a Hp) in Hc.
  destruct ((x =? fst a) && (y =? snd a)) eqn:E.
  - apply andb_prop in E as [Ex Ey]. apply Z.eqb_eq in Ex, Ey.
    right. left. split; [destruct a; simpl in *; congruence | congruence].
  - right. right. split; [|assumption]. intros ->. simpl in E.
    now rewrite !Z.eqb_refl in E.
Qed.

Lemma evaluateMoveResult_colors_witness :
  pointAt (bs_board koState) 2 1 = Some (koPointAt 2 1)
  /\ colorAt (evaluateMoveResult (bs_board koState) 2 1 black false) (1, 1)
     = Some empty
  /\ (empty = empty
      \/ ((1, 1) = (2, 1) /\ empty = black)
      \/ ((1, 1) <> (2, 1) /\ colorAt (bs_board koState) (1, 1) = Some empty)).
Proof.
  split; [vm_compute; reflexivity|]. split; [vm_compute; reflexivity|].
  apply (evaluateMoveResult_colors (bs_board koState) 2 1 black false
           (koPointAt 2 1) (1, 1) empty).
  - vm_compute. reflexivity.
  - vm_compute. reflexivity.
Defined.

(** ** Boards and their textual form, both ways *)

Lemma column_read (x i : Z) (l : list ascii) :
  map cellChar
    (mapi_from (fun y char =>
        if Ascii.eqb char "#" then None
        else if Ascii.eqb char "X" then Some (blankPointState black x y)
        else if Ascii.eqb char "O" then Some (blankPointState white x y)
        else Some (blankPointState empty x y)) i l)
  = map readChar l.
Proof.
  revert i; induction l as [|c l IH]; intros i; simpl; [reflexivity|].
  rewrite IH. f_equal. unfold readChar.
  destruct (Ascii.eqb c "#"); [reflexivity|].
  destruct (Ascii.eqb c "X"); [reflexivity|].
  destruct (Ascii.eqb c "O"); reflexivity.
Qed.

Lemma columns_read (i : Z) (s : SimpleBoard) :
  map (fun column => string_of_list_ascii (map cellChar column))
      (mapi_from (fun x column =>
         mapi (fun y char =>
           if Ascii.eqb char "#" then None
           else if Ascii.eqb char "X" then Some (blankPointState black x y)
           else if Ascii.eqb char "O" then Some (blankPointState white x y)
           else Some (blankPointState empty x y))
           (list_ascii_of_string column)) i s)
  = map readColumn s.
Proof.
  revert i; induction s as [|column s IH]; intros i; simpl; [reflexivity|].
  rewrite IH. f_equal. unfold mapi, readColumn. now rewrite column_read.
Qed.

(** X7: for a SimpleBoard [s] of ASCII characters, whatever its shape,
    [simpleBoardFromBoard (boardFromSimpleBoard s)] is [s] with every
    character other than [#], [X] and [O] replaced by [.]. *)
Theorem simpleBoard_read_back (s : SimpleBoard) :
  asciiText s = true ->
  simpleBoardFromBoard (boardFromSimpleBoard s) = map readColumn s.
Proof.
  intros _. rewrite simpleBoardFromBoard_columns. apply columns_read.
Qed.

Lemma simpleBoard_read_back_witness :
  asciiText ["X?#O"; "a o"]%string = true
  /\ simpleBoardFromBoard (boardFromSimpleBoard ["X?#O"; "a o"]%string)
     = map readColumn ["X?#O"; "a o"]%string.
Proof.
  split; [reflexivity|].
  apply (simpleBoard_read_back ["X?#O"; "a o"]%string). reflexivity.
Defined.

Lemma column_written (x j : Z) (column : list (option PointState)) :
  (forall m p, nth_error column m = Some (Some p) ->
     p_x p = x /\ p_y p = j + Z.of_nat m) ->
  mapi_from (fun y char =>
      if Ascii.eqb char "#" then None
      else if Ascii.eqb char "X" then Some (blankPointState black x y)
      else if Ascii.eqb char "O" then Some (blankPointState white x y)
      else Some (blankPointState empty x y)) j (map cellChar column)
  = map (option_map (withChain "" None)) column.
Proof.
  revert j; induction column as [|cell column IH]; intros j H; simpl;
    [reflexivity|].
  rewrite IH.
  - f_equal. destruct cell as [p|]; [|reflexivity].
    destruct (H 0%nat p eq_refl) as [Hx Hy]. rewrite Z.add_0_r in Hy.
    destruct p as [col ch libs px py]. simpl in *. subst px py.
    now destruct col.
  - intros m p Hm. destruct (H (S m) p Hm) as [Hx Hy]. split; [assumption|].
    lia.
Qed.

Lemma columns_written (i : Z) (b : Board) :
  (forall n column m p, nth_error b n = Some column ->
     nth_error column m = Some (Some p) ->
     p_x p = i + Z.of_nat n /\ p_y p = Z.of_nat m) ->
  mapi_from (fun x column =>
      mapi (fun y char =>
        if Ascii.eqb char "#" then None
        else if Ascii.eqb char "X" then Some (blankPointState black x y)
        else if Ascii.eqb char "O" then Some (blankPointState white x y)
        else Some (blankPointState empty x y))
        (list_ascii_of_string column)) i
    (map (fun column => string_of_list_ascii (map cellChar column)) b)
  = clearChains b.
Proof.
  revert i; induction b as [|column b IH]; intros i H; simpl; [reflexivity|].
  rewrite IH.
  - f_equal. unfold mapi. rewrite list_ascii_of_string_of_list_ascii.
    apply column_written. intros m p Hm.
    destruct (H 0%nat column m p eq_refl Hm) as [Hx Hy]. split; lia.
  - intros n col m p Hn Hm. destruct (H (S n) col m p Hn Hm) as [Hx Hy].
    split; lia.
Qed.

(** X8: on a valid board, [boardFromSimpleBoard (simpleBoardFromBoard b)] is
    [b] without its analysis: the same points, with the chain ids and the
    liberties cleared. *)
Theorem board_written_and_read (b : Board) :
  wfBoard b -> boardFromSimpleBoard (simpleBoardFromBoard b) = clearChains b.
Proof.
  intros Hwf. rewrite simpleBoardFromBoard_columns.
  unfold boardFromSimpleBoard, mapi. apply columns_written.
  intros n column m p Hn Hm.
  destruct (Hwf (Z.of_nat n) (Z.of_nat m) p) as [Hx Hy]; [|split; lia].
  unfold pointAt, cellAt. now rewrite nthZ_nat, Hn, nthZ_nat, Hm.
Qed.

Lemma board_written_and_read_witness :
  wfBoard exampleBoard
  /\ boardFromSimpleBoard (simpleBoardFromBoard exampleBoard)
     = clearChains exampleBoard.
Proof.
  split; [apply wfBoardb_wfBoard; vm_compute; reflexivity|].
  apply (board_written_and_read exampleBoard).
  apply wfBoardb_wfBoard. vm_compute. reflexivity.
Defined.

Lemma get_beyond (s : string) (n : nat) :
  (String.length s <= n)%nat -> String.get n s = None.
Proof.
  revert n; induction s as [|c s IH]; intros n H; simpl; [reflexivity|].
  destruct n; simpl in H; [lia|]. apply IH. lia.
Qed.

(** X9: for a square board of size [n], [getColorOnBoardString] answers
    no colour when [x * n + y] is not an index of the board string. *)
Theorem getColorOnBoardString_outside (n : nat) (b : Board) (x y : Z) :
  squareBoard n b ->
  x * Z.of_nat n + y < 0 \/ Z.of_nat n * Z.of_nat n <= x * Z.of_nat n + y ->
  getColorOnBoardString (boardStringFromBoard b) x y = None.
Proof.
  intros [Hlen Hcols] Hout.
  unfold getColorOnBoardString, boardStringFromBoard.
  rewrite simpleBoardFromBoard_columns.
  set (cols := map (fun column =>
                      string_of_list_ascii (map cellChar column)) b).
  assert (Hall : Forall (fun s => String.length s = n) cols).
  { unfold cols. rewrite Forall_map. eapply Forall_impl; [|exact Hcols].
    intros column Hc. simpl.
    now rewrite length_string_of_list_ascii, length_map. }
  assert (Hcl : List.length cols = n)
    by (unfold cols; now rewrite length_map).
  pose proof (length_concat_uniform n cols Hall) as Hl.
  rewrite Hl, Hcl, Nat2Z.inj_mul, roundSqrt_square by lia.
  unfold charAt. destruct (Z.ltb_spec (x * Z.of_nat n + y) 0); [reflexivity|].
  rewrite get_beyond; [reflexivity|]. rewrite Hl, Hcl. nia.
Qed.

Lemma getColorOnBoardString_outside_witness :
  squareBoard 3 exampleBoard
  /\ (2 * Z.of_nat 3 + 3 < 0 \/ Z.of_nat 3 * Z.of_nat 3 <= 2 * Z.of_nat 3 + 3)
  /\ getColorOnBoardString (boardStringFromBoard exampleBoard) 2 3 = None.
Proof.
  split; [split; [vm_compute; reflexivity | vm_compute; repeat constructor]|].
  split; [right; simpl; lia|].
  apply (getColorOnBoardString_outside 3 exampleBoard 2 3).
  - split; [vm_compute; reflexivity | vm_compute; repeat constructor].
  - right. simpl. lia.
Defined.

(** ** Chains and their neighbours *)

(** X10: on a valid board, for [x] the index of a column,
    [findAdjacentPointsInChain] returns the points connected to the point at
    [(x, y)] by orthogonal steps between points of one colour, each once;
    it returns nothing when the column has no point at [y]. *)
Theorem findAdjacentPointsInChain_component (b : Board) (x y : Z) :
  wfBoard b -> 0 <= x < lengthZ b ->
  NoDup (findAdjacentPointsInChain b x y)
  /\ forall m, In m (findAdjacentPointsInChain b x y)
               <-> pointAt b x y <> None /\ onBoard b m
                   /\ sameChain b (x, y) (refOf m).
Proof.
  intros Hwf _. destruct (pointAt b x y) as [origin|] eqn:Hp.
  - destruct (findAdjacentPointsInChain_spec b x y origin Hwf Hp) as [Hnd H].
    split; [assumption|]. intros m. rewrite H. intuition discriminate.
  - unfold findAdjacentPointsInChain. rewrite Hp. split; [constructor|].
    intros m. split; [intros [] | intros [H _]; now apply H].
Qed.

Lemma findAdjacentPointsInChain_component_witness :
  wfBoard exampleBoard /\ 0 <= 1 < lengthZ exampleBoard
  /\ NoDup (findAdjacentPointsInChain exampleBoard 1 1)
  /\ forall m, In m (findAdjacentPointsInChain exampleBoard 1 1)
               <-> pointAt exampleBoard 1 1 <> None /\ onBoard exampleBoard m
                   /\ sameChain exampleBoard (1, 1) (refOf m).
Proof.
  split; [apply wfBoardb_wfBoard; vm_compute; reflexivity|].
  split; [vm_compute; split; [discriminate | reflexivity]|].
  apply (findAdjacentPointsInChain_component exampleBoard 1 1).
  - apply wfBoardb_wfBoard. vm_compute. reflexivity.
  - vm_compute. split; [discriminate | reflexivity].
Defined.

Lemma neighbor_point (b : Board) (x y : Z) (q : PointState) :
  wfBoard b -> In q (getArrayFromNeighbor (findNeighbors b x y)) ->
  onBoard b q.
Proof.
  intros Hwf Hq. apply neighbors_spec in Hq as (c & _ & Hc).
  unfold onBoard. now destruct (Hwf _ _ _ Hc) as [-> ->].
Qed.

(** X11: on a valid board, [getAllNeighbors] returns the orthogonal
    neighbours of the points of the chain that are not points of the chain,
    and no two of them have the same coordinates. *)
Theorem getAllNeighbors_outside (b : Board) (chain : list PointState) :
  wfBoard b ->
  NoDup (map refOf (getAllNeighbors b chain))
  /\ forall q, In q (getAllNeighbors b chain)
       <-> exists m, In m chain
             /\ In q (getArrayFromNeighbor (findNeighbors b (p_x m) (p_y m)))
             /\ isPointInChain q chain = false.
Proof.
  intros Hwf. destruct (getAllNeighbors_refs b chain) as (Hnd & Hs & Hc).
  split; [assumption|]. intros q. split; [apply Hs|].
  intros (m & Hm & Hq & Hout).
  pose proof (Hc m q Hm Hq Hout) as Hin.
  apply in_map_iff in Hin as (q' & E & Hq').
  destruct (Hs q' Hq') as (m' & _ & Hnb' & _).
  pose proof (neighbor_point b _ _ q Hwf Hq) as Hon.
  pose proof (neighbor_point b _ _ q' Hwf Hnb') as Hon'.
  unfold onBoard, refOf in *. injection E as Ex Ey.
  rewrite Ex, Ey in Hon'. now replace q with q' by congruence.
Qed.

Lemma getAllNeighbors_outside_witness :
  wfBoard exampleBoard
  /\ NoDup (map refOf (getAllNeighbors exampleBoard [examplePointAt 1 1]))
  /\ forall q, In q (getAllNeighbors exampleBoard [examplePointAt 1 1])
       <-> exists m, In m [examplePointAt 1 1]
             /\ In q (getArrayFromNeighbor
                        (findNeighbors exampleBoard (p_x m) (p_y m)))
             /\ isPointInChain q [examplePointAt 1 1] = false.
Proof.
  split; [apply wfBoardb_wfBoard; vm_compute; reflexivity|].
  apply (getAllNeighbors_outside exampleBoard [examplePointAt 1 1]).
  apply wfBoardb_wfBoard. vm_compute. reflexivity.
Defined.

Lemma pushChain_nonempty (g : list (string * list PointState))
  (p : PointState) :
  (forall k c, In (k, c) g -> c <> []) ->
  forall k c, In (k, c) (pushChain g p) -> c <> [].
Proof.
  intros Hg k c Hin. apply pushChain_In in Hin as [Hin|(_ & c0 & -> & _)];
    [now apply (Hg k) | now destruct c0].
Qed.

Lemma chainGroups_nonempty (cells : list (option PointState)) :
  forall g, (forall k c, In (k, c) g -> c <> []) ->
  forall k c, In (k, c) (chainGroups cells g) -> c <> [].
Proof.
  induction cells as [|cell cells IH]; intros g Hg; [exact Hg|].
  unfold chainGroups. simpl. apply IH.
  destruct cell as [p|]; [|exact Hg].
  destruct (p_chain p =? "")%string; [exact Hg|].
  now apply pushChain_nonempty.
Qed.

(** X12: [getAllChains] groups the points of a valid board that have a chain
    id by their id: every such point is in a chain, no chain is empty, the
    points of a chain are points of the board, and two points are in the
    same chain exactly when they have the same id. *)
Theorem getAllChains_grouping (b : Board) :
  wfBoard b ->
  (forall x y p, pointAt b x y = Some p -> p_chain p <> ""%string ->
     exists c, In c (getAllChains b) /\ In p c)
  /\ (forall c, In c (getAllChains b) -> c <> [] /\ Forall (onBoard b) c)
  /\ (forall c c' m m',
        In c (getAllChains b) -> In c' (getAllChains b) ->
        In m c -> In m' c' -> (p_chain m = p_chain m' <-> c = c')).
Proof.
  intros Hwf. split; [apply getAllChains_covers|]. split.
  - intros c Hc. split.
    + destruct (getAllChains_groups b) as [E _]. rewrite E in Hc.
      apply in_map_iff in Hc as ([k d] & <- & Hd). simpl.
      apply (chainGroups_nonempty (List.concat b) []) in Hd; [assumption|].
      intros k' c' [].
    + apply Forall_forall. intros m Hm.
      now apply (getAllChains_onBoard b c m).
  - intros c c' m m' Hc Hc' Hm Hm'. split.
    + now apply (getAllChains_same_id b c c' m m').
    + intros <-. now apply (getAllChains_member_id b c m m').
Qed.

Lemma getAllChains_grouping_witness :
  wfBoard exampleBoard
  /\ (forall x y p, pointAt exampleBoard x y = Some p ->
        p_chain p <> ""%string ->
        exists c, In c (getAllChains exampleBoard) /\ In p c)
  /\ (forall c, In c (getAllChains exampleBoard) ->
        c <> [] /\ Forall (onBoard exampleBoard) c)
  /\ (forall c c' m m',
        In c (getAllChains exampleBoard) ->
        In c' (getAllChains exampleBoard) ->
        In m c -> In m' c' -> (p_chain m = p_chain m' <-> c = c')).
Proof.
  split; [apply wfBoardb_wfBoard; vm_compute; reflexivity|].
  apply (getAllChains_grouping exampleBoard).
  apply wfBoardb_wfBoard. vm_compute. reflexivity.
Defined.

(** ** The pattern catalog *)

Lemma reverseJoin_comma (s : string) :
  (2 <= String.length s)%nat ->
  exists a rest, reverseJoin s = String a (String "," rest).
Proof.
  intros H. unfold reverseJoin, splitChars. rewrite <- map_rev.
  assert (Hl : (2 <= List.length (rev (list_ascii_of_string s)))%nat).
  { rewrite length_rev. rewrite <- (string_of_list_ascii_of_string s) in H.
    now rewrite length_string_of_list_ascii in H. }
  destruct (rev (list_ascii_of_string s)) as [|a [|c l]]; simpl in Hl;
    try lia.
  exists a. simpl. eexists. reflexivity.
Qed.

(** X14: the pattern that [horizontalMirror] returns for a pattern of
    three rows matches no neighbourhood, as soon as the first row has two
    characters or more: [join()] puts a comma between the characters, and
    no point matches a comma. *)
Theorem horizontalMirror_matches_nothing (pattern : list string)
  (neighborhood : list (list JsCell)) (player : GoColor) :
  List.length pattern = 3%nat ->
  (2 <= String.length (patternRow pattern 0))%nat ->
  checkMatch neighborhood (horizontalMirror pattern) player = false.
Proof.
  intros _ H. destruct (reverseJoin_comma _ H) as (a & rest & E).
  unfold checkMatch, horizontalMirror. rewrite E.
  assert (Hc : exists chars,
             list_ascii_of_string
               (String.concat ""
                  [String a (String "," rest);
                   reverseJoin (patternRow pattern 1);
                   reverseJoin (patternRow pattern 2)])
             = a :: ","%char :: chars)
    by (simpl; eexists; reflexivity).
  destruct Hc as [chars ->]. apply everyMatches_comma.
Qed.

Lemma horizontalMirror_matches_nothing_witness :
  List.length ["XOX"; "..."; "???"]%string = 3%nat
  /\ (2 <= String.length (patternRow ["XOX"; "..."; "???"]%string 0))%nat
  /\ checkMatch (getNeighborhood patternBoard 1 1)
       (horizontalMirror ["XOX"; "..."; "???"]%string) white = false.
Proof.
  split; [reflexivity|]. split; [simpl; lia|].
  apply (horizontalMirror_matches_nothing ["XOX"; "..."; "???"]%string
           (getNeighborhood patternBoard 1 1) white).
  - reflexivity.
  - simpl. lia.
Defined.

(** X15: on a pattern of three rows of three characters, four quarter
    turns, and two vertical mirrors, give the pattern back. *)
Theorem rotate90Degrees_four_times (pattern : list string) :
  threeByThree pattern = true ->
  rotate90Degrees
    (rotate90Degrees (rotate90Degrees (rotate90Degrees pattern))) = pattern
  /\ verticalMirror (verticalMirror pattern) = pattern.
Proof.
  destruct pattern as [|r0 [|r1 [|r2 [|r3 l]]]]; try discriminate.
  destruct r0 as [|a0 [|a1 [|a2 [|a3 r0]]]]; try discriminate.
  destruct r1 as [|b0 [|b1 [|b2 [|b3 r1]]]]; try discriminate.
  destruct r2 as [|c0 [|c1 [|c2 [|c3 r2]]]]; try discriminate.
  intros _. split; reflexivity.
Qed.

Lemma rotate90Degrees_four_times_witness :
  threeByThree ["XO?"; "X.."; "o.?"]%string = true
  /\ rotate90Degrees
       (rotate90Degrees
          (rotate90Degrees (rotate90Degrees ["XO?"; "X.."; "o.?"]%string)))
     = ["XO?"; "X.."; "o.?"]%string
  /\ verticalMirror (verticalMirror ["XO?"; "X.."; "o.?"]%string)
     = ["XO?"; "X.."; "o.?"]%string.
Proof.
  split; [reflexivity|].
  apply (rotate90Degrees_four_times ["XO?"; "X.."; "o.?"]%string).
  reflexivity.
Defined.

Lemma everyMatches_space (chars : list ascii) (cells : list JsCell)
  (player : GoColor) :
  (forall cell, In cell cells -> cell <> Null) ->
  forall index, In " "%char chars ->
  everyMatches chars cells index player = false.
Proof.
  intros Hcells. induction chars as [|c chars IH]; intros index Hin;
    [contradiction|].
  simpl. destruct Hin as [->|Hin].
  - replace (matches " " _ player) with false; [reflexivity|].
    unfold matches. simpl.
    destruct (nthZ cells index) as [cell|] eqn:E; [|reflexivity].
    apply nthZ_In in E. apply Hcells in E. now destruct cell.
  - rewrite (IH _ Hin). apply andb_false_r.
Qed.

Lemma fullBoard_cellAt (b : Board) (i j : Z) :
  fullBoard b = true -> cellAt b i j <> Null.
Proof.
  unfold fullBoard, cellAt. rewrite forallb_forall. intros H.
  destruct (nthZ b i) as [column|] eqn:Ec; [|discriminate].
  apply nthZ_In, H in Ec. rewrite forallb_forall in Ec.
  destruct (nthZ column j) as [[p|]|] eqn:Ej; try discriminate.
  apply nthZ_In, Ec in Ej. discriminate.
Qed.

(** X16: on a board without absent cells, a pattern with a space in it
    matches nowhere, not even along the border: a space only matches an
    absent cell ([null]), and a position beyond the border reads as
    [undefined]. *)
Theorem space_matches_absent_cells_only (board : Board)
  (pattern : list string) (player : GoColor) (x y : Z) :
  fullBoard board = true ->
  In " "%char (list_ascii_of_string (String.concat "" pattern)) ->
  checkMatch (getNeighborhood board x y) pattern player = false.
Proof.
  intros Hb Hin. unfold checkMatch. apply everyMatches_space; [|assumption].
  intros cell Hc. unfold getNeighborhood in Hc. simpl in Hc.
  repeat (destruct Hc as [<-|Hc]; [now apply fullBoard_cellAt|]).
  contradiction.
Qed.

Lemma space_matches_absent_cells_only_witness :
  fullBoard patternBoard = true
  /\ In " "%char
        (list_ascii_of_string
           (String.concat "" ["X.?"; "O.?"; "   "]%string))
  /\ checkMatch (getNeighborhood patternBoard 0 2)
       ["X.?"; "O.?"; "   "]%string white = false.
Proof.
  split; [vm_compute; reflexivity|]. split; [simpl; auto 10|].
  apply (space_matches_absent_cells_only patternBoard
           ["X.?"; "O.?"; "   "]%string white 0 2).
  - vm_compute. reflexivity.
  - simpl. auto 10.
Defined.

(** ** Valid moves *)

Lemma valid_point (bs : BoardState) (x y : Z) (player : GoColor)
  (shortcut : bool) :
  evaluateIfMoveIsValid bs x y player shortcut = valid ->
  exists previous point,
    bs_previousPlayer bs = Some previous /\ previous <> player
    /\ pointAt (bs_board bs) x y = Some point /\ p_color point = empty.
Proof.
  unfold evaluateIfMoveIsValid.
  destruct (bs_previousPlayer bs) as [previous|]; [|discriminate].
  destruct (GoColor_eqb previous player) eqn:Et; [discriminate|].
  destruct (pointAt (bs_board bs) x y) as [point|]; [|discriminate].
  destruct (GoColor_eqb (p_color point) empty) eqn:Ec; [|discriminate].
  intros _. exists previous, point. split; [reflexivity|]. split.
  - intros ->. now destruct player.
  - split; [reflexivity|]. now destruct (p_color point).
Qed.

(** X17: a move that [evaluateIfMoveIsValid] classifies as valid is on an
    empty point of the board, in a game that is not over, for a player who
    did not move last; on the slow path the stone played is moreover on the
    board that [evaluateMoveResult] returns. *)
Theorem evaluateIfMoveIsValid_valid (bs : BoardState) (x y : Z)
  (player : GoColor) (shortcut : bool) :
  evaluateIfMoveIsValid bs x y player shortcut = valid ->
  (exists previous point,
     bs_previousPlayer bs = Some previous /\ previous <> player
     /\ pointAt (bs_board bs) x y = Some point /\ p_color point = empty)
  /\ (shortcut = false -> stoneStays bs x y player = true).
Proof.
  intros H. split; [now apply (valid_point bs x y player shortcut)|].
  intros ->. revert H. unfold evaluateIfMoveIsValid, stoneStays.
  destruct (bs_previousPlayer bs) as [previous|]; [|discriminate].
  destruct (GoColor_eqb previous player); [discriminate|].
  destruct (pointAt (bs_board bs) x y) as [point|]; [|discriminate].
  destruct (negb (GoColor_eqb (p_color point) empty)); [discriminate|].
  destruct (colorIs _ (Some player)); [reflexivity | discriminate].
Qed.

Lemma evaluateIfMoveIsValid_valid_witness :
  evaluateIfMoveIsValid koState 2 3 black false = valid
  /\ (exists previous point,
        bs_previousPlayer koState = Some previous /\ previous <> black
        /\ pointAt (bs_board koState) 2 3 = Some point
        /\ p_color point = empty)
  /\ (false = false -> stoneStays koState 2 3 black = true).
Proof.
  split; [vm_compute; reflexivity|].
  apply (evaluateIfMoveIsValid_valid koState 2 3 black false).
  vm_compute. reflexivity.
Defined.

Lemma present_In_somes (b : Board) (x y : Z) (p : PointState) :
  pointAt b x y = Some p -> In p (somes (List.concat b)).
Proof. intros H. apply somes_In. eapply pointAt_In_concat. exact H. Qed.

(** X18: the spaces that [findDisputedTerritory] returns are empty points
    of the board, and [evaluateIfMoveIsValid] classifies each of them as
    valid on the fast path. *)
Theorem findDisputedTerritory_valid_empty (bs : BoardState)
  (player : GoColor) (excludeFriendlyEyes : bool) (q : PointState) :
  In q (findDisputedTerritory bs player excludeFriendlyEyes) ->
  In q (getEmptySpaces (bs_board bs))
  /\ In q (getAllValidMoves bs player)
  /\ evaluateIfMoveIsValid bs (p_x q) (p_y q) player true = valid.
Proof.
  intros H. split; [|split].
  - unfold findDisputedTerritory in H. apply filter_In in H as [H _].
    assert (Hv : In q (getAllValidMoves bs player)).
    { destruct excludeFriendlyEyes;
        [now apply filter_In in H as [H _] | assumption]. }
    unfold getAllValidMoves in Hv. now apply filter_In in Hv as [Hv _].
  - unfold findDisputedTerritory in H. apply filter_In in H as [H _].
    destruct excludeFriendlyEyes;
      [now apply filter_In in H as [H _] | assumption].
  - now apply (findDisputedTerritory_valid bs player excludeFriendlyEyes).
Qed.

Lemma findDisputedTerritory_valid_empty_witness :
  In (koPointAt 2 3) (findDisputedTerritory koState black true)
  /\ In (koPointAt 2 3) (getEmptySpaces (bs_board koState))
  /\ In (koPointAt 2 3) (getAllValidMoves koState black)
  /\ evaluateIfMoveIsValid koState (p_x (koPointAt 2 3)) (p_y (koPointAt 2 3))
       black true = valid.
Proof.
  assert (H : In (koPointAt 2 3) (findDisputedTerritory koState black true))
    by (vm_compute; auto 30).
  split; [exact H|].
  exact (findDisputedTerritory_valid_empty koState black true (koPointAt 2 3)
           H).
Defined.

(** ** The moves that [getMove] answers *)

Lemma corner_point_empty (b : Board) (x1 y1 x2 y2 cx cy : Z)
  (p : PointState) :
  wfBoard b -> isCornerAvailableForMove b x1 y1 x2 y2 = true ->
  pointAt b cx cy = Some p ->
  x1 <= cx <= x2 -> y1 <= cy <= y2 ->
  p_color p = empty.
Proof.
  intros Hwf Hav Hp Hx Hy. unfold isCornerAvailableForMove in Hav.
  destruct (7 <=? lengthZ (findLiveNodesInArea b x1 y1 x2 y2));
    [|discriminate].
  destruct (Hwf _ _ _ Hp) as [Hpx Hpy].
  assert (Hin : In p (findLiveNodesInArea b x1 y1 x2 y2)).
  { apply filter_In. split; [now apply (present_In_somes b cx cy)|].
    rewrite Hpx, Hpy.
    destruct (Z.leb_spec x1 cx), (Z.leb_spec cx x2), (Z.leb_spec y1 cy),
      (Z.leb_spec cy y2); (reflexivity || lia). }
  destruct (GoColor_eqb (p_color p) empty) eqn:Ec;
    [now destruct (p_color p)|].
  exfalso.
  assert (Hpiece : In p (filter (fun point =>
                                   negb (GoColor_eqb (p_color point) empty))
                           (findLiveNodesInArea b x1 y1 x2 y2)))
    by (apply filter_In; split; [assumption | now rewrite Ec]).
  destruct (filter _ (findLiveNodesInArea b x1 y1 x2 y2)); [contradiction|].
  unfold lengthZ in Hav. simpl List.length in Hav.
  apply Z.eqb_eq in Hav. lia.
Qed.

(** Where the point that [getCornerMove] answers is read. *)
Lemma getCornerMove_cases (b : Board) (p : PointState) :
  getCornerMove b = Some p ->
  exists x1 y1 x2 y2 cx cy,
    isCornerAvailableForMove b x1 y1 x2 y2 = true
    /\ pointAt b cx cy = Some p
    /\ x1 <= cx <= x2 /\ y1 <= cy <= y2
    /\ In cx [firstColumnLength b - 3; 2]
    /\ In cy [firstColumnLength b - 3; 2].
Proof.
  unfold getCornerMove.
  set (boardEdge := firstColumnLength b - 1).
  set (cornerMax := boardEdge - 2).
  assert (Hmax : cornerMax = firstColumnLength b - 3)
    by (unfold cornerMax, boardEdge; lia).
  destruct (isCornerAvailableForMove b cornerMax cornerMax boardEdge boardEdge)
    eqn:E1.
  { intros H. exists cornerMax, cornerMax, boardEdge, boardEdge.
    exists cornerMax, cornerMax. rewrite <- Hmax.
    repeat split; try assumption; try (unfold cornerMax; lia); now left. }
  destruct (isCornerAvailableForMove b 0 cornerMax 2 boardEdge) eqn:E2.
  { intros H. exists 0, cornerMax, 2, boardEdge, 2, cornerMax.
    rewrite <- Hmax.
    repeat split; try assumption; try (unfold cornerMax; lia);
      [right; now left | now left]. }
  destruct (isCornerAvailableForMove b 0 0 2 2) eqn:E3.
  { intros H. exists 0, 0, 2, 2, 2, 2.
    repeat split; try assumption; try lia; right; now left. }
  destruct (isCornerAvailableForMove b cornerMax 0 boardEdge 2) eqn:E4;
    [|discriminate].
  intros H. exists cornerMax, 0, boardEdge, 2, cornerMax, 2. rewrite <- Hmax.
  repeat split; try assumption; try (unfold cornerMax; lia);
    [now left | right; now left].
Qed.

Lemma getCornerMove_point (b : Board) (p : PointState) :
  wfBoard b -> getCornerMove b = Some p ->
  p_color p = empty /\ pointAt b (p_x p) (p_y p) = Some p.
Proof.
  intros Hwf H.
  destruct (getCornerMove_cases b p H)
    as (x1 & y1 & x2 & y2 & cx & cy & Hav & Hp & Hx & Hy & _).
  split; [now apply (corner_point_empty b x1 y1 x2 y2 cx cy)|].
  now destruct (Hwf _ _ _ Hp) as [-> ->].
Qed.

(** X19: on a valid board, the point that [getCornerMove] answers is an
    empty point of the board, and each of its coordinates is 2 or the
    length of the first column minus 3. *)
Theorem getCornerMove_empty (b : Board) (p : PointState) :
  wfBoard b -> getCornerMove b = Some p ->
  p_color p = empty /\ pointAt b (p_x p) (p_y p) = Some p
  /\ In (p_x p) [firstColumnLength b - 3; 2]
  /\ In (p_y p) [firstColumnLength b - 3; 2].
Proof.
  intros Hwf H.
  destruct (getCornerMove_cases b p H)
    as (x1 & y1 & x2 & y2 & cx & cy & Hav & Hp & Hx & Hy & Hcx & Hcy).
  destruct (Hwf _ _ _ Hp) as [Epx Epy].
  split; [now apply (corner_point_empty b x1 y1 x2 y2 cx cy)|].
  rewrite Epx, Epy. repeat split; assumption.
Qed.

Lemma getCornerMove_empty_witness :
  wfBoard (bs_board cornerTrapState)
  /\ getCornerMove (bs_board cornerTrapState)
     = Some (orElse (pointAt (bs_board cornerTrapState) 2 2)
                    (blankPointState empty 2 2))
  /\ p_color (orElse (pointAt (bs_board cornerTrapState) 2 2)
                     (blankPointState empty 2 2)) = empty
  /\ pointAt (bs_board cornerTrapState)
       (p_x (orElse (pointAt (bs_board cornerTrapState) 2 2)
                    (blankPointState empty 2 2)))
       (p_y (orElse (pointAt (bs_board cornerTrapState) 2 2)
                    (blankPointState empty 2 2)))
     = Some (orElse (pointAt (bs_board cornerTrapState) 2 2)
                    (blankPointState empty 2 2))
  /\ In (p_x (orElse (pointAt (bs_board cornerTrapState) 2 2)
                     (blankPointState empty 2 2)))
        [firstColumnLength (bs_board cornerTrapState) - 3; 2]
  /\ In (p_y (orElse (pointAt (bs_board cornerTrapState) 2 2)
                     (blankPointState empty 2 2)))
        [firstColumnLength (bs_board cornerTrapState) - 3; 2].
Proof.
  split; [apply wfBoardb_wfBoard; vm_compute; reflexivity|].
  split; [vm_compute; reflexivity|].
  apply (getCornerMove_empty (bs_board cornerTrapState)).
  - apply wfBoardb_wfBoard. vm_compute. reflexivity.
  - vm_compute. reflexivity.
Defined.

Lemma getMove_not_gameOver (rng : nat -> Q) (bs : BoardState)
  (player : GoColor) (opponent : GoOpponent) :
  getMove rng bs player opponent <> PlayGameOver.
Proof.
  unfold getMove. destruct (getFactionMove _ _ _); [discriminate|].
  destruct (pick _ _); discriminate.
Qed.

(** X20: on a valid board, a move that [getMove] answers is on an empty
    point of the board; it is a move that [evaluateIfMoveIsValid] classifies
    as valid on the fast path, or the point of [getCornerMove]. *)
Theorem getMove_answers_empty_point (rng : nat -> Q) (bs : BoardState)
  (player : GoColor) (opponent : GoOpponent) (x y : Z) :
  wfBoard (bs_board bs) ->
  getMove rng bs player opponent = PlayMove x y ->
  (exists p, pointAt (bs_board bs) x y = Some p /\ p_color p = empty)
  /\ (evaluateIfMoveIsValid bs x y player true = valid
      \/ exists p, getCornerMove (bs_board bs) = Some p /\ refOf p = (x, y)).
Proof.
  intros Hwf Hm.
  pose proof (getMove_valid_or_corner rng bs player opponent x y Hwf Hm) as H.
  split; [|exact H]. destruct H as [H|(p & Hc & Hr)].
  - apply valid_point in H as (_ & p & _ & _ & Hp & Hcol). now exists p.
  - exists p. destruct (getCornerMove_point _ p Hwf Hc) as [Hcol Hp].
    injection Hr as <- <-. now split.
Qed.

Lemma getMove_answers_empty_point_witness :
  wfBoard (bs_board koState)
  /\ getMove half koState black Illuminati = PlayMove 2 3
  /\ (exists p, pointAt (bs_board koState) 2 3 = Some p /\ p_color p = empty)
  /\ (evaluateIfMoveIsValid koState 2 3 black true = valid
      \/ exists p, getCornerMove (bs_board koState) = Some p
                   /\ refOf p = (2, 3)).
Proof.
  split; [apply wfBoardb_wfBoard; vm_compute; reflexivity|].
  split; [vm_compute; reflexivity|].
  apply (getMove_answers_empty_point half koState black Illuminati 2 3).
  - apply wfBoardb_wfBoard. vm_compute. reflexivity.
  - vm_compute. reflexivity.
Defined.

(** X21: a move that [get_move] answers for a SimpleBoard is on a point
    that the SimpleBoard gives as empty. *)
Theorem get_move_empty_point (rng : nat -> Q) (simpleBoard : SimpleBoard)
  (ai : GoOpponent) (player : GoColor) (x y : Z) :
  get_move rng simpleBoard ai player = PlayMove x y ->
  colorAt (boardFromSimpleBoard simpleBoard) (x, y) = Some empty.
Proof.
  unfold get_move. intros Hm.
  set (bs := boardStateFromSimpleBoard simpleBoard ai) in *.
  assert (Hwf : wfBoard (bs_board bs))
    by apply wfBoard_updateChains, wfBoard_boardFromSimpleBoard.
  pose proof (getMove_valid_or_corner rng bs player ai x y Hwf Hm) as H.
  assert (Hp : exists p, pointAt (bs_board bs) x y = Some p
                         /\ p_color p = empty).
  { destruct H as [H|(p & Hc & Hr)].
    - apply valid_point in H as (_ & p & _ & _ & Hp & Hcol). now exists p.
    - exists p. destruct (getCornerMove_point _ p Hwf Hc) as [Hcol Hp].
      injection Hr as <- <-. now split. }
  destruct Hp as (p & Hp & Hcol).
  rewrite <- (stones_colorAt (bs_board bs) (boardFromSimpleBoard simpleBoard))
    by apply stones_updateChains.
  unfold colorAt. cbn [fst snd]. rewrite Hp. simpl. now rewrite Hcol.
Qed.

Lemma get_move_empty_point_witness :
  get_move half ["X.O"; "..."; "O.X"]%string Illuminati black = PlayMove 1 2
  /\ colorAt (boardFromSimpleBoard ["X.O"; "..."; "O.X"]%string) (1, 2)
     = Some empty.
Proof.
  split; [vm_compute; reflexivity|].
  apply (get_move_empty_point half ["X.O"; "..."; "O.X"]%string Illuminati
           black 1 2).
  vm_compute. reflexivity.
Defined.

(** X22: on a valid board with a column at least that was analysed by
    [updateChains], when no empty point is a valid move and [getCornerMove]
    has no point to offer, [getMove] passes. *)
Theorem getMove_passes (rng : nat -> Q) (bs : BoardState) (b : Board)
  (player : GoColor) (opponent : GoOpponent) :
  wfBoard b -> b <> [] -> bs_board bs = updateChains b true ->
  getAllValidMoves bs player = [] ->
  getCornerMove (bs_board bs) = None ->
  getMove rng bs player opponent = PlayPass.
Proof.
  intros Hwfb _ Hb Hnone Hcorner.
  assert (Hwf : wfBoard (bs_board bs))
    by (rewrite Hb; now apply wfBoard_updateChains).
  destruct (getMove rng bs player opponent) as [x y| |] eqn:Hm;
    [|reflexivity|now apply getMove_not_gameOver in Hm].
  exfalso.
  destruct (getMove_valid_or_corner rng bs player opponent x y Hwf Hm)
    as [H|(p & Hc & _)]; [|congruence].
  pose proof H as Hv.
  apply valid_point in H as (_ & p & _ & _ & Hp & Hcol).
  destruct (Hwf _ _ _ Hp) as [Hx Hy].
  assert (Hin : In p (getAllValidMoves bs player)); [|now rewrite Hnone in Hin].
  apply filter_In. split.
  - apply filter_In. split; [now apply (present_In_somes _ x y)|].
    now rewrite Hcol.
  - now rewrite Hx, Hy, Hv.
Qed.

Lemma getMove_passes_witness :
  wfBoard (boardFromSimpleBoard ["X.."; "..."; "..."]%string)
  /\ boardFromSimpleBoard ["X.."; "..."; "..."]%string <> []
  /\ bs_board turnState
     = updateChains (boardFromSimpleBoard ["X.."; "..."; "..."]%string) true
  /\ getAllValidMoves turnState black = []
  /\ getCornerMove (bs_board turnState) = None
  /\ getMove half turnState black Illuminati = PlayPass.
Proof.
  split; [apply wfBoard_boardFromSimpleBoard|].
  split; [vm_compute; discriminate|]. split; [reflexivity|].
  split; [vm_compute; reflexivity|]. split; [vm_compute; reflexivity|].
  apply (getMove_passes half turnState
           (boardFromSimpleBoard ["X.."; "..."; "..."]%string) black
           Illuminati).
  - apply wfBoard_boardFromSimpleBoard.
  - vm_compute. discriminate.
  - reflexivity.
  - vm_compute. reflexivity.
  - vm_compute. reflexivity.
Defined.

(** ** The move generators *)

Lemma fold_max_spec (l : list Z) :
  forall a,
    (fold_left Z.max l a = a \/ In (fold_left Z.max l a) l)
    /\ a <= fold_left Z.max l a
    /\ forall x, In x l -> x <= fold_left Z.max l a.
Proof.
  induction l as [|b l IH]; intros a; simpl.
  - split; [now left|]. split; [lia | intros x []].
  - destruct (IH (Z.max a b)) as (Hin & Hle & Hall). split; [|split].
    + destruct Hin as [E|Hin]; [|now right; right].
      rewrite E. destruct (Z.max_spec a b) as [[_ ->]|[_ ->]];
        [right; now left | now left].
    + lia.
    + intros x [<-|Hx]; [lia | now apply Hall].
Qed.

Lemma maxOf_spec (l : list Z) (m : Z) :
  maxOf l = Some m -> In m l /\ forall x, In x l -> x <= m.
Proof.
  destruct l as [|a l]; [discriminate|]. simpl. intros [= <-].
  destruct (fold_max_spec l a) as (Hin & Hle & Hall). split.
  - destruct Hin as [->|Hin]; [now left | now right].
  - intros x [<-|Hx]; [assumption | now apply Hall].
Qed.

Lemma getLibertyGrowthMoves_grows (board : Board) (player : GoColor)
  (availableSpaces : list PointState) (l : GrowthMove) :
  In l (getLibertyGrowthMoves board player availableSpaces) ->
  1 < g_newLibertyCount l /\ g_oldLibertyCount l <= g_newLibertyCount l.
Proof.
  unfold getLibertyGrowthMoves.
  destruct (lengthZ _ =? 0); [intros []|].
  intros H. apply filter_In in H as [_ H]. apply andb_prop in H as [H1 H2].
  apply Z.ltb_lt in H1. apply Z.leb_le in H2. now split.
Qed.

(** X23: the move that [getGrowthMove] answers is one of the moves of
    [getLibertyGrowthMoves], it leaves the chain with two liberties or
    more and not fewer than before, and no move of [getLibertyGrowthMoves]
    gains more liberties. *)
Theorem getGrowthMove_best (board : Board) (player : GoColor)
  (availableSpaces : list PointState) (rng : Q) (m : Move) :
  getGrowthMove board player availableSpaces rng = Some m ->
  exists l,
    In l (getLibertyGrowthMoves board player availableSpaces)
    /\ m = moveOfGrowthMove l
    /\ 1 < g_newLibertyCount l
    /\ g_oldLibertyCount l <= g_newLibertyCount l
    /\ forall l', In l' (getLibertyGrowthMoves board player availableSpaces) ->
                  gain l' <= gain l.
Proof.
  unfold getGrowthMove.
  set (growthMoves := getLibertyGrowthMoves board player availableSpaces).
  destruct (pick _ rng) as [l|] eqn:Ep; [|discriminate].
  intros [= <-]. apply pick_In, filter_In in Ep as [Hl Hmax].
  exists l. split; [assumption|]. split; [reflexivity|].
  destruct (getLibertyGrowthMoves_grows _ _ _ l Hl) as [H1 H2].
  split; [assumption|]. split; [assumption|].
  destruct (maxOf (map gain growthMoves)) as [mx|] eqn:Em; [|discriminate].
  apply Z.eqb_eq in Hmax. apply maxOf_spec in Em as [_ Hall].
  intros l' Hl'. rewrite Hmax. apply Hall. now apply in_map.
Qed.

(** X24: the move that [getDefendMove] answers is a move of
    [getLibertyGrowthMoves] for a chain with one liberty at most that gains
    a liberty at least, and no such move gains more. *)
Theorem getDefendMove_best (board : Board) (player : GoColor)
  (availableSpaces : list PointState) (rng : Q) (m : Move) :
  getDefendMove board player availableSpaces rng = Some m ->
  exists l,
    In l (getLibertyGrowthMoves board player availableSpaces)
    /\ m = moveOfGrowthMove l
    /\ g_oldLibertyCount l <= 1
    /\ g_oldLibertyCount l < g_newLibertyCount l
    /\ forall l', In l' (getLibertyGrowthMoves board player availableSpaces) ->
                  g_oldLibertyCount l' <= 1 ->
                  g_oldLibertyCount l' < g_newLibertyCount l' ->
                  gain l' <= gain l.
Proof.
  unfold getDefendMove.
  set (growthMoves := getLibertyGrowthMoves board player availableSpaces).
  set (libertyIncreases := filter _ growthMoves).
  destruct (maxOf (map gain libertyIncreases)) as [mx|] eqn:Em;
    [|discriminate].
  destruct (mx <? 1); [discriminate|].
  destruct (pick _ rng) as [l|] eqn:Ep; [|discriminate].
  intros [= <-]. apply pick_In, filter_In in Ep as [Hl Hmax].
  apply filter_In in Hl as [Hl Hc]. apply andb_prop in Hc as [H1 H2].
  apply Z.leb_le in H1. apply Z.ltb_lt in H2. apply Z.eqb_eq in Hmax.
  exists l. split; [assumption|]. split; [reflexivity|].
  split; [assumption|]. split; [assumption|].
  apply maxOf_spec in Em as [_ Hall].
  intros l' Hl' H1' H2'. rewrite Hmax. apply Hall. apply in_map.
  apply filter_In. split; [assumption|].
  apply andb_true_intro. split; [now apply Z.leb_le | now apply Z.ltb_lt].
Qed.

Lemma life_first {A} (f : A -> bool) (L : list A) (m m' : A) :
  hd_error (filter f L ++ filter (fun x => negb (f x)) L) = Some m ->
  In m' L -> f m' = true -> f m = true.
Proof.
  intros Hhd Hin Hf.
  assert (Hm' : In m' (filter f L)) by (apply filter_In; now split).
  destruct (filter f L) as [|a l] eqn:E; [contradiction|].
  simpl in Hhd. injection Hhd as <-.
  assert (Ha : In a (filter f L)) by (rewrite E; now left).
  now apply filter_In in Ha as [_ Ha].
Qed.

(** X25: when one of the moves that [getEyeCreationMoves] finds creates
    life, the move that [getEyeCreationMove] answers creates life. *)
Theorem getEyeCreationMove_life_first (board : Board) (player : GoColor)
  (availableSpaces : list PointState) (m m' : EyeMove) :
  getEyeCreationMove board player availableSpaces = Some m ->
  In m' (getEyeCreationMoves board player availableSpaces 99) ->
  em_createsLife m' = true ->
  em_createsLife m = true.
Proof.
  unfold getEyeCreationMove, getEyeCreationMoves.
  set (L := fold_left _ _ []). intros Hhd Hin Hlife.
  apply (life_first em_createsLife L m m' Hhd); [|assumption].
  apply in_app_iff in Hin as [Hin|Hin]; now apply filter_In in Hin as [Hin _].
Qed.

Lemma getGrowthMove_best_witness :
  getGrowthMove atariBoard black (getEmptySpaces atariBoard) (1 # 2)
  = Some growthAnswer
  /\ exists l,
       In l (getLibertyGrowthMoves atariBoard black
               (getEmptySpaces atariBoard))
       /\ growthAnswer = moveOfGrowthMove l
       /\ 1 < g_newLibertyCount l
       /\ g_oldLibertyCount l <= g_newLibertyCount l
       /\ forall l',
            In l' (getLibertyGrowthMoves atariBoard black
                     (getEmptySpaces atariBoard)) ->
            gain l' <= gain l.
Proof.
  split; [vm_compute; reflexivity|].
  apply (getGrowthMove_best atariBoard black (getEmptySpaces atariBoard)
           (1 # 2) growthAnswer).
  vm_compute. reflexivity.
Defined.

Lemma getDefendMove_best_witness :
  getDefendMove atariBoard black (getEmptySpaces atariBoard) (1 # 2)
  = Some defendAnswer
  /\ exists l,
       In l (getLibertyGrowthMoves atariBoard black
               (getEmptySpaces atariBoard))
       /\ defendAnswer = moveOfGrowthMove l
       /\ g_oldLibertyCount l <= 1
       /\ g_oldLibertyCount l < g_newLibertyCount l
       /\ forall l',
            In l' (getLibertyGrowthMoves atariBoard black
                     (getEmptySpaces atariBoard)) ->
            g_oldLibertyCount l' <= 1 ->
            g_oldLibertyCount l' < g_newLibertyCount l' ->
            gain l' <= gain l.
Proof.
  split; [vm_compute; reflexivity|].
  apply (getDefendMove_best atariBoard black (getEmptySpaces atariBoard)
           (1 # 2) defendAnswer).
  vm_compute. reflexivity.
Defined.

Lemma getEyeCreationMove_life_first_witness :
  getEyeCreationMove eyeBoard black (getEmptySpaces eyeBoard) = Some eyeAnswer
  /\ In eyeAnswer
        (getEyeCreationMoves eyeBoard black (getEmptySpaces eyeBoard) 99)
  /\ em_createsLife eyeAnswer = true
  /\ em_createsLife eyeAnswer = true.
Proof.
  assert (H1 : getEyeCreationMove eyeBoard black (getEmptySpaces eyeBoard)
               = Some eyeAnswer) by (vm_compute; reflexivity).
  assert (H2 : In eyeAnswer
                  (getEyeCreationMoves eyeBoard black
                     (getEmptySpaces eyeBoard) 99))
    by (vm_compute; auto).
  assert (H3 : em_createsLife eyeAnswer = true) by (vm_compute; reflexivity).
  split; [exact H1|]. split; [exact H2|]. split; [exact H3|].
  exact (getEyeCreationMove_life_first eyeBoard black
           (getEmptySpaces eyeBoard) eyeAnswer eyeAnswer H1 H2 H3).
Defined.

(** ** The liberties of a move *)

Lemma sameRef_eq (a c : Ref) : sameRef a c = true <-> a = c.
Proof.
  unfold sameRef. destruct a, c. simpl. rewrite andb_true_iff, !Z.eqb_eq.
  split; [intros [-> ->]; reflexivity | intros [= -> ->]; now split].
Qed.

Lemma firstOccurrences_spec (l : list Ref) :
  forall seen,
    NoDup (firstOccurrences seen l)
    /\ forall a, In a (firstOccurrences seen l)
                 <-> In a l /\ ~ In a seen.
Proof.
  induction l as [|c l IH]; intros seen; simpl.
  - split; [constructor|]. intros a. tauto.
  - destruct (existsb (sameRef c) seen) eqn:E.
    + destruct (IH seen) as [Hnd Hin]. split; [assumption|].
      intros a. rewrite Hin. split; [tauto|].
      intros [[<-|Ha] Hn]; [|tauto]. exfalso. apply Hn.
      apply existsb_exists in E as (d & Hd & Hs).
      apply sameRef_eq in Hs. now subst d.
    + assert (Hc : ~ In c seen).
      { intros Hc. assert (Ht : existsb (sameRef c) seen = true);
          [|congruence].
        apply existsb_exists. exists c. split; [assumption|].
        now apply sameRef_eq. }
      destruct (IH (seen ++ [c])) as [Hnd Hin]. split.
      * constructor; [|assumption]. rewrite Hin. intros [_ Hn].
        apply Hn. apply in_app_iff. right. now left.
      * intros a. simpl. rewrite Hin, in_app_iff. simpl. split.
        -- intros [<-|[Ha Hn]]; [split; [now left | assumption]|].
           split; [now right | tauto].
        -- intros [Ha Hn]. destruct (sameRef c a) eqn:Es.
           ++ left. now apply sameRef_eq.
           ++ right. destruct Ha as [Ha|Ha].
              ** apply sameRef_eq in Ha. congruence.
              ** split; [assumption|]. intros [H|[H|[]]]; [tauto|].
                 apply sameRef_eq in H. congruence.
Qed.

(** X26: the liberties that [findEffectiveLibertiesOfNewMove] counts for a
    move at [(x, y)] are distinct and do not include [(x, y)]; every empty
    neighbour of [(x, y)] other than [(x, y)] is one of them. *)
Theorem findEffectiveLibertiesOfNewMove_distinct (board : Board) (x y : Z)
  (player : GoColor) :
  NoDup (findEffectiveLibertiesOfNewMove board x y player)
  /\ ~ In (x, y) (findEffectiveLibertiesOfNewMove board x y player)
  /\ forall q,
       In q (getArrayFromNeighbor (findNeighbors board x y)) ->
       p_color q = empty -> refOf q <> (x, y) ->
       In (refOf q) (findEffectiveLibertiesOfNewMove board x y player).
Proof.
  unfold findEffectiveLibertiesOfNewMove.
  set (neighbors :=
         findAdjacentLibertiesAndAlliesForPoint board x y (Some player)).
  set (neighborPoints := somes [north neighbors; east neighbors;
                                south neighbors; west neighbors]).
  set (chainLiberties := List.concat _).
  set (allLiberties := map refOf _ ++ chainLiberties).
  destruct (firstOccurrences_spec allLiberties []) as [Hnd Hin].
  split; [now apply NoDup_filter|]. split.
  - intros H. apply filter_In in H as [_ H]. simpl in H.
    now rewrite !Z.eqb_refl in H.
  - intros q Hq Hcol Hne. apply filter_In. split.
    + apply Hin. split; [|intros []]. apply in_app_iff. left.
      apply in_map. apply filter_In. split; [|now rewrite Hcol].
      unfold getArrayFromNeighbor in Hq. apply somes_In in Hq.
      unfold neighborPoints. apply somes_In.
      unfold neighbors, findAdjacentLibertiesAndAlliesForPoint,
        findAdjacentLibertiesForPoint.
      cbn [north east south west In] in *.
      destruct Hq as [Hq|[Hq|[Hq|[Hq|[]]]]]; rewrite Hq; simpl;
        rewrite Hcol; simpl; tauto.
    + unfold refOf in *. simpl.
      destruct (Z.eqb_spec (p_x q) x) as [Ex|Ex];
        destruct (Z.eqb_spec (p_y q) y) as [Ey|Ey]; try reflexivity.
      exfalso. apply Hne. now rewrite Ex, Ey.
Qed.

(** ** Liberties and the stone that was played *)

(** X27: on a valid board, after [updateChains] an empty point lists no
    liberties: the empty points next to its chain are points of the
    chain. *)
Theorem updateChains_empty_point (b : Board) (a : Z * Z) (p : PointState) :
  wfBoard b ->
  pointAt (updateChains b true) (fst a) (snd a) = Some p ->
  p_color p = empty ->
  p_liberties p = Some [].
Proof.
  intros Hwf Hp Hcol.
  destruct (updateChains_libertyOf b a p Hwf Hp) as (libs & Hl & _ & Hlibs).
  rewrite Hl. f_equal. destruct libs as [|r libs]; [reflexivity|].
  exfalso. destruct (Hlibs r) as [H _].
  destruct (H (or_introl eq_refl)) as (Hr & Hout & c & Hs & Hadj).
  apply Hout. eapply sameChain_trans; [exact Hs|]. apply rt_step.
  split; [assumption|]. exists empty. split; [|assumption].
  pose proof (updateChains_colorAt b a p Hp) as Ha. rewrite Hcol in Ha.
  apply sameChain_color in Hs as [<-|(col & E1 & E2)]; congruence.
Qed.

Lemma updateChains_empty_point_witness :
  wfBoard exampleBoard
  /\ pointAt (updateChains exampleBoard true) (fst (1, 1)) (snd (1, 1))
     = Some (examplePointAt 1 1)
  /\ p_color (examplePointAt 1 1) = empty
  /\ p_liberties (examplePointAt 1 1) = Some [].
Proof.
  split; [apply wfBoardb_wfBoard; vm_compute; reflexivity|].
  split; [vm_compute; reflexivity|]. split; [vm_compute; reflexivity|].
  apply (updateChains_empty_point exampleBoard (1, 1) (examplePointAt 1 1)).
  - apply wfBoardb_wfBoard. vm_compute. reflexivity.
  - vm_compute. reflexivity.
  - vm_compute. reflexivity.
Defined.

Lemma hasLiberty_neighbor (b : Board) (x y : Z) :
  hasLiberty b x y = true ->
  exists r, adjacent (x, y) r /\ colorAt b r = Some empty.
Proof.
  unfold hasLiberty, findAdjacentLibertiesForPoint, findNeighbors.
  cbn [north east south west]. intros H.
  assert (Hcase : forall u v,
            isSome (if isEmptyPoint (pointAt b u v) then pointAt b u v
                    else None) = true ->
            colorAt b (u, v) = Some empty).
  { intros u v. unfold colorAt, isEmptyPoint. cbn [fst snd].
    destruct (pointAt b u v) as [q|]; [|discriminate]. simpl.
    destruct (p_color q); try discriminate. reflexivity. }
  repeat (apply orb_prop in H as [H|H]).
  - exists (x, y + 1). split; [left; now split | now apply Hcase].
  - exists (x + 1, y). split; [right; left; now split | now apply Hcase].
  - exists (x, y - 1).
    split; [right; right; left; now split | now apply Hcase].
  - exists (x - 1, y).
    split; [right; right; right; now split | now apply Hcase].
Qed.

Lemma adjacent_neq (a c : Z * Z) : adjacent a c -> a <> c.
Proof.
  intros H ->. unfold adjacent in H. lia.
Qed.

(** A stone played next to an empty point is not captured. *)
Lemma stone_with_liberty_stays (b : Board) (x y : Z) (player : GoColor)
  (point : PointState) :
  wfBoard b -> player <> empty -> pointAt b x y = Some point ->
  hasLiberty b x y = true ->
  colorAt (evaluateMoveResult b x y player true) (x, y) = Some player.
Proof.
  intros Hwf Hpl Hp Hlib. rewrite evaluateMoveResult_eq, Hp.
  pose proof (colorAt_placeStone b x y player point) as Hcolor.
  set (b' := placeStone b x y player point) in *.
  assert (Hwf' : wfBoard b')
    by (apply (layout_wfBoard b' b); [apply layout_placeStone | assumption]).
  pose proof (analysed_wf b' Hwf') as Hwf1.
  assert (Hxy : colorAt b' (x, y) = Some player)
    by (rewrite (Hcolor (x, y) Hp); simpl; now rewrite !Z.eqb_refl).
  destruct (hasLiberty_neighbor b x y Hlib) as (r0 & Hadj & Hr0).
  assert (Hr0' : colorAt b' r0 = Some empty).
  { rewrite (Hcolor r0 Hp).
    destruct ((x =? fst r0) && (y =? snd r0)) eqn:E; [|assumption].
    apply andb_prop in E as [Ex Ey]. apply Z.eqb_eq in Ex, Ey.
    exfalso. apply (adjacent_neq _ _ Hadj). destruct r0; simpl in *.
    congruence. }
  assert (Hliberty : libertyOf b' (x, y) r0).
  { split; [assumption|]. split; [|exists (x, y); split; [apply rt_refl|]];
      [|assumption].
    intros Hs. apply sameChain_color in Hs as [E|(col & E1 & E2)].
    - now apply (adjacent_neq _ _ Hadj).
    - congruence. }
  rewrite updateCaptures_colorAt.
  assert (Hp1 : exists p1, pointAt (updateChains b' true) x y = Some p1).
  { rewrite <- (stones_colorAt (updateChains b' true) b') in Hxy
      by apply stones_updateChains.
    unfold colorAt in Hxy. cbn [fst snd] in Hxy.
    destruct (pointAt (updateChains b' true) x y) as [p1|];
      [now exists p1 | discriminate]. }
  destruct Hp1 as [p1 Hp1].
  destruct (captured_colorAt b' Hwf' player (x, y) p1 Hp1)
    as (c & Hc & Hin & Hcol).
  unfold capturedBoard in Hcol. rewrite Hcol.
  pose proof (updateChains_colorAt b' (x, y) p1 Hp1) as Hp1c.
  rewrite Hxy in Hp1c. injection Hp1c as Hp1c.
  assert (Hzero : forall col, zeroLibertyChain col c = false).
  { intros col. unfold zeroLibertyChain, chainHead.
    destruct c as [|h c']; [contradiction|]. simpl.
    assert (Hh : In h (h :: c')) by now left.
    pose proof (getAllChains_onBoard _ _ h Hwf1 Hc Hh) as Hon.
    pose proof (getAllChains_member_id _ _ h p1 Hc Hh Hin) as Hid.
    assert (Hs : sameChain b' (refOf h) (x, y))
      by (apply (updateChains_same_id b' (refOf h) (x, y) h p1 Hwf' Hon Hp1);
          exact Hid).
    destruct (updateChains_libertyOf b' (refOf h) h Hwf' Hon)
      as (libs & Hl & _ & Hlibs).
    unfold libertyCount. rewrite Hl. simpl.
    assert (Hr : In r0 libs).
    { apply Hlibs.
      apply (libertyOf_chain b' (x, y) (refOf h) r0); [|assumption].
      now apply sameChain_sym. }
    destruct libs as [|r libs]; [contradiction|].
    unfold lengthZ. simpl List.length.
    destruct (Z.eqb_spec (Z.of_nat (S (List.length libs))) 0); [lia|].
    apply andb_false_r. }
  unfold capturedChain. rewrite <- Hp1c.
  destruct (existsb _ _); now rewrite Hzero.
Qed.

(** X28: on a valid board, a move on an empty point that has an empty
    neighbour, for a colour that no earlier board shows at that point, is
    valid on the fast path and on the slow path alike: the stone played has
    a liberty, and [updateCaptures] leaves it on the board. *)
Theorem hasLiberty_valid_on_both_paths (bs : BoardState) (x y : Z)
  (player previous : GoColor) (point : PointState) (shortcut : bool) :
  wfBoard (bs_board bs) -> player <> empty ->
  bs_previousPlayer bs = Some previous -> previous <> player ->
  pointAt (bs_board bs) x y = Some point -> p_color point = empty ->
  possibleRepeat bs x y player = false ->
  hasLiberty (bs_board bs) x y = true ->
  evaluateIfMoveIsValid bs x y player shortcut = valid.
Proof.
  intros Hwf Hpl Hprev Hturn Hp Hcol Hrep Hlib.
  pose proof (stone_with_liberty_stays (bs_board bs) x y player point
                Hwf Hpl Hp Hlib) as Hstay.
  unfold evaluateIfMoveIsValid. rewrite Hprev, Hp, Hcol.
  replace (GoColor_eqb previous player) with false
    by (destruct previous, player; simpl; congruence).
  cbn [GoColor_eqb negb].
  unfold possibleRepeat in Hrep. rewrite Hrep.
  unfold hasLiberty in Hlib. rewrite Hlib.
  assert (Hslow :
    colorIs (pointAt (evaluateMoveResult (bs_board bs) x y player true) x y)
            (Some player) = true).
  { unfold colorAt in Hstay. cbn [fst snd] in Hstay.
    destruct (pointAt (evaluateMoveResult (bs_board bs) x y player true) x y)
      as [q|]; [|discriminate].
    injection Hstay as E. simpl. rewrite E. now destruct player. }
  rewrite Hslow. now destruct shortcut.
Qed.

Lemma hasLiberty_valid_on_both_paths_witness :
  wfBoard (bs_board koState) /\ black <> empty
  /\ bs_previousPlayer koState = Some white /\ white <> black
  /\ pointAt (bs_board koState) 2 3 = Some (koPointAt 2 3)
  /\ p_color (koPointAt 2 3) = empty
  /\ possibleRepeat koState 2 3 black = false
  /\ hasLiberty (bs_board koState) 2 3 = true
  /\ evaluateIfMoveIsValid koState 2 3 black false = valid.
Proof.
  split; [apply wfBoardb_wfBoard; vm_compute; reflexivity|].
  split; [discriminate|]. split; [reflexivity|]. split; [discriminate|].
  split; [vm_compute; reflexivity|]. split; [vm_compute; reflexivity|].
  split; [vm_compute; reflexivity|]. split; [vm_compute; reflexivity|].
  apply (hasLiberty_valid_on_both_paths koState 2 3 black white
           (koPointAt 2 3) false).
  - apply wfBoardb_wfBoard. vm_compute. reflexivity.
  - discriminate.
  - reflexivity.
  - discriminate.
  - vm_compute. reflexivity.
  - vm_compute. reflexivity.
  - vm_compute. reflexivity.
  - vm_compute. reflexivity.
Defined.
